(** * reelpdf: the slice-boundary selection of [src/lib/whitespaceDetector.ts]

    A shallow embedding of the whitespace gap detector ([analyzeRow],
    [detectWhitespaceRows], [findGaps]) and of the cut-point selector
    ([findCutPoints], [generateEvenCuts]), followed by the properties of the
    specification that concern them.

    Numbers.  A JavaScript [number] that the code only ever uses as an array
    index or a row count is a [nat]; one that is integer valued (a gap's
    [startY], [endY], [height], a cut point) is a [Z]; every other number
    ([targetSliceHeight], the configuration, [centerY], [score]) is an exact
    rational [Q].  Rounding of IEEE doubles, infinities and [-0] are outside
    the model; [NaN] is modelled where the code can produce it from finite
    inputs ([undefined] channels, [0 / 0] in [analyzeRow]) by [option Q].
    The row counts, the centres of the gaps, [targetSliceHeight * 0.5] and
    [Math.round] are exact in doubles as well.  The running sum of
    [generateEvenCuts] and the product [targetSliceHeight * 0.3] are not:
    a property that rests on the exact value of the sum is stated for
    integer targets, for which every position of the loop is an integer,
    and one that rests on the outcome of a comparison with the product is
    stated where the compared number is [clearOfRounding].

    Loops.  The [for] loops run over a known range and are folds over
    [seq 0 n]; the [while] loop of [generateEvenCuts] has no such bound and
    takes fuel: [None] means that the fuel ran out before the loop exited. *)

From Stdlib Require Import List Sorted ZArith QArith Qround Qabs Qminmax Bool Arith Lia Lqa.
Import ListNotations.
From Stdlib Require String Ascii DecimalString DecimalNat DecimalZ.
From Stdlib Require Import Permutation.
Import String.StringSyntax Ascii.AsciiSyntax.
Delimit Scope string_scope with string.
Delimit Scope char_scope with char.

Local Open Scope Q_scope.

(** ** Numbers *)

(** [a < b] on rationals, as a boolean. *)
Definition Qlt_bool (a b : Q) : bool := negb (Qle_bool b a).

(** [Math.round]: the nearest integer, ties towards plus infinity. *)
Definition Math_round (x : Q) : Z := Qfloor (x + (1 # 2)).

(** The body of [for (let i = 0; i < n; i++)] folded over a state. *)
Definition for_loop {St : Type} (n : nat) (body : St -> nat -> St) (init : St) : St :=
  fold_left body (seq 0 n) init.

(** ** Data model *)

(** [ImageData]: [data] is the flat RGBA array (entries in 0..255). *)
Record ImageData := mkImageData {
  data : list Z;
  width : nat;
  height : nat
}.

(** [WhitespaceGap]; the field [height] of the source is [gapHeight] here,
    [height] being taken by [ImageData]. *)
Record WhitespaceGap := mkGap {
  startY : Z;
  endY : Z;
  gapHeight : Z;
  centerY : Q;
  score : Q
}.

Record DetectionConfig := mkConfig {
  whitespaceThreshold : Q;
  minGapHeight : Q;
  edgeMargin : Q;
  centerBias : Q
}.

Definition DEFAULT_CONFIG : DetectionConfig :=
  {| whitespaceThreshold := 95 # 100;
     minGapHeight := 15;
     edgeMargin := 50;
     centerBias := 2 # 10 |}.

(** [Partial<DetectionConfig>]: a field is [None] when the caller left it out. *)
Record PartialConfig := mkPartial {
  p_whitespaceThreshold : option Q;
  p_minGapHeight : option Q;
  p_edgeMargin : option Q;
  p_centerBias : option Q
}.

Definition noOverrides : PartialConfig := mkPartial None None None None.

Definition override (d : Q) (o : option Q) : Q :=
  match o with Some v => v | None => d end.

(** [{ ...DEFAULT_CONFIG, ...config }] *)
Definition mergeConfig (config : PartialConfig) : DetectionConfig :=
  {| whitespaceThreshold :=
       override (whitespaceThreshold DEFAULT_CONFIG) (p_whitespaceThreshold config);
     minGapHeight := override (minGapHeight DEFAULT_CONFIG) (p_minGapHeight config);
     edgeMargin := override (edgeMargin DEFAULT_CONFIG) (p_edgeMargin config);
     centerBias := override (centerBias DEFAULT_CONFIG) (p_centerBias config) |}.

(** ** The gap detector *)

(** [(r + g + b) / 3 / 255] of the pixel at column [x] of row [y]; [None] is
    the [NaN] that a channel read past the end of [data] gives. *)
Definition brightness (imageData : ImageData) (y x : nat) : option Q :=
  let idx := (y * width imageData * 4 + x * 4)%nat in
  match nth_error (data imageData) idx,
        nth_error (data imageData) (idx + 1),
        nth_error (data imageData) (idx + 2) with
  | Some r, Some g, Some b => Some (inject_Z (r + g + b) / 3 / 255)
  | _, _, _ => None
  end.

(** [brightness > 0.9], false on [NaN]. *)
Definition isWhitePx (imageData : ImageData) (y x : nat) : bool :=
  match brightness imageData y x with
  | Some br => Qlt_bool (9 # 10) br
  | None => false
  end.

(** The counter [whitePx] after the loop over the columns of row [y]. *)
Definition countWhitePx (imageData : ImageData) (y : nat) : nat :=
  for_loop (width imageData)
    (fun whitePx x => if isWhitePx imageData y x then S whitePx else whitePx) 0%nat.

(** [analyzeRow]: [whitePx / width], which is [NaN] ([None]) when [width] is 0. *)
Definition analyzeRow (imageData : ImageData) (y : nat) : option Q :=
  match width imageData with
  | O => None
  | _ => Some (inject_Z (Z.of_nat (countWhitePx imageData y))
               / inject_Z (Z.of_nat (width imageData)))
  end.

(** [brightnessRatio >= config.whitespaceThreshold], false on [NaN]. *)
Definition isWhitespaceRow (imageData : ImageData) (config : DetectionConfig)
    (y : nat) : bool :=
  match analyzeRow imageData y with
  | Some brightnessRatio => Qle_bool (whitespaceThreshold config) brightnessRatio
  | None => false
  end.

Definition detectWhitespaceRows (imageData : ImageData) (config : DetectionConfig)
    : list bool :=
  for_loop (height imageData)
    (fun rows y => rows ++ [isWhitespaceRow imageData config y]) [].

(** What the scan pushes when the non-whitespace row [y] ends the run that
    began at [gapStart]: the gap, or nothing when a filter rejects it.  The
    quotient [centerY / pageHeight] is modelled for [pageHeight <> 0]. *)
Definition closeGap (pageHeight : Z) (config : DetectionConfig)
    (gapStart y : nat) : list WhitespaceGap :=
  let gapHeight := (Z.of_nat y - Z.of_nat gapStart)%Z in
  if Qle_bool (minGapHeight config) (inject_Z gapHeight) then
    let centerY := inject_Z (Z.of_nat gapStart) + inject_Z gapHeight / 2 in
    if Qlt_bool (edgeMargin config) centerY
       && Qlt_bool centerY (inject_Z pageHeight - edgeMargin config) then
      let sizeScore := Qmin (inject_Z gapHeight / 50) 1 in
      let normalizedY := centerY / inject_Z pageHeight in
      let centerScore := 1 - Qabs (normalizedY - (1 # 2)) * centerBias config in
      [ {| startY := Z.of_nat gapStart;
           endY := Z.of_nat y;
           gapHeight := gapHeight;
           centerY := centerY;
           score := sizeScore * centerScore |} ]
    else []
  else [].

(** The state of the scan: [gapStart] ([None] for [null]) and [gaps]. *)
Definition ScanState : Type := (option nat * list WhitespaceGap)%type.

Definition scanRow (whitespaceRows : list bool) (pageHeight : Z)
    (config : DetectionConfig) (st : ScanState) (y : nat) : ScanState :=
  let '(gapStart, gaps) := st in
  if nth y whitespaceRows false then
    match gapStart with
    | None => (Some y, gaps)
    | Some _ => st
    end
  else
    match gapStart with
    | Some s => (None, gaps ++ closeGap pageHeight config s y)
    | None => st
    end.

Definition findGaps (whitespaceRows : list bool) (pageHeight : Z)
    (config : DetectionConfig) : list WhitespaceGap :=
  snd (for_loop (length whitespaceRows)
         (scanRow whitespaceRows pageHeight config) (None, [])).

(** [detectGaps] of the specification: the two passes of [findCutPoints]
    that come before the selection. *)
Definition detectGaps (imageData : ImageData) (config : DetectionConfig)
    : list WhitespaceGap :=
  findGaps (detectWhitespaceRows imageData config)
           (Z.of_nat (height imageData)) config.

(** ** The cut-point selector *)

(** The [while] loop of [generateEvenCuts], on fuel.  The sum and the bound
    are exact here; the doubles of the source give the same cuts when the
    target is an integer and can give other cuts when it is not. *)
Fixpoint evenCutsLoop (fuel : nat) (height : Z) (targetHeight : Q)
    (cuts : list Z) (current : Q) : option (list Z) :=
  match fuel with
  | O => None
  | S fuel' =>
      if Qlt_bool current (inject_Z height - targetHeight * (3 # 10)) then
        evenCutsLoop fuel' height targetHeight
          (cuts ++ [Math_round current]) (current + targetHeight)
      else Some cuts
  end.

Definition generateEvenCuts (fuel : nat) (height : Z) (targetHeight : Q)
    : option (list Z) :=
  match evenCutsLoop fuel height targetHeight [0%Z] targetHeight with
  | Some cuts => Some (cuts ++ [height])
  | None => None
  end.

(** [[...gaps].sort((a, b) => a.centerY - b.centerY)]: a stable sort by
    [centerY], here by insertion. *)
Fixpoint insertGap (g : WhitespaceGap) (l : list WhitespaceGap)
    : list WhitespaceGap :=
  match l with
  | [] => [g]
  | h :: t =>
      if Qle_bool (centerY g) (centerY h) then g :: h :: t
      else h :: insertGap g t
  end.

Fixpoint sortGaps (l : list WhitespaceGap) : list WhitespaceGap :=
  match l with
  | [] => []
  | g :: t => insertGap g (sortGaps t)
  end.

(** Which arm of the [if / else if] of the selection loop a gap takes. *)
Inductive Branch := Primary | Secondary | Skip.

Definition branchOf (targetSliceHeight lastCut : Q) (gap : WhitespaceGap)
    : Branch :=
  let distanceFromLastCut := centerY gap - lastCut in
  if Qle_bool (targetSliceHeight * (1 # 2)) distanceFromLastCut then Primary
  else if Qle_bool (targetSliceHeight * 1) distanceFromLastCut
          && Qlt_bool (2 # 10) (score gap) then Secondary
  else Skip.

(** The state of the selection loop: [cutPoints] and [lastCut]. *)
Definition SelState : Type := (list Z * Q)%type.

Definition selectStep (targetSliceHeight : Q) (st : SelState)
    (gap : WhitespaceGap) : SelState :=
  let '(cutPoints, lastCut) := st in
  match branchOf targetSliceHeight lastCut gap with
  | Primary => (cutPoints ++ [Math_round (centerY gap)], centerY gap)
  | Secondary => (cutPoints ++ [Math_round (centerY gap)], centerY gap)
  | Skip => st
  end.

(** The arms taken along the loop, in order. *)
Fixpoint branchTrace (targetSliceHeight : Q) (lastCut : Q)
    (gaps : list WhitespaceGap) : list Branch :=
  match gaps with
  | [] => []
  | gap :: rest =>
      branchOf targetSliceHeight lastCut gap
      :: branchTrace targetSliceHeight
           (snd (selectStep targetSliceHeight ([], lastCut) gap)) rest
  end.

(** [cutPoints[cutPoints.length - 1] = height]; on an empty array the
    assignment adds the property [-1] and no element. *)
Definition setLast (cutPoints : list Z) (height : Z) : list Z :=
  match cutPoints with
  | [] => []
  | _ => removelast cutPoints ++ [height]
  end.

(** The selection of [findCutPoints] once the gaps are known not to be
    empty.  The product of the last test is exact here and rounded in the
    source: the test comes out the same wherever [height - lastCut] is
    [clearOfRounding]. *)
Definition selectFromGaps (height : Z) (targetSliceHeight : Q)
    (gaps : list WhitespaceGap) : list Z :=
  let '(cutPoints, lastCut) :=
    fold_left (selectStep targetSliceHeight) (sortGaps gaps) ([0%Z], 0) in
  if Qlt_bool (targetSliceHeight * (3 # 10)) (inject_Z height - lastCut) then
    cutPoints ++ [height]
  else setLast cutPoints height.

Definition findCutPoints (fuel : nat) (imageData : ImageData)
    (targetSliceHeight : Q) (config : PartialConfig) : option (list Z) :=
  let mergedConfig := mergeConfig config in
  let height := Z.of_nat (height imageData) in
  let whitespaceRows := detectWhitespaceRows imageData mergedConfig in
  let gaps := findGaps whitespaceRows height mergedConfig in
  match gaps with
  | [] => generateEvenCuts fuel height targetSliceHeight
  | _ => Some (selectFromGaps height targetSliceHeight gaps)
  end.

(** The loop of [analyzePageForSlicing]: the pairs of consecutive cut points. *)
Fixpoint slicesOf (cutPoints : list Z) : list (Z * Z) :=
  match cutPoints with
  | a :: ((b :: _) as rest) => (a, b) :: slicesOf rest
  | _ => []
  end.

(** [analyzePageForSlicing]; the caller passes [scale = 2]. *)
Definition analyzePageForSlicing (fuel : nat) (imageData : ImageData)
    (viewportHeight scale : Q) : option (list (Z * Z)) :=
  let targetSliceHeight := viewportHeight * scale * (1 # 2) in
  match findCutPoints fuel imageData targetSliceHeight noOverrides with
  | Some cutPoints => Some (slicesOf cutPoints)
  | None => None
  end.

(** ** Vocabulary of the properties *)

(** Rows [s], ..., [e - 1] are whitespace. *)
Definition whiteOn (whitespaceRows : list bool) (s e : nat) : Prop :=
  forall i, (s <= i < e)%nat -> nth i whitespaceRows false = true.

(** No whitespace row comes just before row [s]. *)
Definition startsRun (whitespaceRows : list bool) (s : nat) : Prop :=
  s = 0%nat \/ nth (s - 1) whitespaceRows false = false.

(** [s, e) is a maximal run of whitespace rows: it can be extended neither
    upwards nor downwards ([e] may be the end of the page). *)
Definition maximalRun (whitespaceRows : list bool) (s e : nat) : Prop :=
  (s < e <= length whitespaceRows)%nat /\ whiteOn whitespaceRows s e
  /\ startsRun whitespaceRows s /\ nth e whitespaceRows false = false.

(** A maximal run that a non-whitespace row ends. *)
Definition terminatedRun (whitespaceRows : list bool) (s e : nat) : Prop :=
  maximalRun whitespaceRows s e /\ (e < length whitespaceRows)%nat.

(** Boolean forms of the run predicates, to decide them on a given page. *)
Definition whiteOnb (rows : list bool) (s e : nat) : bool :=
  forallb (fun i => nth i rows false) (seq s (e - s)).

Definition maximalRunb (rows : list bool) (s e : nat) : bool :=
  (s <? e)%nat && (e <=? length rows)%nat && whiteOnb rows s e
  && ((s =? 0)%nat || negb (nth (s - 1) rows false))
  && negb (nth e rows false).

(** The centre the code gives the run [s, e). *)
Definition runCenter (s e : nat) : Q :=
  inject_Z (Z.of_nat s) + inject_Z (Z.of_nat e - Z.of_nat s) / 2.

(** What holds of [gapStart] and [gaps] when the scan is about to read row [n]. *)
Definition scanInv (whitespaceRows : list bool) (pageHeight : Z)
    (config : DetectionConfig) (n : nat) (st : ScanState) : Prop :=
  match fst st with
  | None => n = 0%nat \/ nth (n - 1) whitespaceRows false = false
  | Some s => (s < n)%nat /\ whiteOn whitespaceRows s n /\ startsRun whitespaceRows s
  end
  /\ forall g, In g (snd st) <->
       exists s e, (s < e < n)%nat /\ whiteOn whitespaceRows s e
                   /\ startsRun whitespaceRows s
                   /\ nth e whitespaceRows false = false
                   /\ In g (closeGap pageHeight config s e).

(** [a] ends above the row where [b] begins. *)
Definition gapBefore (a b : WhitespaceGap) : Prop := (endY a < startY b)%Z.

(** The cut of [a] comes before the cut of [b]. *)
Definition cutBefore (a b : WhitespaceGap) : Prop :=
  (Math_round (centerY a) < Math_round (centerY b))%Z.

(** The contract of the specification on a cut-point sequence for a page
    of height [H]. *)
Definition validCuts (H : Z) (cuts : list Z) : Prop :=
  (2 <= length cuts)%nat /\ hd_error cuts = Some 0%Z /\ last cuts 0%Z = H
  /\ StronglySorted Z.lt cuts.

(** What the selection loop keeps of [cutPoints]: it starts at 0, grows
    strictly, stays below [H] and below the cut of every gap to come. *)
Definition cutsSoFar (H : Z) (rest : list WhitespaceGap) (cutPoints : list Z) : Prop :=
  hd_error cutPoints = Some 0%Z
  /\ StronglySorted Z.lt cutPoints
  /\ (forall c, In c cutPoints -> (c < H)%Z)
  /\ (forall c g, In c cutPoints -> In g rest -> (c < Math_round (centerY g))%Z).

(** The position of the [while] loop of [generateEvenCuts] at its [j]-th
    test: [j * targetHeight]. *)
Definition evenPosition (targetHeight : Q) (j : nat) : Q :=
  inject_Z (Z.of_nat j) * targetHeight.

(** How many interior cuts the fallback makes for a positive target. *)
Definition evenCutCount (height : Z) (targetHeight : Q) : nat :=
  Z.to_nat (Qceiling ((inject_Z height - targetHeight * (3 # 10)) / targetHeight) - 1).

(** The source tests [x > targetSliceHeight * 0.3] on a product of doubles,
    and 0.3 is not a double: the product it compares with is off the exact
    one by less than [2^-52] of the target.  The test comes out as in
    exact arithmetic when [x] is further than that from the exact product,
    and also when [x], a row count or a centre, is the exact product: the
    target is then a multiple of 5 and the rounded product is [x].  The
    distance asked for here is [2^-50] of the target. *)
Definition clearOfRounding (targetSliceHeight x : Q) : Prop :=
  x == targetSliceHeight * (3 # 10)
  \/ Qabs targetSliceHeight * (1 # 2 ^ 50) < Qabs (x - targetSliceHeight * (3 # 10)).


(** ** The pages of the examples *)

(** [paint w rows] is the image of width [w] whose
    row [y] is all white (255, 255, 255) when [rows] has [true] at [y] and
    all black otherwise, every pixel opaque. *)
Definition pixel (white : bool) : list Z :=
  if white then [255; 255; 255; 255]%Z else [0; 0; 0; 255]%Z.

Definition paint (w : nat) (rows : list bool) : ImageData :=
  {| data := flat_map (fun white => concat (repeat (pixel white) w)) rows;
     width := w;
     height := length rows |}.

(** Rows [lo], ..., [hi - 1]. *)
Definition band (lo hi : nat) (y : nat) : bool := (lo <=? y)%nat && (y <? hi)%nat.

(** Rows 290 to 309 and 690 to 709: two bands of 20 rows, which the code
    centres at 300 and at 700. *)
Definition inBandB (y : nat) : bool := band 290 310 y || band 690 710 y.

(** A page of 200 rows with a run of 10 whitespace rows at 60 and a run of
    20 at 120. *)
Definition twoRuns : list bool :=
  map (fun y => band 60 70 y || band 120 140 y) (seq 0 200).

(** A page of 200 rows that begins with 20 whitespace rows: the run is
    taller than [minGapHeight] and centred at 10. *)
Definition topRun : list bool := map (band 0 20) (seq 0 200).

(** A page of 100 rows whose last 40 are whitespace, and a white page of
    6 rows of 2 pixels. *)
Definition trailingRun : list bool := map (band 60 100) (seq 0 100).

Definition whitePage : ImageData := paint 2 (repeat true 6).

(** A black page of 10 rows of 2 pixels. *)
Definition blackPage : ImageData := paint 2 (repeat false 10).

(** A page that is one black pixel. *)
Definition blackPixel : ImageData := paint 1 [false].

(** Two pages of 200 rows with one run of 20 whitespace rows, around row
    100 and around row 120. *)
Definition shortPage : ImageData := paint 1 (map (band 90 110) (seq 0 200)).



(** The page of scenario B, two pixels wide. *)
Definition pageB : ImageData := paint 2 (map inBandB (seq 0 1000)).

(** A configuration that meets the constraints of the specification
    (threshold in [0, 1], the other fields non-negative) with a strong
    [centerBias]. *)
Definition strongBias : DetectionConfig :=
  {| whitespaceThreshold := 95 # 100;
     minGapHeight := 15;
     edgeMargin := 0;
     centerBias := 10 |}.




(** ** No short slices *)

(** Every slice of [cuts] is more than [d] rows high. *)
Definition slicesTaller (d : Q) (cuts : list Z) : Prop :=
  forall p, In p (slicesOf cuts) -> d < inject_Z (snd p - fst p).

(** * The rest of the reader

    The embedding goes on with the code around the detector: the text
    items of a slice ([getTextItemsForSlice]), the crop of a slice
    ([createSliceCanvas] of [src/lib/pdfRenderer.ts]), the page slicer
    ([processDocumentSlices], [loadSlicesFromStorage]), the progress bar
    of [ProcessingOverlay], the choice of the current slice in
    [SliceReader], the export of the highlights
    ([src/lib/exportHighlights.ts]) and the database
    ([src/lib/storage.ts]).  What the browser provides (the clock, the
    date formats, [JSON.stringify], the encoding of a canvas) is an
    argument or is left abstract; where a function awaits the database or
    a callback, the calls are kept in order as a list of effects. *)

(** ** Text items ([textExtractor.ts], after the renderer in [src/lib/pdfRenderer.ts]) *)

Module TextItem.
Record t := mk {
  str : String.string;
  x : Q;
  y : Q;
  width : Q;
  height : Q;
  fontHeight : Q;
  transform : list Q
}.
End TextItem.

Module PageTextContent.
Record t := mk {
  pageNumber : nat;
  items : list TextItem.t;
  pageWidth : Q;
  pageHeight : Q
}.
End PageTextContent.

(** The test of the [filter] of [getTextItemsForSlice]. *)
Definition overlapsSlice (startY endY : Q) (item : TextItem.t) : bool :=
  let itemBottom := TextItem.y item + TextItem.height item in
  Qlt_bool (TextItem.y item) endY && Qlt_bool startY itemBottom.

(** [{ ...item, y: item.y - startY }] *)
Definition shiftItem (startY : Q) (item : TextItem.t) : TextItem.t :=
  TextItem.mk (TextItem.str item) (TextItem.x item) (TextItem.y item - startY)
    (TextItem.width item) (TextItem.height item) (TextItem.fontHeight item)
    (TextItem.transform item).

Definition getTextItemsForSlice (pageText : PageTextContent.t) (startY endY : Q)
    : list TextItem.t :=
  map (shiftItem startY)
      (filter (overlapsSlice startY endY) (PageTextContent.items pageText)).

(** ** Slice canvases ([pdfRenderer.ts]) *)

(** A canvas, by its size and by the row of the page at which its content
    begins ([top] is 0 for the canvas of a rendered page).  A size is the
    number the code assigns to it; the code assigns none below 0 as long
    as [startY <= endY].  A blob is modelled by the canvas it encodes and
    an object URL by the blob it names. *)
Module Canvas.
Record t := mk {
  width : Z;
  height : Z;
  top : Z
}.
End Canvas.

Definition Blob : Type := Canvas.t.

(** [createSliceCanvas]: the crop of [sourceCanvas] from [adjustedStartY]
    down to [endY]. *)
Definition createSliceCanvas (sourceCanvas : Canvas.t) (startY endY overlapHeight : Z)
    : Canvas.t :=
  let adjustedStartY := Z.max 0 (startY - overlapHeight) in
  let sliceHeight := (endY - adjustedStartY)%Z in
  {| Canvas.width := Canvas.width sourceCanvas;
     Canvas.height := sliceHeight;
     Canvas.top := (Canvas.top sourceCanvas + adjustedStartY)%Z |}.

(** ** The page slicer ([pageSlicer.ts], after the detector in [src/lib/whitespaceDetector.ts]) *)

Module PageRenderResult.
Record t := mk {
  pageNumber : nat;
  width : Q;
  height : Q;
  canvas : Canvas.t;
  imageData : ImageData
}.
End PageRenderResult.

Module SliceInfo.
Record t := mk {
  id : String.string;
  documentId : String.string;
  pageNumber : nat;
  sliceIndex : nat;
  globalIndex : nat;
  imageUrl : Blob;
  startY : Z;
  endY : Z;
  overlapHeight : Z;
  width : Z;
  height : Z;
  textItems : list TextItem.t
}.
End SliceInfo.

Module StoredSlice.
Record t := mk {
  id : String.string;
  documentId : String.string;
  pageNumber : nat;
  sliceIndex : nat;
  imageData : Blob;
  startY : Z;
  endY : Z;
  overlapHeight : Z
}.
End StoredSlice.

Inductive Phase := rendering | slicing | complete.

Module ProcessingProgress.
Record t := mk {
  phase : Phase;
  currentPage : nat;
  totalPages : nat;
  currentSlice : nat;
  totalSlices : nat
}.
End ProcessingProgress.

Definition OVERLAP_HEIGHT : Z := 60.

(** What [processDocumentSlices] does to the outside, in order: the calls of
    [clearSlicesForDocument], [saveSlice] and [onProgress]. *)
Inductive Effect :=
| ClearSlices (documentId : String.string)
| SaveSlice (slice : StoredSlice.t)
| Progress (progress : ProcessingProgress.t).

(** A number in a template literal: its decimal digits. *)
Definition decimal (n : nat) : String.string :=
  DecimalString.NilEmpty.string_of_uint (Nat.to_uint n).

(** [`${documentId}-p${page.pageNumber}-s${sliceIdx}`] *)
Definition sliceIdOf (documentId : String.string) (pageNumber sliceIdx : nat)
    : String.string :=
  String.append documentId
    (String.append "-p" (String.append (decimal pageNumber)
       (String.append "-s" (decimal sliceIdx)))).

(** The state of the loops: [allSlices], the effects so far, [globalIndex]. *)
Definition SlicerState : Type := (list SliceInfo.t * list Effect * nat)%type.

(** The body of the loop over the slices of one page.  [canvasToBlob] is
    taken to resolve, with the blob of the canvas: a run in which it
    rejects returns nothing, and the properties of
    [processDocumentSlices] below are about the runs that return. *)
Definition sliceStep (documentId : String.string) (pageIdx : nat)
    (page : PageRenderResult.t) (pageText : option PageTextContent.t)
    (st : SlicerState) (slice : nat * (Z * Z)) : SlicerState :=
  let '(allSlices, effects, globalIndex) := st in
  let '(sliceIdx, (startY, endY)) := slice in
  let isFirstSlice := (sliceIdx =? 0)%nat && (pageIdx =? 0)%nat in
  let overlapHeight := if isFirstSlice then 0%Z else OVERLAP_HEIGHT in
  let sliceCanvas :=
    createSliceCanvas (PageRenderResult.canvas page) startY endY overlapHeight in
  let imageBlob : Blob := sliceCanvas in
  let sliceId := sliceIdOf documentId (PageRenderResult.pageNumber page) sliceIdx in
  let adjustedStartY := Z.max 0 (startY - overlapHeight) in
  let textItems :=
    match pageText with
    | Some pageText =>
        getTextItemsForSlice pageText (inject_Z adjustedStartY) (inject_Z endY)
    | None => []
    end in
  (allSlices
   ++ [ {| SliceInfo.id := sliceId;
           SliceInfo.documentId := documentId;
           SliceInfo.pageNumber := PageRenderResult.pageNumber page;
           SliceInfo.sliceIndex := sliceIdx;
           SliceInfo.globalIndex := globalIndex;
           SliceInfo.imageUrl := imageBlob;
           SliceInfo.startY := startY;
           SliceInfo.endY := endY;
           SliceInfo.overlapHeight := overlapHeight;
           SliceInfo.width := Canvas.width sliceCanvas;
           SliceInfo.height := Canvas.height sliceCanvas;
           SliceInfo.textItems := textItems |} ],
   effects
   ++ [ SaveSlice {| StoredSlice.id := sliceId;
                     StoredSlice.documentId := documentId;
                     StoredSlice.pageNumber := PageRenderResult.pageNumber page;
                     StoredSlice.sliceIndex := sliceIdx;
                     StoredSlice.imageData := imageBlob;
                     StoredSlice.startY := startY;
                     StoredSlice.endY := endY;
                     StoredSlice.overlapHeight := overlapHeight |} ],
   S globalIndex).

(** A list with the indices of its elements. *)
Definition indexed {A : Type} (l : list A) : list (nat * A) :=
  combine (seq 0 (length l)) l.

(** The loop over the pages, in a run in which every [canvasToBlob]
    resolves; [None] when the analysis of a page does not return. *)
Fixpoint pagesLoop (fuel : nat) (documentId : String.string)
    (totalPages : nat) (textContents : list PageTextContent.t)
    (viewportHeight : Q) (pages : list PageRenderResult.t) (pageIdx : nat)
    (st : SlicerState) : option SlicerState :=
  match pages with
  | [] => Some st
  | page :: rest =>
      let '(allSlices, effects, globalIndex) := st in
      let pageText := nth_error textContents pageIdx in
      let announced :=
        effects ++ [ Progress {| ProcessingProgress.phase := slicing;
                                 ProcessingProgress.currentPage := pageIdx + 1;
                                 ProcessingProgress.totalPages := totalPages;
                                 ProcessingProgress.currentSlice := globalIndex;
                                 ProcessingProgress.totalSlices := 0 |} ] in
      match analyzePageForSlicing fuel (PageRenderResult.imageData page)
              viewportHeight 2 with
      | None => None
      | Some sliceBounds =>
          pagesLoop fuel documentId totalPages textContents viewportHeight rest
            (S pageIdx)
            (fold_left (sliceStep documentId pageIdx page pageText)
               (indexed sliceBounds) (allSlices, announced, globalIndex))
      end
  end.

(** [processDocumentSlices]: the slices it returns and the effects it has,
    with [onProgress] given. *)
Definition processDocumentSlices (fuel : nat) (documentId : String.string)
    (renderedPages : list PageRenderResult.t)
    (textContents : list PageTextContent.t) (viewportHeight : Q)
    : option (list SliceInfo.t * list Effect) :=
  match pagesLoop fuel documentId (length renderedPages) textContents
          viewportHeight renderedPages 0 ([], [ClearSlices documentId], 0%nat) with
  | None => None
  | Some (allSlices, effects, globalIndex) =>
      Some (allSlices,
            effects
            ++ [ Progress {| ProcessingProgress.phase := complete;
                             ProcessingProgress.currentPage := length renderedPages;
                             ProcessingProgress.totalPages := length renderedPages;
                             ProcessingProgress.currentSlice := globalIndex;
                             ProcessingProgress.totalSlices := globalIndex |} ])
  end.

(** The comparison of [loadSlicesFromStorage]'s sort: negative, as [true],
    or zero or positive. *)
Definition sliceBefore (a b : StoredSlice.t) : bool :=
  if (StoredSlice.pageNumber a =? StoredSlice.pageNumber b)%nat
  then (StoredSlice.sliceIndex a <? StoredSlice.sliceIndex b)%nat
  else (StoredSlice.pageNumber a <? StoredSlice.pageNumber b)%nat.

(** [Array.prototype.sort] with that comparison: a stable sort, here by
    insertion. *)
Fixpoint insertSlice (s : StoredSlice.t) (l : list StoredSlice.t)
    : list StoredSlice.t :=
  match l with
  | [] => [s]
  | h :: t => if sliceBefore h s then h :: insertSlice s t else s :: h :: t
  end.

Fixpoint sortSlices (l : list StoredSlice.t) : list StoredSlice.t :=
  match l with
  | [] => []
  | s :: t => insertSlice s (sortSlices t)
  end.

(** [loadSlicesFromStorage] *)
Definition loadSlicesFromStorage (_documentId : String.string)
    (storedSlices : list StoredSlice.t) : list SliceInfo.t :=
  map (fun '(globalIndex, slice) =>
         let url : Blob := StoredSlice.imageData slice in
         {| SliceInfo.id := StoredSlice.id slice;
            SliceInfo.documentId := StoredSlice.documentId slice;
            SliceInfo.pageNumber := StoredSlice.pageNumber slice;
            SliceInfo.sliceIndex := StoredSlice.sliceIndex slice;
            SliceInfo.globalIndex := globalIndex;
            SliceInfo.imageUrl := url;
            SliceInfo.startY := StoredSlice.startY slice;
            SliceInfo.endY := StoredSlice.endY slice;
            SliceInfo.overlapHeight := StoredSlice.overlapHeight slice;
            SliceInfo.width := 0;
            SliceInfo.height := 0;
            SliceInfo.textItems := [] |})
      (indexed (sortSlices storedSlices)).

(** ** Vocabulary for the page slicer *)

(** The slice [processDocumentSlices] makes of the bounds [startY], [endY]
    of slice [sliceIdx] of the page at index [pageIdx]. *)
Definition overlapOf (pageIdx sliceIdx : nat) : Z :=
  if (sliceIdx =? 0)%nat && (pageIdx =? 0)%nat then 0%Z else OVERLAP_HEIGHT.

Definition sliceInfoAt (documentId : String.string) (pageIdx : nat)
    (page : PageRenderResult.t) (pageText : option PageTextContent.t)
    (entry : nat * (nat * (Z * Z))) : SliceInfo.t :=
  let '(globalIndex, (sliceIdx, (startY, endY))) := entry in
  let overlapHeight := overlapOf pageIdx sliceIdx in
  let sliceCanvas :=
    createSliceCanvas (PageRenderResult.canvas page) startY endY overlapHeight in
  {| SliceInfo.id := sliceIdOf documentId (PageRenderResult.pageNumber page) sliceIdx;
     SliceInfo.documentId := documentId;
     SliceInfo.pageNumber := PageRenderResult.pageNumber page;
     SliceInfo.sliceIndex := sliceIdx;
     SliceInfo.globalIndex := globalIndex;
     SliceInfo.imageUrl := sliceCanvas;
     SliceInfo.startY := startY;
     SliceInfo.endY := endY;
     SliceInfo.overlapHeight := overlapHeight;
     SliceInfo.width := Canvas.width sliceCanvas;
     SliceInfo.height := Canvas.height sliceCanvas;
     SliceInfo.textItems :=
       match pageText with
       | Some pageText =>
           getTextItemsForSlice pageText
             (inject_Z (Z.max 0 (startY - overlapHeight))) (inject_Z endY)
       | None => []
       end |}.

(** The record [saveSlice] receives for a slice. *)
Definition storedSliceOf (s : SliceInfo.t) : StoredSlice.t :=
  {| StoredSlice.id := SliceInfo.id s;
     StoredSlice.documentId := SliceInfo.documentId s;
     StoredSlice.pageNumber := SliceInfo.pageNumber s;
     StoredSlice.sliceIndex := SliceInfo.sliceIndex s;
     StoredSlice.imageData := SliceInfo.imageUrl s;
     StoredSlice.startY := SliceInfo.startY s;
     StoredSlice.endY := SliceInfo.endY s;
     StoredSlice.overlapHeight := SliceInfo.overlapHeight s |}.

(** The slices of one page, the first of them with global index [g]. *)
Definition pageSlices (documentId : String.string)
    (textContents : list PageTextContent.t) (pageIdx g : nat)
    (page : PageRenderResult.t) (bounds : list (Z * Z)) : list SliceInfo.t :=
  map (sliceInfoAt documentId pageIdx page (nth_error textContents pageIdx))
      (combine (seq g (length bounds)) (indexed bounds)).

(** The slices of the pages [pages], each with the bounds the analysis gave
    it, from page index [pageIdx] and global index [g] on. *)
Fixpoint slicesFrom (documentId : String.string)
    (textContents : list PageTextContent.t) (pageIdx g : nat)
    (pages : list (PageRenderResult.t * list (Z * Z))) : list SliceInfo.t :=
  match pages with
  | [] => []
  | (page, bounds) :: rest =>
      pageSlices documentId textContents pageIdx g page bounds
      ++ slicesFrom documentId textContents (S pageIdx) (g + length bounds) rest
  end.

(** The [saveSlice] calls among the effects, in order. *)
Definition savedSlices (effects : list Effect) : list StoredSlice.t :=
  flat_map (fun e => match e with SaveSlice s => [s] | _ => [] end) effects.

(** The [onProgress] calls among the effects, in order. *)
Definition progressEvents (effects : list Effect) : list ProcessingProgress.t :=
  flat_map (fun e => match e with Progress p => [p] | _ => [] end) effects.

(** What [loadSlicesFromStorage] cannot give back of a slice: the size of
    its image and its text. *)
Definition withoutSizeAndText (s : SliceInfo.t) : SliceInfo.t :=
  {| SliceInfo.id := SliceInfo.id s;
     SliceInfo.documentId := SliceInfo.documentId s;
     SliceInfo.pageNumber := SliceInfo.pageNumber s;
     SliceInfo.sliceIndex := SliceInfo.sliceIndex s;
     SliceInfo.globalIndex := SliceInfo.globalIndex s;
     SliceInfo.imageUrl := SliceInfo.imageUrl s;
     SliceInfo.startY := SliceInfo.startY s;
     SliceInfo.endY := SliceInfo.endY s;
     SliceInfo.overlapHeight := SliceInfo.overlapHeight s;
     SliceInfo.width := 0;
     SliceInfo.height := 0;
     SliceInfo.textItems := [] |}.

(** No character of [s] is a hyphen. *)
Fixpoint noHyphen (s : String.string) : Prop :=
  match s with
  | String.EmptyString => True
  | String.String c s' => c <> "-"%char /\ noHyphen s'
  end.

(** ** The order of [loadSlicesFromStorage] *)

(** [a] comes strictly before [b]: an earlier page, or the same page and an
    earlier slice. *)
Definition storedLt (a b : StoredSlice.t) : Prop :=
  (StoredSlice.pageNumber a < StoredSlice.pageNumber b)%nat
  \/ (StoredSlice.pageNumber a = StoredSlice.pageNumber b
      /\ (StoredSlice.sliceIndex a < StoredSlice.sliceIndex b)%nat).

(** [b] does not come strictly before [a]. *)
Definition storedLe (a b : StoredSlice.t) : Prop := ~ storedLt b a.

(** ** Progress *)

(** [getProgress] of [ProcessingOverlay]: the width of the bar, in percent. *)
Definition getProgress (progress : ProcessingProgress.t) : Q :=
  if (ProcessingProgress.totalPages progress =? 0)%nat then 0
  else inject_Z (Z.of_nat (ProcessingProgress.currentPage progress))
       / inject_Z (Z.of_nat (ProcessingProgress.totalPages progress)) * 100.

(** ** The current slice of the reader ([SliceReader.tsx]) *)

(** What [handleScroll] reads of a [getBoundingClientRect]. *)
Module DOMRect.
Record t := mk {
  top : Q;
  bottom : Q
}.
End DOMRect.




(** ** Export of the highlights ([exportHighlights.ts]) *)

Module HighlightData.
Record t := mk {
  pageNumber : Z;
  sliceIndex : Z;
  text : String.string;
  createdAt : Z
}.
End HighlightData.

Module ExportedHighlight.
Record t := mk {
  text : String.string;
  page : Z;
  slice : Z;
  createdAt : String.string
}.
End ExportedHighlight.

Inductive ExportFormat : Type := markdown | text | json.

(** An integer in a template literal: its decimal digits, after a minus
    sign when it is negative. *)
Definition decimalZ (z : Z) : String.string :=
  DecimalString.NilEmpty.string_of_int (Z.to_int z).

(** The comparator of the [sort] call is negative: [a] goes before [b]. *)
Definition highlightBefore (a b : HighlightData.t) : bool :=
  if negb (HighlightData.pageNumber a =? HighlightData.pageNumber b)%Z
  then (HighlightData.pageNumber a - HighlightData.pageNumber b <? 0)%Z
  else (HighlightData.sliceIndex a - HighlightData.sliceIndex b <? 0)%Z.

Fixpoint insertHighlight (h : HighlightData.t) (l : list HighlightData.t)
  : list HighlightData.t :=
  match l with
  | [] => [h]
  | h' :: t => if highlightBefore h' h then h' :: insertHighlight h t
               else h :: h' :: t
  end.

(** [highlights.sort(...)]: stable, by page and then by slice. *)
Fixpoint sortHighlights (l : list HighlightData.t) : list HighlightData.t :=
  match l with
  | [] => []
  | h :: t => insertHighlight h (sortHighlights t)
  end.

(** The lines [formatAsMarkdown] starts from; [today] is
    [new Date().toLocaleDateString()]. *)
Definition markdownHeader (today documentName : String.string)
  : list String.string :=
  [ String.append "# Highlights from "
      (String.String "034"%char
         (String.append documentName
            (String.String "034"%char String.EmptyString)));
    String.EmptyString;
    String.append "*Exported on " (String.append today "*");
    String.EmptyString;
    "---"%string;
    String.EmptyString ].

(** One turn of the loop of [formatAsMarkdown], on [lines] and
    [currentPage]. *)
Definition markdownStep (st : list String.string * Z) (h : ExportedHighlight.t)
  : list String.string * Z :=
  let '(lines, currentPage) := st in
  let '(lines, currentPage) :=
    if negb (ExportedHighlight.page h =? currentPage)%Z
    then (lines ++ [String.append "## Page " (decimalZ (ExportedHighlight.page h));
                    String.EmptyString],
          ExportedHighlight.page h)
    else (lines, currentPage) in
  (lines ++ [String.append "> " (ExportedHighlight.text h); String.EmptyString],
   currentPage).

(** The array [lines] of [formatAsMarkdown] when the loop is over. *)
Definition markdownLines (today documentName : String.string)
    (highlights : list ExportedHighlight.t) : list String.string :=
  fst (fold_left markdownStep highlights
         (markdownHeader today documentName, (-1)%Z)).

(** [lines.join('\n')]. *)
Definition joinLines (lines : list String.string) : String.string :=
  String.concat (String.String "010"%char String.EmptyString) lines.

Definition formatAsMarkdown (today documentName : String.string)
    (highlights : list ExportedHighlight.t) : String.string :=
  joinLines (markdownLines today documentName highlights).

Definition textStep (lines : list String.string) (h : ExportedHighlight.t)
  : list String.string :=
  let lines :=
    lines ++ [String.append "[Page "
                (String.append (decimalZ (ExportedHighlight.page h)) "]")] in
  let lines := lines ++ [ExportedHighlight.text h] in
  lines ++ [String.EmptyString].

Definition textLines (today documentName : String.string)
    (highlights : list ExportedHighlight.t) : list String.string :=
  fold_left textStep highlights
    [ String.append "HIGHLIGHTS FROM: " documentName;
      String.append "Exported: " today;
      String.EmptyString;
      "================================"%string;
      String.EmptyString ].

Definition formatAsText (today documentName : String.string)
    (highlights : list ExportedHighlight.t) : String.string :=
  joinLines (textLines today documentName highlights).

(** [sorted.map(...)]; [toISOString] stands for
    [new Date(createdAt).toISOString()]. *)
Definition exportedOf (toISOString : Z -> String.string)
    (sorted : list HighlightData.t) : list ExportedHighlight.t :=
  map (fun h =>
         {| ExportedHighlight.text := HighlightData.text h;
            ExportedHighlight.page := HighlightData.pageNumber h;
            ExportedHighlight.slice := HighlightData.sliceIndex h;
            ExportedHighlight.createdAt := toISOString (HighlightData.createdAt h) |})
      sorted.

(** [exportHighlights], on the highlights that
    [getAllHighlightsForDocument] returned.  [JSON.stringify], the clock and
    the date formats are the browser's: [formatAsJSON], [today] and
    [toISOString] are taken as given. *)
Definition exportHighlights (toISOString : Z -> String.string)
    (today : String.string)
    (formatAsJSON : String.string -> list ExportedHighlight.t -> String.string)
    (highlights : list HighlightData.t) (documentName : String.string)
    (format : ExportFormat) : String.string :=
  let sorted := sortHighlights highlights in
  let exported := exportedOf toISOString sorted in
  match format with
  | markdown => formatAsMarkdown today documentName exported
  | text => formatAsText today documentName exported
  | json => formatAsJSON documentName exported
  end.

(** *** Vocabulary *)

Definition pageHeading (p : Z) : String.string :=
  String.append "## Page " (decimalZ p).

Definition isQuoteLine (s : String.string) : bool :=
  match s with
  | String.String c _ => Ascii.eqb c ">"%char
  | String.EmptyString => false
  end.

Definition highlightLe (a b : HighlightData.t) : Prop :=
  (HighlightData.pageNumber a < HighlightData.pageNumber b)%Z
  \/ (HighlightData.pageNumber a = HighlightData.pageNumber b
      /\ (HighlightData.sliceIndex a <= HighlightData.sliceIndex b)%Z).

(** ** The database ([storage.ts]) *)

(** An object store of IndexedDB with a key path: one record per key, held
    in the order of the keys.  [put] replaces the record that has the key
    of the new one, [delete] removes the record of a key, [get] returns
    it, and [getAllFromIndex] returns the records whose indexed field has
    the given value, in the order of their keys. *)
Definition deleteRecord {V : Type} (keyOf : V -> String.string)
    (key : String.string) (store : list V) : list V :=
  filter (fun r => negb (String.eqb (keyOf r) key)) store.

Fixpoint insertRecord {V : Type} (keyOf : V -> String.string) (v : V)
    (store : list V) : list V :=
  match store with
  | [] => [v]
  | r :: rest => if String.ltb (keyOf v) (keyOf r) then v :: r :: rest
                 else r :: insertRecord keyOf v rest
  end.

Definition putRecord {V : Type} (keyOf : V -> String.string) (v : V)
    (store : list V) : list V :=
  insertRecord keyOf v (deleteRecord keyOf (keyOf v) store).

Definition getRecord {V : Type} (keyOf : V -> String.string)
    (key : String.string) (store : list V) : option V :=
  find (fun r => String.eqb (keyOf r) key) store.

Definition getAllFromIndex {V : Type} (indexOf : V -> String.string)
    (key : String.string) (store : list V) : list V :=
  filter (fun r => String.eqb (indexOf r) key) store.

Module DocumentRecord.
Record t := mk {
  id : String.string;
  name : String.string;
  data : list Byte.byte;
  pageCount : nat;
  createdAt : Z;
  lastReadAt : Z
}.
End DocumentRecord.

Module ProgressRecord.
Record t := mk {
  documentId : String.string;
  currentSliceIndex : nat;
  totalSlices : nat;
  lastUpdated : Z
}.
End ProgressRecord.

Module HighlightPosition.
Record t := mk { x : Q; y : Q; width : Q; height : Q }.
End HighlightPosition.

Module HighlightRecord.
Record t := mk {
  id : String.string;
  documentId : String.string;
  sliceIndex : Z;
  pageNumber : Z;
  text : String.string;
  position : HighlightPosition.t;
  createdAt : Z
}.
End HighlightRecord.

(** The four object stores of [ReelPDFDB]. *)
Module DB.
Record t := mk {
  documents : list DocumentRecord.t;
  slices : list StoredSlice.t;
  progress : list ProgressRecord.t;
  highlights : list HighlightRecord.t
}.
End DB.

(** The functions of [storage.ts], from the database before to the
    database after or to the value read.  The values of [Date.now()] are
    arguments, one for each call. *)
Module Storage.

Definition saveDocument (now1 now2 : Z) (id name : String.string)
    (data : list Byte.byte) (pageCount : nat) (db : DB.t) : DB.t :=
  {| DB.documents :=
       putRecord DocumentRecord.id
         {| DocumentRecord.id := id;
            DocumentRecord.name := name;
            DocumentRecord.data := data;
            DocumentRecord.pageCount := pageCount;
            DocumentRecord.createdAt := now1;
            DocumentRecord.lastReadAt := now2 |}
         (DB.documents db);
     DB.slices := DB.slices db;
     DB.progress := DB.progress db;
     DB.highlights := DB.highlights db |}.

Definition getDocument (id : String.string) (db : DB.t) : option DocumentRecord.t :=
  getRecord DocumentRecord.id id (DB.documents db).

Definition getAllDocuments (db : DB.t) : list DocumentRecord.t := DB.documents db.

Definition deleteSliceOf (db : DB.t) (slice : StoredSlice.t) : DB.t :=
  {| DB.documents := DB.documents db;
     DB.slices := deleteRecord StoredSlice.id (StoredSlice.id slice) (DB.slices db);
     DB.progress := DB.progress db;
     DB.highlights := DB.highlights db |}.

Definition deleteHighlight (id : String.string) (db : DB.t) : DB.t :=
  {| DB.documents := DB.documents db;
     DB.slices := DB.slices db;
     DB.progress := DB.progress db;
     DB.highlights := deleteRecord HighlightRecord.id id (DB.highlights db) |}.

Definition deleteDocument (id : String.string) (db : DB.t) : DB.t :=
  let db :=
    {| DB.documents := deleteRecord DocumentRecord.id id (DB.documents db);
       DB.slices := DB.slices db;
       DB.progress := DB.progress db;
       DB.highlights := DB.highlights db |} in
  let slices := getAllFromIndex StoredSlice.documentId id (DB.slices db) in
  let db := fold_left deleteSliceOf slices db in
  let db :=
    {| DB.documents := DB.documents db;
       DB.slices := DB.slices db;
       DB.progress := deleteRecord ProgressRecord.documentId id (DB.progress db);
       DB.highlights := DB.highlights db |} in
  let highlights := getAllFromIndex HighlightRecord.documentId id (DB.highlights db) in
  fold_left (fun db highlight => deleteHighlight (HighlightRecord.id highlight) db)
    highlights db.


Definition getSlicesForDocument (documentId : String.string) (db : DB.t)
  : list StoredSlice.t :=
  getAllFromIndex StoredSlice.documentId documentId (DB.slices db).


Definition saveProgress (now1 now2 : Z) (documentId : String.string)
    (currentSliceIndex totalSlices : nat) (db : DB.t) : DB.t :=
  let db :=
    {| DB.documents := DB.documents db;
       DB.slices := DB.slices db;
       DB.progress :=
         putRecord ProgressRecord.documentId
           {| ProgressRecord.documentId := documentId;
              ProgressRecord.currentSliceIndex := currentSliceIndex;
              ProgressRecord.totalSlices := totalSlices;
              ProgressRecord.lastUpdated := now1 |}
           (DB.progress db);
       DB.highlights := DB.highlights db |} in
  match getRecord DocumentRecord.id documentId (DB.documents db) with
  | Some doc =>
      {| DB.documents :=
           putRecord DocumentRecord.id
             {| DocumentRecord.id := DocumentRecord.id doc;
                DocumentRecord.name := DocumentRecord.name doc;
                DocumentRecord.data := DocumentRecord.data doc;
                DocumentRecord.pageCount := DocumentRecord.pageCount doc;
                DocumentRecord.createdAt := DocumentRecord.createdAt doc;
                DocumentRecord.lastReadAt := now2 |}
             (DB.documents db);
         DB.slices := DB.slices db;
         DB.progress := DB.progress db;
         DB.highlights := DB.highlights db |}
  | None => db
  end.

Definition getProgress (documentId : String.string) (db : DB.t)
  : option ProgressRecord.t :=
  getRecord ProgressRecord.documentId documentId (DB.progress db).

Definition saveHighlight (highlight : HighlightRecord.t) (db : DB.t) : DB.t :=
  {| DB.documents := DB.documents db;
     DB.slices := DB.slices db;
     DB.progress := DB.progress db;
     DB.highlights := putRecord HighlightRecord.id highlight (DB.highlights db) |}.

Definition getHighlightsForDocument (documentId : String.string) (db : DB.t)
  : list HighlightRecord.t :=
  getAllFromIndex HighlightRecord.documentId documentId (DB.highlights db).

Definition getAllHighlightsForDocument (documentId : String.string) (db : DB.t)
  : list HighlightRecord.t :=
  getAllFromIndex HighlightRecord.documentId documentId (DB.highlights db).

End Storage.



(** One record per key in every store. *)
Definition wellFormed (db : DB.t) : Prop :=
  NoDup (map DocumentRecord.id (DB.documents db))
  /\ NoDup (map StoredSlice.id (DB.slices db))
  /\ NoDup (map ProgressRecord.documentId (DB.progress db))
  /\ NoDup (map HighlightRecord.id (DB.highlights db)).


(** ** The document of the examples *)

(** A line of text across the cut of the page at row 100. *)
Definition demoItem : TextItem.t :=
  {| TextItem.str := "Title"%string;
     TextItem.x := 0;
     TextItem.y := 90;
     TextItem.width := 1;
     TextItem.height := 20;
     TextItem.fontHeight := 20;
     TextItem.transform := [1; 0; 0; 1; 0; 110] |}.

Definition demoText (n : nat) : PageTextContent.t :=
  {| PageTextContent.pageNumber := n;
     PageTextContent.items := [demoItem];
     PageTextContent.pageWidth := 1;
     PageTextContent.pageHeight := 200 |}.

Definition demoPage (n : nat) : PageRenderResult.t :=
  {| PageRenderResult.pageNumber := n;
     PageRenderResult.width := 1;
     PageRenderResult.height := 200;
     PageRenderResult.canvas := Canvas.mk 1 200 0;
     PageRenderResult.imageData := shortPage |}.

(** Two pages like [shortPage], sliced for a viewport of 150. *)
Definition demoPages : list PageRenderResult.t := [demoPage 1; demoPage 2].

Definition demoTexts : list PageTextContent.t := [demoText 1; demoText 2].

(** What a run of [processDocumentSlices] returned and what it did. *)
Definition returnedSlices (run : option (list SliceInfo.t * list Effect))
  : list SliceInfo.t :=
  match run with
  | Some (slices, _) => slices
  | None => []
  end.

Definition effectsOf (run : option (list SliceInfo.t * list Effect)) : list Effect :=
  match run with
  | Some (_, effects) => effects
  | None => []
  end.

Definition demoSlices : list SliceInfo.t :=
  returnedSlices (processDocumentSlices 0 "doc"%string demoPages demoTexts 150).

Definition demoEffects : list Effect :=
  effectsOf (processDocumentSlices 0 "doc"%string demoPages demoTexts 150).

(** A database that holds a slice, the progress and a highlight of each of
    two documents. *)
Definition demoDB : DB.t :=
  {| DB.documents :=
       [ DocumentRecord.mk "doc"%string "a.pdf"%string [] 2 10 10;
         DocumentRecord.mk "other"%string "b.pdf"%string [] 1 20 20 ];
     DB.slices :=
       [ StoredSlice.mk "doc-p1-s0"%string "doc"%string 1 0 (Canvas.mk 2 100 0) 0 100 0;
         StoredSlice.mk "other-p1-s0"%string "other"%string 1 0 (Canvas.mk 2 100 0) 0 100 0 ];
     DB.progress :=
       [ ProgressRecord.mk "doc"%string 0 1 11; ProgressRecord.mk "other"%string 0 1 21 ];
     DB.highlights :=
       [ HighlightRecord.mk "highlight-doc-12"%string "doc"%string 0 1 "first"%string
           (HighlightPosition.mk 0 0 10 10) 12;
         HighlightRecord.mk "highlight-other-22"%string "other"%string 0 1 "second"%string
           (HighlightPosition.mk 0 0 10 10) 22 ] |}.

(** Highlights of pages 2, 1 and 2, in the order in which they were made. *)
Definition demoHighlights : list HighlightData.t :=
  [ HighlightData.mk 2 3 "third"%string 30;
    HighlightData.mk 1 0 "first"%string 31;
    HighlightData.mk 2 4 "fourth"%string 32 ].

(** * Properties *)

(** ** Numbers and loops *)

Lemma Qlt_bool_iff (a b : Q) : Qlt_bool a b = true <-> a < b.
Proof.
  unfold Qlt_bool. rewrite negb_true_iff. split; intro H.
  - apply Qnot_le_lt. intro Hle. apply Qle_bool_iff in Hle. congruence.
  - destruct (Qle_bool b a) eqn:E; [|reflexivity].
    apply Qle_bool_iff in E. exfalso. exact (Qlt_not_le _ _ H E).
Qed.

Lemma Qlt_bool_false_iff (a b : Q) : Qlt_bool a b = false <-> b <= a.
Proof.
  unfold Qlt_bool. rewrite negb_false_iff. apply Qle_bool_iff.
Qed.

Lemma Qle_bool_false_iff (a b : Q) : Qle_bool a b = false <-> b < a.
Proof.
  rewrite <- Qlt_bool_iff. unfold Qlt_bool.
  destruct (Qle_bool a b); simpl; intuition congruence.
Qed.

Lemma for_loop_0 {St : Type} (body : St -> nat -> St) (init : St) :
  for_loop 0 body init = init.
Proof. reflexivity. Qed.

Lemma for_loop_S {St : Type} (n : nat) (body : St -> nat -> St) (init : St) :
  for_loop (S n) body init = body (for_loop n body init) n.
Proof.
  unfold for_loop. rewrite seq_S, fold_left_app. reflexivity.
Qed.

(** An invariant that the body keeps holds when the loop is over. *)
Lemma for_loop_invariant {St : Type} (Inv : nat -> St -> Prop)
    (body : St -> nat -> St) (init : St) (n : nat) :
  Inv 0%nat init ->
  (forall i st, (i < n)%nat -> Inv i st -> Inv (S i) (body st i)) ->
  Inv n (for_loop n body init).
Proof.
  intros H0 Hstep.
  assert (G : forall k, (k <= n)%nat -> Inv k (for_loop k body init)).
  { induction k as [|k IH]; intro Hk.
    - exact H0.
    - rewrite for_loop_S. apply Hstep; [lia | apply IH; lia]. }
  apply G. lia.
Qed.

(** ** Row classification *)

Lemma countWhitePx_le (imageData : ImageData) (y : nat) :
  (countWhitePx imageData y <= width imageData)%nat.
Proof.
  unfold countWhitePx.
  apply (for_loop_invariant (fun i (c : nat) => (c <= i)%nat)).
  - lia.
  - intros i c _ Hc. destruct (isWhitePx imageData y i); lia.
Qed.

Lemma countWhitePx_all (imageData : ImageData) (y : nat) :
  (forall x, (x < width imageData)%nat -> isWhitePx imageData y x = true) ->
  countWhitePx imageData y = width imageData.
Proof.
  intro Hall. unfold countWhitePx.
  apply (for_loop_invariant (fun i (c : nat) => c = i)).
  - reflexivity.
  - intros i c Hi Hc. rewrite (Hall i Hi). congruence.
Qed.

Lemma countWhitePx_none (imageData : ImageData) (y : nat) :
  (forall x, (x < width imageData)%nat -> isWhitePx imageData y x = false) ->
  countWhitePx imageData y = 0%nat.
Proof.
  intro Hnone. unfold countWhitePx.
  apply (for_loop_invariant (fun (i : nat) (c : nat) => c = 0%nat)).
  - reflexivity.
  - intros i c Hi Hc. rewrite (Hnone i Hi). exact Hc.
Qed.

Lemma detectWhitespaceRows_map (imageData : ImageData) (config : DetectionConfig) :
  detectWhitespaceRows imageData config
  = map (isWhitespaceRow imageData config) (seq 0 (height imageData)).
Proof.
  unfold detectWhitespaceRows.
  apply (for_loop_invariant
           (fun i rows => rows = map (isWhitespaceRow imageData config) (seq 0 i))).
  - reflexivity.
  - intros i rows _ ->. rewrite seq_S, map_app. reflexivity.
Qed.

Lemma detectWhitespaceRows_length (imageData : ImageData) (config : DetectionConfig) :
  length (detectWhitespaceRows imageData config) = height imageData.
Proof.
  rewrite detectWhitespaceRows_map, length_map, length_seq. reflexivity.
Qed.

Lemma detectWhitespaceRows_nth (imageData : ImageData) (config : DetectionConfig)
    (y : nat) :
  (y < height imageData)%nat ->
  nth y (detectWhitespaceRows imageData config) false
  = isWhitespaceRow imageData config y.
Proof.
  intro Hy. rewrite detectWhitespaceRows_map.
  rewrite (nth_indep _ false (isWhitespaceRow imageData config 0%nat))
    by (rewrite length_map, length_seq; exact Hy).
  rewrite map_nth, seq_nth by exact Hy. reflexivity.
Qed.

(** A row none of whose pixels is white has ratio 0 (or [NaN]): whether it
    counts as whitespace depends on the threshold alone. *)
Lemma isWhitespaceRow_no_white (imageData : ImageData) (config : DetectionConfig)
    (y : nat) :
  (forall x, (x < width imageData)%nat -> isWhitePx imageData y x = false) ->
  isWhitespaceRow imageData config y
  = match width imageData with
    | O => false
    | _ => Qle_bool (whitespaceThreshold config) 0
    end.
Proof.
  intro Hnone. unfold isWhitespaceRow, analyzeRow.
  rewrite (countWhitePx_none _ _ Hnone).
  destruct (width imageData) as [|w]; [reflexivity|].
  destruct (Qle_bool (whitespaceThreshold config) 0) eqn:E.
  - apply Qle_bool_iff. apply Qle_bool_iff in E.
    unfold Qdiv. simpl inject_Z at 1. rewrite Qmult_0_l. exact E.
  - apply Qle_bool_false_iff. apply Qle_bool_false_iff in E.
    unfold Qdiv. simpl inject_Z at 1. rewrite Qmult_0_l. exact E.
Qed.

(** A row all of whose pixels are white has ratio 1. *)
Lemma isWhitespaceRow_all_white (imageData : ImageData) (config : DetectionConfig)
    (y : nat) :
  (forall x, (x < width imageData)%nat -> isWhitePx imageData y x = true) ->
  isWhitespaceRow imageData config y
  = match width imageData with
    | O => false
    | _ => Qle_bool (whitespaceThreshold config) 1
    end.
Proof.
  intro Hall. unfold isWhitespaceRow, analyzeRow.
  rewrite (countWhitePx_all _ _ Hall).
  destruct (width imageData) as [|w] eqn:Ew; [reflexivity|].
  assert (Hone : inject_Z (Z.of_nat (S w)) / inject_Z (Z.of_nat (S w)) == 1).
  { apply Qmult_inv_r. unfold Qeq. simpl. lia. }
  destruct (Qle_bool (whitespaceThreshold config) 1) eqn:E.
  - apply Qle_bool_iff. apply Qle_bool_iff in E. rewrite Hone. exact E.
  - apply Qle_bool_false_iff. apply Qle_bool_false_iff in E. rewrite Hone. exact E.
Qed.

(** ** Runs of whitespace rows and the gaps of [findGaps] *)

Section Runs.

Variable whitespaceRows : list bool.

(** Two maximal runs are the same run or have a row between them. *)
Lemma maximalRun_apart (s e s' e' : nat) :
  maximalRun whitespaceRows s e -> maximalRun whitespaceRows s' e' ->
  (s = s' /\ e = e') \/ (e < s')%nat \/ (e' < s)%nat.
Proof.
  intros (Hr & Hw & Hs & He) (Hr' & Hw' & Hs' & He').
  destruct (Nat.lt_trichotomy e s') as [?|[?|Hes']]; [lia| |].
  { subst s'. destruct Hs' as [?|Hs']; [lia|].
    rewrite (Hw (e - 1)%nat) in Hs' by lia. discriminate. }
  destruct (Nat.lt_trichotomy e' s) as [?|[?|Hes]]; [lia| |].
  { subst s. destruct Hs as [?|Hs]; [lia|].
    rewrite (Hw' (e' - 1)%nat) in Hs by lia. discriminate. }
  left.
  assert (s = s').
  { destruct (Nat.lt_trichotomy s s') as [Hlt|[?|Hlt]]; [|assumption|].
    - destruct Hs' as [?|Hs']; [lia|].
      rewrite (Hw (s' - 1)%nat) in Hs' by lia. discriminate.
    - destruct Hs as [?|Hs]; [lia|].
      rewrite (Hw' (s - 1)%nat) in Hs by lia. discriminate. }
  subst s'. split; [reflexivity|].
  destruct (Nat.lt_trichotomy e e') as [Hlt|[?|Hlt]]; [|assumption|].
  - rewrite (Hw' e) in He by lia. discriminate.
  - rewrite (Hw e') in He' by lia. discriminate.
Qed.

Variable pageHeight : Z.
Variable config : DetectionConfig.

Lemma scanInv_init : scanInv whitespaceRows pageHeight config 0 (None, []).
Proof.
  split; simpl; [left; reflexivity|].
  intro g. split; [intros []|]. intros (s & e & Hlt & _). lia.
Qed.

Lemma scanInv_step (n : nat) (st : ScanState) :
  (scanInv whitespaceRows pageHeight config) n st -> (scanInv whitespaceRows pageHeight config) (S n) (scanRow whitespaceRows pageHeight config st n).
Proof.
  destruct st as [gapStart gaps]. intros [Hgs Hgaps]. simpl in Hgs, Hgaps.
  unfold scanRow.
  destruct (nth n whitespaceRows false) eqn:Hn.
  - (* a whitespace row: no run ends here *)
    assert (Hsame : forall g, In g gaps <->
              exists s e, (s < e < S n)%nat /\ whiteOn whitespaceRows s e /\ startsRun whitespaceRows s
                          /\ nth e whitespaceRows false = false
                          /\ In g (closeGap pageHeight config s e)).
    { intro g. rewrite Hgaps. split; intros (s & e & Hlt & Hw & Hs & He & Hin).
      - exists s, e. repeat split; try assumption; lia.
      - exists s, e. repeat split; try assumption; try lia.
        assert (e <> n) by (intro; subst e; congruence). lia. }
    destruct gapStart as [s0|]; (split; [simpl|exact Hsame]).
    + destruct Hgs as (Hlt & Hw & Hs). repeat split; [lia| |exact Hs].
      intros i Hi. destruct (Nat.eq_dec i n) as [->|]; [exact Hn|apply Hw; lia].
    + repeat split; [lia| |].
      * intros i Hi. replace i with n by lia. exact Hn.
      * exact Hgs.
  - (* a non-whitespace row: it ends the run that is open, if any *)
    destruct gapStart as [s0|]; (split; [cbn [fst]; right; replace (S n - 1)%nat with n by lia; exact Hn|]).
    + destruct Hgs as (Hlt & Hw & Hs). intro g. simpl. rewrite in_app_iff, Hgaps.
      split.
      * intros [(s & e & Hr & Hw' & Hs' & He & Hin)|Hin].
        -- exists s, e. repeat split; try assumption; lia.
        -- exists s0, n. repeat split; try assumption; lia.
      * intros (s & e & Hr & Hw' & Hs' & He & Hin).
        destruct (Nat.eq_dec e n) as [->|Hne].
        -- right. assert (s = s0); [|subst; exact Hin].
           destruct (Nat.lt_trichotomy s s0) as [Hlt'|[?|Hlt']]; [|assumption|].
           ++ destruct Hs as [?|Hs]; [lia|].
              rewrite (Hw' (s0 - 1)%nat) in Hs by lia. discriminate.
           ++ destruct Hs' as [?|Hs']; [lia|].
              rewrite (Hw (s - 1)%nat) in Hs' by lia. discriminate.
        -- left. exists s, e. repeat split; try assumption; lia.
    + intro g. simpl. rewrite Hgaps.
      split; intros (s & e & Hr & Hw' & Hs' & He & Hin).
      * exists s, e. repeat split; try assumption; lia.
      * exists s, e. repeat split; try assumption; try lia.
        assert (e <> n); [|lia]. intro; subst e.
        destruct Hgs as [?|Hprev]; [lia|].
        rewrite (Hw' (n - 1)%nat) in Hprev by lia. discriminate.
Qed.

(** The gaps of [findGaps] are what [closeGap] lets through of the runs that
    a non-whitespace row ends, and nothing else. *)
Lemma findGaps_spec (g : WhitespaceGap) :
  In g (findGaps whitespaceRows pageHeight config) <->
  exists s e, terminatedRun whitespaceRows s e /\ In g (closeGap pageHeight config s e).
Proof.
  unfold findGaps.
  assert (Hinv : (scanInv whitespaceRows pageHeight config) (length whitespaceRows)
            (for_loop (length whitespaceRows)
               (scanRow whitespaceRows pageHeight config) (None, []))).
  { apply (for_loop_invariant (scanInv whitespaceRows pageHeight config)).
    - exact scanInv_init.
    - intros i st _. apply scanInv_step. }
  destruct Hinv as [_ Hgaps]. rewrite Hgaps.
  split; intros (s & e & H).
  - destruct H as (Hr & Hw & Hs & He & Hin). exists s, e.
    repeat split; try assumption; lia.
  - destruct H as ([(Hr & Hw & Hs & He) Hlt] & Hin). exists s, e.
    repeat split; try assumption; lia.
Qed.

End Runs.

(** ** What [closeGap] lets through *)

Lemma closeGap_In (pageHeight : Z) (config : DetectionConfig) (s e : nat)
    (g : WhitespaceGap) :
  In g (closeGap pageHeight config s e) ->
  startY g = Z.of_nat s /\ endY g = Z.of_nat e
  /\ gapHeight g = (Z.of_nat e - Z.of_nat s)%Z
  /\ centerY g = runCenter s e
  /\ score g = Qmin (inject_Z (Z.of_nat e - Z.of_nat s) / 50) 1
               * (1 - Qabs (runCenter s e / inject_Z pageHeight - (1 # 2))
                      * centerBias config)
  /\ minGapHeight config <= inject_Z (Z.of_nat e - Z.of_nat s)
  /\ edgeMargin config < runCenter s e
  /\ runCenter s e < inject_Z pageHeight - edgeMargin config.
Proof.
  unfold closeGap. fold (runCenter s e).
  destruct (Qle_bool (minGapHeight config) _) eqn:Hmin; [|intros []].
  destruct (Qlt_bool (edgeMargin config) _) eqn:Hlo; [|intros []].
  destruct (Qlt_bool (runCenter s e) _) eqn:Hhi; [|intros []].
  simpl. intros [<-|[]]. simpl.
  apply Qle_bool_iff in Hmin. apply Qlt_bool_iff in Hlo, Hhi.
  repeat split; assumption.
Qed.


(** Every gap of [findGaps] is a run that a non-whitespace row ends. *)
Lemma findGaps_In_run (rows : list bool) (pageHeight : Z)
    (config : DetectionConfig) (g : WhitespaceGap) :
  In g (findGaps rows pageHeight config) ->
  exists s e, terminatedRun rows s e
              /\ startY g = Z.of_nat s /\ endY g = Z.of_nat e
              /\ In g (closeGap pageHeight config s e).
Proof.
  intro Hin. apply findGaps_spec in Hin. destruct Hin as (s & e & Hrun & Hin).
  exists s, e. destruct (closeGap_In _ _ _ _ _ Hin) as (Hs & He & _).
  split; [exact Hrun|]. repeat split; assumption.
Qed.

(** A maximal run that [closeGap] rejects shares no row, and no boundary,
    with any gap. *)
Lemma rejected_run_apart (rows : list bool) (pageHeight : Z)
    (config : DetectionConfig) (s e : nat) :
  maximalRun rows s e ->
  closeGap pageHeight config s e = [] ->
  forall g, In g (findGaps rows pageHeight config) ->
            (endY g < Z.of_nat s)%Z \/ (Z.of_nat e < startY g)%Z.
Proof.
  intros Hrun Hrej g Hin.
  destruct (findGaps_In_run _ _ _ _ Hin) as (s' & e' & [Hrun' _] & Hs & He & Hin').
  destruct (maximalRun_apart _ _ _ _ _ Hrun Hrun') as [[-> ->]|[Hlt|Hlt]].
  - rewrite Hrej in Hin'. destruct Hin'.
  - right. lia.
  - left. lia.
Qed.

(** A run that reaches the end of the page is never closed. *)
Lemma unterminated_run_apart (rows : list bool) (pageHeight : Z)
    (config : DetectionConfig) (s : nat) :
  maximalRun rows s (length rows) ->
  forall g, In g (findGaps rows pageHeight config) -> (endY g < Z.of_nat s)%Z.
Proof.
  intros Hrun g Hin.
  destruct (findGaps_In_run _ _ _ _ Hin) as (s' & e' & [Hrun' Hlt] & Hs & He & _).
  destruct (maximalRun_apart _ _ _ _ _ Hrun Hrun') as [[-> <-]|[Hlt'|Hlt']]; try lia.
  destruct Hrun' as (? & _). lia.
Qed.

(** Rows that are all classified alike hold no gap: a gap needs a
    whitespace row and, after it, a row that is not. *)
Lemma findGaps_uniform (rows : list bool) (pageHeight : Z)
    (config : DetectionConfig) (b : bool) :
  (forall i, (i < length rows)%nat -> nth i rows false = b) ->
  findGaps rows pageHeight config = [].
Proof.
  intro Hall.
  destruct (findGaps rows pageHeight config) as [|g l] eqn:E; [reflexivity|].
  assert (Hin : In g (findGaps rows pageHeight config)) by (rewrite E; left; reflexivity).
  destruct (findGaps_In_run _ _ _ _ Hin) as (s & e & [(Hr & Hw & _ & He) Hlt] & _).
  pose proof (Hall e Hlt) as Hb. pose proof (Hall s ltac:(lia)) as Hb'.
  rewrite (Hw s) in Hb' by lia. congruence.
Qed.

Lemma maximalRunb_sound (rows : list bool) (s e : nat) :
  maximalRunb rows s e = true -> maximalRun rows s e.
Proof.
  unfold maximalRunb, whiteOnb. rewrite !andb_true_iff, orb_true_iff.
  rewrite !negb_true_iff, forallb_forall.
  intros ((((Hse & Hel) & Hw) & Hs) & He).
  apply Nat.ltb_lt in Hse. apply Nat.leb_le in Hel.
  repeat split; try assumption.
  - intros i Hi. apply Hw. apply in_seq. lia.
  - destruct Hs as [Hs|Hs]; [left; apply Nat.eqb_eq; exact Hs|right; exact Hs].
Qed.


Lemma closeGap_in_margin (pageHeight : Z) (config : DetectionConfig) (s e : nat) :
  runCenter s e <= edgeMargin config ->
  closeGap pageHeight config s e = [].
Proof.
  intro Hle. unfold closeGap. fold (runCenter s e).
  apply Qlt_bool_false_iff in Hle. rewrite Hle.
  destruct (Qle_bool _ _); reflexivity.
Qed.

(** ** Gap filtering *)



(** ** Edge margin exclusion *)

(** C9.  With [edgeMargin = 50], no gap of the detector has its centre at
    [y = 10], and a maximal whitespace run centred there shares no row with
    any gap, whatever its height. *)
Theorem edge_margin_exclusion (rows : list bool) (pageHeight : Z)
    (config : DetectionConfig) :
  edgeMargin config == 50 ->
  (forall g, In g (findGaps rows pageHeight config) -> ~ centerY g == 10)
  /\ (forall s e, maximalRun rows s e -> runCenter s e == 10 ->
        forall g, In g (findGaps rows pageHeight config) ->
                  (endY g < Z.of_nat s)%Z \/ (Z.of_nat e < startY g)%Z).
Proof.
  intro Hmargin. split.
  - intros g Hin Hc.
    destruct (findGaps_In_run _ _ _ _ Hin) as (s & e & _ & _ & _ & Hin').
    destruct (closeGap_In _ _ _ _ _ Hin') as (_ & _ & _ & Hcg & _ & _ & Hlo & _).
    rewrite <- Hcg, Hc, Hmargin in Hlo. discriminate.
  - intros s e Hrun Hc. apply (rejected_run_apart _ _ _ _ _ Hrun).
    apply closeGap_in_margin. rewrite Hc, Hmargin. discriminate.
Qed.

Lemma edge_margin_exclusion_witness :
  (forall g, In g (findGaps topRun 200 DEFAULT_CONFIG) -> ~ centerY g == 10)
  /\ (forall g, In g (findGaps topRun 200 DEFAULT_CONFIG) ->
                (endY g < 0)%Z \/ (20 < startY g)%Z).
Proof.
  destruct (edge_margin_exclusion topRun 200 DEFAULT_CONFIG) as [Hc Hrun].
  - reflexivity.
  - split; [exact Hc|].
    apply (Hrun 0%nat 20%nat).
    + apply maximalRunb_sound. vm_compute. reflexivity.
    + reflexivity.
Defined.

(** ** Pages without gaps *)

(** [findCutPoints] on a page whose gap list is empty is [generateEvenCuts]. *)
Lemma findCutPoints_no_gaps (fuel : nat) (imageData : ImageData)
    (targetSliceHeight : Q) (config : PartialConfig) :
  detectGaps imageData (mergeConfig config) = [] ->
  findCutPoints fuel imageData targetSliceHeight config
  = generateEvenCuts fuel (Z.of_nat (height imageData)) targetSliceHeight.
Proof.
  unfold detectGaps, findCutPoints. intros ->. reflexivity.
Qed.

(** [findCutPoints] on a page with gaps is the selection among them. *)
Lemma findCutPoints_gaps (fuel : nat) (imageData : ImageData)
    (targetSliceHeight : Q) (config : PartialConfig) :
  detectGaps imageData (mergeConfig config) <> [] ->
  findCutPoints fuel imageData targetSliceHeight config
  = Some (selectFromGaps (Z.of_nat (height imageData)) targetSliceHeight
            (detectGaps imageData (mergeConfig config))).
Proof.
  unfold detectGaps, findCutPoints. intro Hne.
  destruct (findGaps _ _ _); [congruence|reflexivity].
Qed.

(** Rows classified alike give no gap. *)
Lemma detectGaps_uniform (imageData : ImageData) (config : DetectionConfig)
    (b : bool) :
  (forall y, (y < height imageData)%nat -> isWhitespaceRow imageData config y = b) ->
  detectGaps imageData config = [].
Proof.
  intro Hall. unfold detectGaps. apply findGaps_uniform with (b := b).
  intros i Hi. rewrite detectWhitespaceRows_length in Hi.
  rewrite detectWhitespaceRows_nth by exact Hi. apply Hall. exact Hi.
Qed.


(** So has a page all of whose pixels are white. *)
Lemma detectGaps_all_white (imageData : ImageData) (config : DetectionConfig) :
  (forall y x, (y < height imageData)%nat -> (x < width imageData)%nat ->
               isWhitePx imageData y x = true) ->
  detectGaps imageData config = [].
Proof.
  intro Hall. eapply detectGaps_uniform. intros y Hy.
  apply isWhitespaceRow_all_white. intros x Hx. apply Hall; assumption.
Qed.

(** C10.  A maximal run of whitespace rows that reaches the last row of the
    page lies wholly below every gap of the detector: the scan closes a run
    only on a non-whitespace row.  Hence a page whose rows are all
    whitespace, and a page whose pixels are all white under any
    configuration, have an empty gap list, and [findCutPoints] is then
    [generateEvenCuts]. *)
Theorem trailing_run_yields_no_gap :
  (forall (rows : list bool) (pageHeight : Z) (config : DetectionConfig) (s : nat),
     maximalRun rows s (length rows) ->
     forall g, In g (findGaps rows pageHeight config) -> (endY g < Z.of_nat s)%Z)
  /\ (forall (imageData : ImageData) (config : PartialConfig)
             (targetSliceHeight : Q) (fuel : nat),
        (forall y, (y < height imageData)%nat ->
                   isWhitespaceRow imageData (mergeConfig config) y = true) ->
        detectGaps imageData (mergeConfig config) = []
        /\ findCutPoints fuel imageData targetSliceHeight config
           = generateEvenCuts fuel (Z.of_nat (height imageData)) targetSliceHeight)
  /\ (forall (imageData : ImageData) (config : PartialConfig)
             (targetSliceHeight : Q) (fuel : nat),
        (forall y x, (y < height imageData)%nat -> (x < width imageData)%nat ->
                     isWhitePx imageData y x = true) ->
        detectGaps imageData (mergeConfig config) = []
        /\ findCutPoints fuel imageData targetSliceHeight config
           = generateEvenCuts fuel (Z.of_nat (height imageData)) targetSliceHeight).
Proof.
  split; [|split].
  - intros rows pageHeight config s. apply unterminated_run_apart.
  - intros imageData config T fuel Hall.
    assert (Hnil : detectGaps imageData (mergeConfig config) = [])
      by (apply detectGaps_uniform with (b := true); exact Hall).
    split; [exact Hnil|]. apply findCutPoints_no_gaps. exact Hnil.
  - intros imageData config T fuel Hall.
    assert (Hnil : detectGaps imageData (mergeConfig config) = [])
      by (apply detectGaps_all_white; exact Hall).
    split; [exact Hnil|]. apply findCutPoints_no_gaps. exact Hnil.
Qed.

Lemma whitePage_white (y x : nat) :
  (y < height whitePage)%nat -> (x < width whitePage)%nat ->
  isWhitePx whitePage y x = true.
Proof.
  simpl. intros Hy Hx.
  do 6 (destruct y as [|y]; [do 2 (destruct x as [|x]; [reflexivity|]); lia|]).
  lia.
Qed.

Lemma trailing_run_yields_no_gap_witness :
  (forall g, In g (findGaps trailingRun 100 DEFAULT_CONFIG) -> (endY g < 60)%Z)
  /\ (detectGaps whitePage (mergeConfig noOverrides) = []
      /\ findCutPoints 5 whitePage 2 noOverrides = generateEvenCuts 5 6 2)
  /\ (detectGaps whitePage (mergeConfig noOverrides) = []
      /\ findCutPoints 5 whitePage 2 noOverrides = generateEvenCuts 5 6 2).
Proof.
  destruct trailing_run_yields_no_gap as (Hrun & Hrows & Hpixels).
  split; [|split].
  - apply (Hrun trailingRun 100%Z DEFAULT_CONFIG 60%nat).
    apply maximalRunb_sound. vm_compute. reflexivity.
  - apply (Hrows whitePage noOverrides 2 5%nat).
    intros y Hy. simpl in Hy.
    do 6 (destruct y as [|y]; [vm_compute; reflexivity|]). lia.
  - apply (Hpixels whitePage noOverrides 2 5%nat). exact whitePage_white.
Defined.

(** ** The range of the score *)

Lemma score_range_arith (h c H b : Q) :
  1 <= h -> 0 < c -> c < H -> 0 <= b -> b <= 2 ->
  0 < Qmin (h / 50) 1 * (1 - Qabs (c / H - (1 # 2)) * b)
  /\ Qmin (h / 50) 1 * (1 - Qabs (c / H - (1 # 2)) * b) <= 1.
Proof.
  intros Hh Hc HcH Hb0 Hb2.
  assert (HH : 0 < H) by lra.
  assert (Hn0 : 0 < c / H) by (apply Qlt_shift_div_l; lra).
  assert (Hn1 : c / H < 1) by (apply Qlt_shift_div_r; lra).
  set (n := c / H) in *.
  assert (Ha : Qabs (n - (1 # 2)) < 1 # 2) by (apply Qabs_Qlt_condition; split; lra).
  assert (Ha0 : 0 <= Qabs (n - (1 # 2))) by apply Qabs_nonneg.
  set (a := Qabs (n - (1 # 2))) in *.
  assert (Hs : 0 < Qmin (h / 50) 1 /\ Qmin (h / 50) 1 <= 1).
  { split; [|apply Q.le_min_r].
    apply Q.min_glb_lt; [|reflexivity]. apply Qlt_shift_div_l; lra. }
  set (ss := Qmin (h / 50) 1) in *.
  destruct Hs as [Hs0 Hs1].
  assert (Hab : a * b < 1) by nra.
  assert (Hab0 : 0 <= a * b) by nra.
  set (p := a * b) in *.
  split; nra.
Qed.

(** The centre of a run that a non-whitespace row ends lies strictly inside
    the page, at least half a row from the top. *)
Lemma runCenter_inside (rows : list bool) (s e : nat) :
  terminatedRun rows s e ->
  1 <= inject_Z (Z.of_nat e - Z.of_nat s)
  /\ 1 # 2 <= runCenter s e
  /\ runCenter s e <= inject_Z (Z.of_nat (length rows)) - (3 # 2).
Proof.
  intros [(Hr & _) Hlt]. unfold runCenter.
  assert (H1 : (Z.of_nat s + 1 <= Z.of_nat e)%Z) by lia.
  assert (H2 : (0 <= Z.of_nat s)%Z) by lia.
  assert (H3 : (Z.of_nat e + 1 <= Z.of_nat (length rows))%Z) by lia.
  rewrite Zle_Qle in H1, H2, H3. rewrite inject_Z_plus in H1, H3.
  unfold Z.sub. rewrite inject_Z_plus, inject_Z_opp.
  change (inject_Z 1) with 1 in *. change (inject_Z 0) with 0 in *.
  set (qs := inject_Z (Z.of_nat s)) in *. set (qe := inject_Z (Z.of_nat e)) in *.
  set (ql := inject_Z (Z.of_nat (length rows))) in *.
  assert (Hhalf : (qe + - qs) / 2 == (qe + - qs) * (1 # 2)) by reflexivity.
  rewrite Hhalf. repeat split; lra.
Qed.

(** C7, as amended.  When [centerBias] lies in [0, 2], every gap of the
    detector has its score in (0, 1], for every pixel buffer and whatever
    the other fields of the configuration are. *)
Theorem gap_score_range (imageData : ImageData) (config : DetectionConfig) :
  0 <= centerBias config -> centerBias config <= 2 ->
  forall g, In g (detectGaps imageData config) -> 0 < score g /\ score g <= 1.
Proof.
  intros Hb0 Hb2 g Hin. unfold detectGaps in Hin.
  destruct (findGaps_In_run _ _ _ _ Hin) as (s & e & Hrun & _ & _ & Hin').
  destruct (closeGap_In _ _ _ _ _ Hin') as (_ & _ & _ & _ & Hscore & _).
  destruct (runCenter_inside _ _ _ Hrun) as (Hh & Hc0 & Hc1).
  rewrite detectWhitespaceRows_length in Hc1.
  rewrite Hscore. apply score_range_arith; try assumption; lra.
Qed.

Lemma gap_score_range_witness :
  Forall (fun g => 0 < score g /\ score g <= 1)
         (detectGaps (paint 1 twoRuns) DEFAULT_CONFIG).
Proof.
  apply Forall_forall.
  apply (gap_score_range (paint 1 twoRuns) DEFAULT_CONFIG).
  - vm_compute. discriminate.
  - vm_compute. discriminate.
Defined.

(** C7 fails as stated: under [strongBias], the gap at the top of the page
    [topRun] has score [-7/5]. *)
Lemma gap_score_counterexample :
  (0 <= whitespaceThreshold strongBias /\ whitespaceThreshold strongBias <= 1
   /\ 0 <= minGapHeight strongBias /\ 0 <= edgeMargin strongBias
   /\ 0 <= centerBias strongBias)
  /\ exists g, In g (detectGaps (paint 1 topRun) strongBias)
               /\ score g == - (7 # 5)
               /\ ~ (0 < score g /\ score g <= 1).
Proof.
  split.
  - repeat split; vm_compute; discriminate.
  - eexists. split; [vm_compute; left; reflexivity|].
    split; [reflexivity|]. intros [H _]. vm_compute in H. discriminate.
Qed.

(** ** The selection loop *)

(** With a positive target, the distance test of the second arm implies
    that of the first. *)
Lemma branchOf_not_Secondary (targetSliceHeight lastCut : Q) (gap : WhitespaceGap) :
  0 < targetSliceHeight ->
  branchOf targetSliceHeight lastCut gap <> Secondary.
Proof.
  intro HT. unfold branchOf.
  destruct (Qle_bool (targetSliceHeight * (1 # 2)) _) eqn:E1; [discriminate|].
  destruct (Qle_bool (targetSliceHeight * 1) _) eqn:E2; [|discriminate].
  exfalso. apply Qle_bool_false_iff in E1. apply Qle_bool_iff in E2. lra.
Qed.

(** C4.  For every positive [targetSliceHeight] the second arm of the
    selection loop ([distance >= 1.0 * T && score > 0.2]) is dead: a gap
    that meets its distance test has already been taken by the first arm
    ([distance >= 0.5 * T]), and no run of the loop, from any [lastCut] and
    over any list of gaps, ever takes it. *)
Theorem secondary_branch_unreachable (targetSliceHeight : Q) :
  0 < targetSliceHeight ->
  (forall lastCut gap,
     targetSliceHeight * 1 <= centerY gap - lastCut ->
     branchOf targetSliceHeight lastCut gap = Primary)
  /\ (forall gaps lastCut,
        ~ In Secondary (branchTrace targetSliceHeight lastCut gaps)).
Proof.
  intro HT. split.
  - intros lastCut gap Hd. unfold branchOf.
    assert (H : Qle_bool (targetSliceHeight * (1 # 2)) (centerY gap - lastCut) = true)
      by (apply Qle_bool_iff; lra).
    rewrite H. reflexivity.
  - induction gaps as [|gap rest IH]; intros lastCut; simpl.
    + intros [].
    + intros [Hb|Hin].
      * exact (branchOf_not_Secondary _ _ gap HT Hb).
      * exact (IH _ Hin).
Qed.

(** The cuts the loop has pushed are the rounded centres of the gaps that
    did not take the [Skip] arm. *)
Lemma fold_selectStep_trace (targetSliceHeight : Q) (gaps : list WhitespaceGap) :
  forall cutPoints lastCut,
    length (fst (fold_left (selectStep targetSliceHeight) gaps (cutPoints, lastCut)))
    = (length cutPoints
       + length (filter (fun b => match b with Skip => false | _ => true end)
                   (branchTrace targetSliceHeight lastCut gaps)))%nat.
Proof.
  induction gaps as [|gap rest IH]; intros cutPoints lastCut; simpl.
  - lia.
  - unfold selectStep.
    destruct (branchOf targetSliceHeight lastCut gap); simpl;
      rewrite IH; rewrite ?length_app; simpl; lia.
Qed.

Lemma secondary_branch_unreachable_witness :
  branchOf 100 0 (mkGap 120 140 20 130 (2 # 5)) = Primary
  /\ ~ In Secondary (branchTrace 100 0 (findGaps twoRuns 200 DEFAULT_CONFIG)).
Proof.
  destruct (secondary_branch_unreachable 100) as [Hfirst Hnever].
  - reflexivity.
  - split.
    + apply Hfirst. vm_compute. discriminate.
    + apply Hnever.
Defined.

(** ** The even-spacing fallback *)

Lemma Math_round_comp (x y : Q) : x == y -> Math_round x = Math_round y.
Proof.
  intro H. unfold Math_round. apply Qfloor_comp. rewrite H. reflexivity.
Qed.

(** [Math.round] leaves an integer alone. *)
Lemma Math_round_inject_Z (z : Z) : Math_round (inject_Z z) = z.
Proof.
  unfold Math_round.
  assert (Hlo : (z <= Qfloor (inject_Z z + (1 # 2)))%Z).
  { rewrite <- (Qfloor_Z z) at 1. apply Qfloor_resp_le.
    rewrite <- (Qplus_0_r (inject_Z z)) at 1. apply Qplus_le_r. discriminate. }
  assert (Hhi : (Qfloor (inject_Z z + (1 # 2)) < z + 1)%Z).
  { rewrite Zlt_Qlt. apply Qle_lt_trans with (inject_Z z + (1 # 2)).
    - apply Qfloor_le.
    - rewrite inject_Z_plus. apply Qplus_lt_r. reflexivity. }
  lia.
Qed.

(** The loop, entered at position [j] with the next [k] positions inside
    the bound and the one after them outside, pushes those [k] positions,
    rounded, and exits; [k + 1] tests are all it takes. *)
Lemma evenCutsLoop_run (height : Z) (targetHeight : Q) (k : nat) :
  forall fuel cuts current j,
    current == evenPosition targetHeight j ->
    (forall i, (j <= i < j + k)%nat ->
       evenPosition targetHeight i < inject_Z height - targetHeight * (3 # 10)) ->
    inject_Z height - targetHeight * (3 # 10) <= evenPosition targetHeight (j + k) ->
    (k < fuel)%nat ->
    evenCutsLoop fuel height targetHeight cuts current
    = Some (cuts ++ map (fun i => Math_round (evenPosition targetHeight i)) (seq j k)).
Proof.
  induction k as [|k IH]; intros fuel cuts current j Hcur Hin Hout Hfuel;
    (destruct fuel as [|fuel]; [lia|]); simpl.
  - rewrite Nat.add_0_r in Hout.
    assert (E : Qlt_bool current (inject_Z height - targetHeight * (3 # 10)) = false)
      by (apply Qlt_bool_false_iff; rewrite Hcur; exact Hout).
    rewrite E, app_nil_r. reflexivity.
  - assert (E : Qlt_bool current (inject_Z height - targetHeight * (3 # 10)) = true)
      by (apply Qlt_bool_iff; rewrite Hcur; apply Hin; lia).
    rewrite E. rewrite (IH fuel _ _ (S j)).
    + rewrite <- app_assoc. simpl. rewrite (Math_round_comp _ _ Hcur). reflexivity.
    + rewrite Hcur. unfold evenPosition. rewrite Nat2Z.inj_succ.
      unfold Z.succ. rewrite inject_Z_plus. change (inject_Z 1) with 1. ring.
    + intros i Hi. apply Hin. lia.
    + replace (S j + k)%nat with (j + S k)%nat by lia. exact Hout.
    + lia.
Qed.

(** With a non-positive target the position never grows: once inside the
    bound the loop stays there, and no amount of fuel lets it exit. *)
Lemma evenCutsLoop_diverges (height : Z) (targetHeight : Q) :
  targetHeight <= 0 ->
  forall fuel cuts current,
    current < inject_Z height - targetHeight * (3 # 10) ->
    evenCutsLoop fuel height targetHeight cuts current = None.
Proof.
  intros HT. induction fuel as [|fuel IH]; intros cuts current Hcur; simpl.
  - reflexivity.
  - apply Qlt_bool_iff in Hcur as E. rewrite E. apply IH. lra.
Qed.

Lemma evenCutCount_inside (height : Z) (targetHeight : Q) (j : nat) :
  0 < targetHeight ->
  (1 <= j <= evenCutCount height targetHeight)%nat ->
  evenPosition targetHeight j < inject_Z height - targetHeight * (3 # 10).
Proof.
  intros HT [Hj1 Hjk]. unfold evenCutCount in Hjk. unfold evenPosition.
  set (B := inject_Z height - targetHeight * (3 # 10)) in *.
  assert (Hz : (Z.of_nat j <= Qceiling (B / targetHeight) - 1)%Z) by lia.
  rewrite Zle_Qle in Hz.
  pose proof (Qceiling_lt (B / targetHeight)) as Hc.
  assert (Hlt : inject_Z (Z.of_nat j) < B / targetHeight)
    by (eapply Qle_lt_trans; eassumption).
  apply (Qmult_lt_r _ _ targetHeight HT) in Hlt.
  assert (Hq : B / targetHeight * targetHeight == B) by (field; lra).
  rewrite Hq in Hlt. exact Hlt.
Qed.

Lemma evenCutCount_outside (height : Z) (targetHeight : Q) :
  0 < targetHeight ->
  inject_Z height - targetHeight * (3 # 10)
  <= evenPosition targetHeight (evenCutCount height targetHeight + 1).
Proof.
  intros HT. unfold evenCutCount, evenPosition.
  set (B := inject_Z height - targetHeight * (3 # 10)) in *.
  assert (Hz : (Qceiling (B / targetHeight)
                <= Z.of_nat (Z.to_nat (Qceiling (B / targetHeight) - 1) + 1))%Z) by lia.
  rewrite Zle_Qle in Hz.
  pose proof (Qle_ceiling (B / targetHeight)) as Hc.
  assert (Hle : B / targetHeight
                <= inject_Z (Z.of_nat (Z.to_nat (Qceiling (B / targetHeight) - 1) + 1)))
    by (eapply Qle_trans; eassumption).
  apply (Qmult_le_r _ _ targetHeight HT) in Hle.
  assert (Hq : B / targetHeight * targetHeight == B) by (field; lra).
  rewrite Hq in Hle. exact Hle.
Qed.

(** For a positive target the fallback returns, with enough fuel for its
    [evenCutCount + 1] tests, 0, the rounded positions [T], [2T], ... that
    lie more than [0.3 * T] before the end, and the height. *)
Lemma generateEvenCuts_positive (height : Z) (targetHeight : Q) (fuel : nat) :
  0 < targetHeight ->
  (evenCutCount height targetHeight < fuel)%nat ->
  generateEvenCuts fuel height targetHeight
  = Some (0%Z :: map (fun j => Math_round (evenPosition targetHeight j))
                     (seq 1 (evenCutCount height targetHeight))
          ++ [height]).
Proof.
  intros HT Hfuel. unfold generateEvenCuts.
  rewrite (evenCutsLoop_run height targetHeight
             (evenCutCount height targetHeight) fuel [0%Z] targetHeight 1).
  - reflexivity.
  - unfold evenPosition. simpl. ring.
  - intros i Hi. apply evenCutCount_inside; [exact HT|lia].
  - rewrite Nat.add_comm. apply evenCutCount_outside. exact HT.
  - exact Hfuel.
Qed.


(** With an integer target every position of the loop is an integer, which
    [Math.round] leaves alone. *)
Lemma evenPosition_integer (t : Z) (j : nat) :
  Math_round (evenPosition (inject_Z t) j) = (Z.of_nat j * t)%Z.
Proof.
  rewrite <- (Math_round_inject_Z (Z.of_nat j * t)).
  apply Math_round_comp. unfold evenPosition. rewrite inject_Z_mult. reflexivity.
Qed.

(** The fallback for a positive integer target: 0, the multiples of the
    target that lie more than [0.3 * T] before the end, and the height. *)
Lemma generateEvenCuts_integer (height t : Z) (fuel : nat) :
  (0 < t)%Z ->
  (evenCutCount height (inject_Z t) < fuel)%nat ->
  generateEvenCuts fuel height (inject_Z t)
  = Some (0%Z :: map (fun j => (Z.of_nat j * t)%Z)
                     (seq 1 (evenCutCount height (inject_Z t)))
          ++ [height]).
Proof.
  intros Ht Hfuel. rewrite generateEvenCuts_positive.
  - do 3 f_equal. apply map_ext. intro j. apply evenPosition_integer.
  - change 0 with (inject_Z 0). rewrite <- Zlt_Qlt. exact Ht.
  - exact Hfuel.
Qed.





(** ** Targets beyond the page *)

Lemma insertGap_In (g x : WhitespaceGap) (l : list WhitespaceGap) :
  In x (insertGap g l) <-> x = g \/ In x l.
Proof.
  induction l as [|h t IH]; simpl.
  - intuition.
  - destruct (Qle_bool (centerY g) (centerY h)); simpl.
    + intuition.
    + rewrite IH. intuition.
Qed.

(** Sorting neither adds nor drops a gap. *)
Lemma sortGaps_In (x : WhitespaceGap) (l : list WhitespaceGap) :
  In x (sortGaps l) <-> In x l.
Proof.
  induction l as [|g t IH]; simpl.
  - reflexivity.
  - rewrite insertGap_In, IH. intuition.
Qed.

(** Gaps whose centres all lie less than [0.5 * T] from the top leave the
    loop as it began: no cut, [lastCut] still 0. *)
Lemma fold_selectStep_all_skipped (targetSliceHeight : Q) (gaps : list WhitespaceGap)
    (cutPoints : list Z) :
  0 < targetSliceHeight ->
  (forall g, In g gaps -> centerY g < targetSliceHeight * (1 # 2)) ->
  fold_left (selectStep targetSliceHeight) gaps (cutPoints, 0) = (cutPoints, 0).
Proof.
  intros HT. induction gaps as [|gap rest IH]; intro Hall; simpl.
  - reflexivity.
  - assert (Hgap : centerY gap < targetSliceHeight * (1 # 2))
      by (apply Hall; left; reflexivity).
    assert (Hskip : branchOf targetSliceHeight 0 gap = Skip).
    { unfold branchOf.
      assert (E1 : Qle_bool (targetSliceHeight * (1 # 2)) (centerY gap - 0) = false)
        by (apply Qle_bool_false_iff; lra).
      assert (E2 : Qle_bool (targetSliceHeight * 1) (centerY gap - 0) = false)
        by (apply Qle_bool_false_iff; lra).
      rewrite E1, E2. reflexivity. }
    rewrite Hskip. apply IH. intros g Hg. apply Hall. right. exact Hg.
Qed.

(** What the selection returns when it takes no gap. *)
Lemma selectFromGaps_none_taken (height : Z) (targetSliceHeight : Q)
    (gaps : list WhitespaceGap) :
  0 < targetSliceHeight ->
  (forall g, In g gaps -> centerY g < targetSliceHeight * (1 # 2)) ->
  selectFromGaps height targetSliceHeight gaps
  = if Qlt_bool (targetSliceHeight * (3 # 10)) (inject_Z height - 0)
    then [0%Z; height] else [height].
Proof.
  intros HT Hall. unfold selectFromGaps.
  rewrite fold_selectStep_all_skipped.
  - destruct (Qlt_bool _ _); reflexivity.
  - exact HT.
  - intros g Hg. apply Hall. apply sortGaps_In. exact Hg.
Qed.

(** Every gap of the detector has its centre strictly inside the page. *)
Lemma detectGaps_center_inside (imageData : ImageData) (config : DetectionConfig)
    (g : WhitespaceGap) :
  In g (detectGaps imageData config) ->
  0 < centerY g /\ centerY g < inject_Z (Z.of_nat (height imageData)).
Proof.
  intro Hin. unfold detectGaps in Hin.
  destruct (findGaps_In_run _ _ _ _ Hin) as (s & e & Hrun & _ & _ & Hin').
  destruct (closeGap_In _ _ _ _ _ Hin') as (_ & _ & _ & Hc & _).
  destruct (runCenter_inside _ _ _ Hrun) as (_ & Hc0 & Hc1).
  rewrite detectWhitespaceRows_length in Hc1. rewrite Hc. split; lra.
Qed.


(** ** The order of the gaps *)

Lemma StronglySorted_snoc {A : Type} (R : A -> A -> Prop) (l : list A) (x : A) :
  StronglySorted R l -> (forall a, In a l -> R a x) -> StronglySorted R (l ++ [x]).
Proof.
  induction 1 as [|a l Hl IH Ha]; intro Hx; simpl.
  - constructor; constructor.
  - constructor.
    + apply IH. intros b Hb. apply Hx. right. exact Hb.
    + apply Forall_app. split; [exact Ha|].
      constructor; [|constructor]. apply Hx. left. reflexivity.
Qed.

Lemma StronglySorted_weaken {A : Type} (R R' : A -> A -> Prop) (l : list A) :
  (forall a b, In a l -> In b l -> R a b -> R' a b) ->
  StronglySorted R l -> StronglySorted R' l.
Proof.
  intros Himp Hs. induction Hs as [|a l Hl IH Ha].
  - constructor.
  - constructor.
    + apply IH. intros x y Hx Hy. apply Himp; right; assumption.
    + rewrite Forall_forall in *. intros b Hb.
      apply Himp; [left; reflexivity|right; exact Hb|apply Ha; exact Hb].
Qed.

(** The scan pushes the gaps from the top of the page down, each below the
    end of the one before. *)
Lemma findGaps_ordered (rows : list bool) (pageHeight : Z) (config : DetectionConfig) :
  StronglySorted gapBefore (findGaps rows pageHeight config).
Proof.
  unfold findGaps.
  assert (Hinv : scanInv rows pageHeight config (length rows)
                   (for_loop (length rows) (scanRow rows pageHeight config) (None, []))
                 /\ StronglySorted gapBefore
                      (snd (for_loop (length rows)
                              (scanRow rows pageHeight config) (None, [])))).
  { apply (for_loop_invariant
             (fun n st => scanInv rows pageHeight config n st
                          /\ StronglySorted gapBefore (snd st))).
    - split; [apply scanInv_init|constructor].
    - intros n [gapStart gaps] _ [Hinv Hsorted].
      split; [apply scanInv_step; exact Hinv|].
      unfold scanRow. simpl in Hsorted.
      destruct (nth n rows false); destruct gapStart as [s0|]; simpl; try exact Hsorted.
      destruct Hinv as [(Hlt & Hw & _) Hgaps]. simpl in Hgaps.
      destruct (closeGap pageHeight config s0 n) as [|g l] eqn:Eg.
      + rewrite app_nil_r. exact Hsorted.
      + assert (Hg : In g (closeGap pageHeight config s0 n)) by (rewrite Eg; left; reflexivity).
        assert (l = []).
        { unfold closeGap in Eg.
          destruct (Qle_bool _ _); [|discriminate].
          destruct (_ && _); [|discriminate]. congruence. }
        subst l. apply StronglySorted_snoc; [exact Hsorted|].
        intros a Ha. apply Hgaps in Ha. destruct Ha as (s & e & Hse & _ & _ & He & Hin).
        destruct (closeGap_In _ _ _ _ _ Hin) as (_ & Hea & _).
        destruct (closeGap_In _ _ _ _ _ Hg) as (Hsg & _).
        unfold gapBefore. rewrite Hea, Hsg.
        assert (e < s0)%nat; [|lia].
        destruct (Nat.lt_ge_cases e s0) as [?|Hge]; [assumption|].
        rewrite (Hw e) in He by lia. discriminate. }
  exact (proj2 Hinv).
Qed.

(** ** Rounding *)

Lemma Math_round_le (x : Q) : inject_Z (Math_round x) <= x + (1 # 2).
Proof. unfold Math_round. apply Qfloor_le. Qed.

Lemma Math_round_gt (x : Q) : x - (1 # 2) < inject_Z (Math_round x).
Proof.
  unfold Math_round. pose proof (Qlt_floor (x + (1 # 2))) as H.
  rewrite inject_Z_plus in H. change (inject_Z 1) with 1 in H. lra.
Qed.

(** Numbers at least 1 apart round to different integers, in the same order. *)
Lemma Math_round_lt (x y : Q) : x + 1 <= y -> (Math_round x < Math_round y)%Z.
Proof.
  intro H. rewrite Zlt_Qlt.
  pose proof (Math_round_le x). pose proof (Math_round_gt y). lra.
Qed.

Lemma Math_round_pos (x : Q) : 1 # 2 <= x -> (0 < Math_round x)%Z.
Proof.
  intro H. rewrite Zlt_Qlt. pose proof (Math_round_gt x).
  change (inject_Z 0) with 0.
  assert (Hz : (0 <= Math_round x)%Z).
  { unfold Math_round. change 0%Z with (Qfloor 0). apply Qfloor_resp_le. lra. }
  destruct (Z.eq_dec (Math_round x) 0) as [E|E].
  - rewrite E in H0. change (inject_Z 0) with 0 in H0. lra.
  - rewrite <- (Zlt_Qlt 0). lia.
Qed.

Lemma Math_round_below (x : Q) (H : Z) :
  x + (1 # 2) < inject_Z H -> (Math_round x < H)%Z.
Proof.
  intro Hx. rewrite Zlt_Qlt. pose proof (Math_round_le x). lra.
Qed.

(** ** The gaps as the selection sees them *)

(** The gaps of a page, from the top down: centres at least two rows apart,
    at least half a row below the top and a row and a half above the end. *)
Lemma detectGaps_spaced (imageData : ImageData) (config : DetectionConfig) :
  StronglySorted (fun a b => centerY a + 2 <= centerY b)
                 (detectGaps imageData config)
  /\ Forall (fun g => 1 # 2 <= centerY g
                      /\ centerY g <= inject_Z (Z.of_nat (height imageData)) - (3 # 2))
            (detectGaps imageData config).
Proof.
  assert (Hwf : forall g, In g (detectGaps imageData config) ->
            exists s e, (s < e)%nat /\ startY g = Z.of_nat s /\ endY g = Z.of_nat e
                        /\ centerY g = runCenter s e
                        /\ 1 # 2 <= centerY g
                        /\ centerY g <= inject_Z (Z.of_nat (height imageData)) - (3 # 2)).
  { intros g Hin. unfold detectGaps in Hin.
    destruct (findGaps_In_run _ _ _ _ Hin) as (s & e & Hrun & Hs & He & Hin').
    destruct (closeGap_In _ _ _ _ _ Hin') as (_ & _ & _ & Hc & _).
    destruct (runCenter_inside _ _ _ Hrun) as (_ & Hc0 & Hc1).
    rewrite detectWhitespaceRows_length in Hc1.
    exists s, e. destruct Hrun as [(Hr & _) _].
    rewrite Hc. repeat split; try assumption; lia. }
  split.
  - apply StronglySorted_weaken with (R := gapBefore); [|apply findGaps_ordered].
    intros a b Ha Hb Hab.
    destruct (Hwf a Ha) as (sa & ea & Hlta & Hsa & Hea & Hca & _).
    destruct (Hwf b Hb) as (sb & eb & Hltb & Hsb & Heb & Hcb & _).
    unfold gapBefore in Hab. rewrite Hea, Hsb in Hab.
    rewrite Hca, Hcb. unfold runCenter.
    assert (H1 : (Z.of_nat sa + 1 <= Z.of_nat ea)%Z) by lia.
    assert (H2 : (Z.of_nat ea + 1 <= Z.of_nat sb)%Z) by lia.
    assert (H3 : (Z.of_nat sb + 1 <= Z.of_nat eb)%Z) by lia.
    rewrite Zle_Qle in H1, H2, H3. rewrite inject_Z_plus in H1, H2, H3.
    unfold Z.sub. rewrite !inject_Z_plus, !inject_Z_opp.
    change (inject_Z 1) with 1 in *.
    set (qsa := inject_Z (Z.of_nat sa)) in *. set (qea := inject_Z (Z.of_nat ea)) in *.
    set (qsb := inject_Z (Z.of_nat sb)) in *. set (qeb := inject_Z (Z.of_nat eb)) in *.
    assert (Ha2 : (qea + - qsa) / 2 == (qea + - qsa) * (1 # 2)) by reflexivity.
    assert (Hb2 : (qeb + - qsb) / 2 == (qeb + - qsb) * (1 # 2)) by reflexivity.
    rewrite Ha2, Hb2. lra.
  - apply Forall_forall. intros g Hg.
    destruct (Hwf g Hg) as (s & e & _ & _ & _ & _ & H0 & H1). split; assumption.
Qed.

(** Sorting a list that is in order already gives it back. *)
Lemma sortGaps_sorted (l : list WhitespaceGap) :
  StronglySorted (fun a b => centerY a <= centerY b) l -> sortGaps l = l.
Proof.
  induction 1 as [|g t Ht IH Hg]; simpl.
  - reflexivity.
  - rewrite IH. destruct t as [|h t']; [reflexivity|]. simpl.
    assert (E : Qle_bool (centerY g) (centerY h) = true).
    { apply Qle_bool_iff. rewrite Forall_forall in Hg. apply Hg. left. reflexivity. }
    rewrite E. reflexivity.
Qed.

Lemma sortGaps_detectGaps (imageData : ImageData) (config : DetectionConfig) :
  sortGaps (detectGaps imageData config) = detectGaps imageData config.
Proof.
  apply sortGaps_sorted.
  apply StronglySorted_weaken with (R := fun a b => centerY a + 2 <= centerY b);
    [|apply detectGaps_spaced].
  intros a b _ _ H. lra.
Qed.

(** ** Targets beyond the page, case by case *)



(** Integer targets below [2^46] are clear of the rounding at every row
    count and at every centre of a gap ([n / 2] for an integer [n]): the
    number compared is the exact product or at least a tenth away from
    it. *)
Lemma clearOfRounding_integer_target (t n : Z) :
  (Z.abs t < 2 ^ 46)%Z ->
  clearOfRounding (inject_Z t) (inject_Z n / 2).
Proof.
  intro Ht. unfold clearOfRounding.
  set (m := (5 * n - 3 * t)%Z).
  assert (Hx : inject_Z n / 2 - inject_Z t * (3 # 10) == inject_Z m * (1 # 10)).
  { unfold m, Z.sub. rewrite inject_Z_plus, inject_Z_opp, !inject_Z_mult.
    change (inject_Z 5) with 5. change (inject_Z 3) with 3. field. }
  destruct (Z.eq_dec m 0) as [E|E].
  - left. rewrite E in Hx. change (inject_Z 0) with 0 in Hx. lra.
  - right. rewrite Hx.
    assert (Hfar : 1 # 10 <= Qabs (inject_Z m * (1 # 10))).
    { destruct (Z_lt_le_dec m 0) as [Hneg|Hpos].
      - assert (Hq : inject_Z m <= inject_Z (-1)) by (rewrite <- Zle_Qle; lia).
        change (inject_Z (-1)) with (-1) in Hq.
        apply Qabs_case; intros; lra.
      - assert (Hq : inject_Z 1 <= inject_Z m) by (rewrite <- Zle_Qle; lia).
        change (inject_Z 1) with 1 in Hq.
        apply Qabs_case; intros; lra. }
    assert (Hsmall : Qabs (inject_Z t) < inject_Z (2 ^ 46)).
    { apply Qabs_case; intros _.
      - rewrite <- Zlt_Qlt. lia.
      - rewrite <- inject_Z_opp, <- Zlt_Qlt. lia. }
    apply Qlt_le_trans with (1 # 10); [|exact Hfar].
    apply Qlt_trans with (inject_Z (2 ^ 46) * (1 # 2 ^ 50)).
    + apply Qmult_lt_r; [reflexivity|exact Hsmall].
    + reflexivity.
Qed.



(** ** The cut points of the selection *)

(** The loop never drops a cut. *)
Lemma fold_selectStep_length (T : Q) (l : list WhitespaceGap) :
  forall st, (2 <= length (fst st))%nat ->
             (2 <= length (fst (fold_left (selectStep T) l st)))%nat.
Proof.
  induction l as [|x l IHl]; intros [cp lc] Hl; simpl; [exact Hl|].
  apply IHl. unfold selectStep.
  destruct (branchOf T lc x); simpl in *; rewrite ?length_app; simpl; lia.
Qed.

Lemma fold_selectStep_cuts (T : Q) (H : Z) (rest : list WhitespaceGap) :
  forall cutPoints lastCut,
    StronglySorted cutBefore rest ->
    (forall g, In g rest -> (Math_round (centerY g) < H)%Z) ->
    cutsSoFar H rest cutPoints ->
    (cutPoints = [0%Z] /\ lastCut = 0) \/ (2 <= length cutPoints)%nat ->
    let st := fold_left (selectStep T) rest (cutPoints, lastCut) in
    cutsSoFar H [] (fst st)
    /\ ((fst st = [0%Z] /\ snd st = 0
         /\ forall g, In g rest -> centerY g < T * (1 # 2))
        \/ (2 <= length (fst st))%nat).
Proof.
  induction rest as [|gap rest IH]; intros cutPoints lastCut Hsorted Hbelow Hcuts Hfirst.
  - simpl. split.
    + destruct Hcuts as (H0 & H1 & H2 & _). repeat split; try assumption.
      intros c g _ [].
    + destruct Hfirst as [[-> ->]|Hlen]; [left|right; exact Hlen].
      repeat split. intros g [].
  - apply StronglySorted_inv in Hsorted. destruct Hsorted as [Hsorted Hgap].
    rewrite Forall_forall in Hgap.
    destruct Hcuts as (H0 & H1 & H2 & H3).
    assert (Htaken :
      let st := fold_left (selectStep T) rest
                  (cutPoints ++ [Math_round (centerY gap)], centerY gap) in
      cutsSoFar H [] (fst st)
      /\ ((fst st = [0%Z] /\ snd st = 0
           /\ forall g, In g (gap :: rest) -> centerY g < T * (1 # 2))
          \/ (2 <= length (fst st))%nat)).
    { destruct (IH (cutPoints ++ [Math_round (centerY gap)]) (centerY gap))
        as [Hc [(E & _)|Hlen]].
      - exact Hsorted.
      - intros g Hg. apply Hbelow. right. exact Hg.
      - repeat split.
        + destruct cutPoints; [discriminate|exact H0].
        + apply StronglySorted_snoc; [exact H1|].
          intros c Hc. apply (H3 c gap Hc). left. reflexivity.
        + intros c Hc. apply in_app_iff in Hc. destruct Hc as [Hc|[<-|[]]].
          * apply H2. exact Hc.
          * apply Hbelow. left. reflexivity.
        + intros c g Hc Hg. apply in_app_iff in Hc. destruct Hc as [Hc|[<-|[]]].
          * apply (H3 c g Hc). right. exact Hg.
          * apply Hgap. exact Hg.
      - right. rewrite length_app. simpl.
        destruct cutPoints; [discriminate|simpl; lia].
      - split; [exact Hc|]. right.
        apply fold_selectStep_length. simpl. rewrite length_app. simpl.
        destruct cutPoints; [discriminate|simpl; lia].
      - split; [exact Hc|]. right. exact Hlen. }
    simpl fold_left.
    remember (selectStep T (cutPoints, lastCut) gap) as st1 eqn:Est.
    unfold selectStep in Est.
    destruct (branchOf T lastCut gap) eqn:Eb; subst st1; try exact Htaken.
    destruct (IH cutPoints lastCut) as [Hc Hres].
    + exact Hsorted.
    + intros g Hg. apply Hbelow. right. exact Hg.
    + repeat split; try assumption.
      intros c g Hc Hg. apply (H3 c g Hc). right. exact Hg.
    + exact Hfirst.
    + split; [exact Hc|].
      destruct Hres as [(E1 & E2 & Hall)|Hlen]; [|right; exact Hlen].
      destruct Hfirst as [[-> ->]|Hlen].
      * left. repeat split; try assumption.
        intros g [<-|Hg]; [|apply Hall; exact Hg].
        unfold branchOf in Eb.
        destruct (Qle_bool (T * (1 # 2)) (centerY gap - 0)) eqn:E; [discriminate|].
        apply Qle_bool_false_iff in E. lra.
      * right.
        apply fold_selectStep_length. exact Hlen.
Qed.

Lemma StronglySorted_app_l {A : Type} (R : A -> A -> Prop) (l l' : list A) :
  StronglySorted R (l ++ l') -> StronglySorted R l.
Proof.
  induction l as [|a l IH]; simpl; intro H.
  - constructor.
  - apply StronglySorted_inv in H. destruct H as [Hs Ha].
    constructor; [apply IH; exact Hs|].
    apply Forall_app in Ha. exact (proj1 Ha).
Qed.

(** Closing a sequence of cuts that are all below [H] with [H]. *)
Lemma validCuts_snoc (H : Z) (cutPoints : list Z) :
  hd_error cutPoints = Some 0%Z ->
  StronglySorted Z.lt cutPoints ->
  (forall c, In c cutPoints -> (c < H)%Z) ->
  validCuts H (cutPoints ++ [H]).
Proof.
  intros Hhd Hs Hlt. repeat split.
  - rewrite length_app. simpl. destruct cutPoints; [discriminate|simpl; lia].
  - destruct cutPoints; [discriminate|exact Hhd].
  - apply last_last.
  - apply StronglySorted_snoc; assumption.
Qed.

(** Overwriting the last of at least two cuts with [H]. *)
Lemma validCuts_setLast (H : Z) (cutPoints : list Z) :
  (2 <= length cutPoints)%nat ->
  hd_error cutPoints = Some 0%Z ->
  StronglySorted Z.lt cutPoints ->
  (forall c, In c cutPoints -> (c < H)%Z) ->
  validCuts H (setLast cutPoints H).
Proof.
  intros Hlen Hhd Hs Hlt.
  destruct (exists_last (l := cutPoints)) as (l & x & ->);
    [destruct cutPoints; [simpl in Hlen; lia|discriminate]|].
  assert (Hset : setLast (l ++ [x]) H = l ++ [H]).
  { unfold setLast. rewrite removelast_last. destruct l; reflexivity. }
  rewrite Hset. rewrite length_app in Hlen. simpl in Hlen.
  apply validCuts_snoc.
  - destruct l; [simpl in Hlen; lia|exact Hhd].
  - exact (StronglySorted_app_l _ _ _ Hs).
  - intros c Hc. apply Hlt. apply in_app_iff. left. exact Hc.
Qed.

(** On a page with gaps and [H > 0.3 * T] the selection keeps the contract:
    at least two cuts, from 0 to [H], strictly increasing. *)
Lemma findCutPoints_valid_with_gaps (imageData : ImageData) (targetSliceHeight : Q)
    (config : PartialConfig) :
  detectGaps imageData (mergeConfig config) <> [] ->
  targetSliceHeight * (3 # 10) < inject_Z (Z.of_nat (height imageData)) ->
  exists cuts,
    (forall fuel, findCutPoints fuel imageData targetSliceHeight config = Some cuts)
    /\ validCuts (Z.of_nat (height imageData)) cuts.
Proof.
  intros Hne Htail.
  exists (selectFromGaps (Z.of_nat (height imageData)) targetSliceHeight
            (detectGaps imageData (mergeConfig config))).
  split; [intro fuel; apply findCutPoints_gaps; exact Hne|].
  unfold selectFromGaps. rewrite sortGaps_detectGaps.
  destruct (detectGaps_spaced imageData (mergeConfig config)) as [Hspaced Hinside].
  rewrite Forall_forall in Hinside.
  set (H := Z.of_nat (height imageData)) in *.
  destruct (fold_selectStep_cuts targetSliceHeight H
              (detectGaps imageData (mergeConfig config)) [0%Z] 0)
    as [(Hhd & Hs & Hlt & _) Hres].
  - apply StronglySorted_weaken with (R := fun a b => centerY a + 2 <= centerY b);
      [|exact Hspaced].
    intros a b _ _ Hab. apply Math_round_lt. lra.
  - intros g Hg. apply Math_round_below. destruct (Hinside g Hg). lra.
  - repeat split.
    + constructor; constructor.
    + intros c [<-|[]].
      destruct (detectGaps imageData (mergeConfig config)) as [|g l] eqn:E; [congruence|].
      destruct (Hinside g (or_introl eq_refl)) as [H0 H1].
      assert (Hq : 0 < inject_Z H) by lra.
      change 0 with (inject_Z 0) in Hq. rewrite <- Zlt_Qlt in Hq. exact Hq.
    + intros c g [<-|[]] Hg. apply Math_round_pos. destruct (Hinside g Hg). assumption.
  - left. split; reflexivity.
  - destruct (fold_left _ _ _) as [cutPoints lastCut]. simpl in *.
    destruct (Qlt_bool _ _) eqn:E.
    + apply validCuts_snoc; assumption.
    + destruct Hres as [(_ & -> & _)|Hlen].
      * apply Qlt_bool_false_iff in E. lra.
      * apply validCuts_setLast; assumption.
Qed.

(** Positions a row or more apart round to increasing cuts. *)
Lemma evenCuts_increasing (targetHeight : Q) :
  1 <= targetHeight ->
  forall k a, StronglySorted Z.lt
                (map (fun j => Math_round (evenPosition targetHeight j)) (seq a k)).
Proof.
  intro HT. induction k as [|k IH]; intro a; simpl.
  - constructor.
  - constructor; [apply IH|].
    apply Forall_forall. intros c Hc. apply in_map_iff in Hc.
    destruct Hc as (j & <- & Hj). apply in_seq in Hj.
    apply Math_round_lt. unfold evenPosition.
    assert (Hz : (Z.of_nat a + 1 <= Z.of_nat j)%Z) by lia.
    rewrite Zle_Qle, inject_Z_plus in Hz. change (inject_Z 1) with 1 in Hz.
    nra.
Qed.

(** On a page without gaps, of positive height, the fallback keeps the
    contract once the target is at least [5/3]: the positions are then at
    least a row apart and the last one rounds below [H]. *)
Lemma findCutPoints_valid_fallback (imageData : ImageData) (targetSliceHeight : Q)
    (config : PartialConfig) :
  detectGaps imageData (mergeConfig config) = [] ->
  (0 < height imageData)%nat ->
  5 # 3 <= targetSliceHeight ->
  exists cuts,
    (forall fuel,
       (evenCutCount (Z.of_nat (height imageData)) targetSliceHeight < fuel)%nat ->
       findCutPoints fuel imageData targetSliceHeight config = Some cuts)
    /\ validCuts (Z.of_nat (height imageData)) cuts.
Proof.
  intros Hnil HH HT.
  set (H := Z.of_nat (height imageData)) in *.
  set (k := evenCutCount H targetSliceHeight).
  assert (HT0 : 0 < targetSliceHeight) by lra.
  exists ((0%Z :: map (fun j => Math_round (evenPosition targetSliceHeight j)) (seq 1 k))
          ++ [H]).
  split.
  - intros fuel Hfuel. rewrite (findCutPoints_no_gaps _ _ _ _ Hnil).
    apply generateEvenCuts_positive; assumption.
  - assert (Hpos : forall j, In j (seq 1 k) ->
              1 <= inject_Z (Z.of_nat j)
              /\ evenPosition targetSliceHeight j
                 < inject_Z H - targetSliceHeight * (3 # 10)).
    { intros j Hj. apply in_seq in Hj. split.
      - change 1 with (inject_Z 1). rewrite <- Zle_Qle. lia.
      - apply evenCutCount_inside; [exact HT0|fold k; lia]. }
    apply validCuts_snoc.
    + reflexivity.
    + constructor.
      * apply evenCuts_increasing. lra.
      * apply Forall_forall. intros c Hc. apply in_map_iff in Hc.
        destruct Hc as (j & <- & Hj). destruct (Hpos j Hj) as [Hj1 _].
        apply Math_round_pos. unfold evenPosition. nra.
    + intros c [<-|Hc]; [lia|]. apply in_map_iff in Hc.
      destruct Hc as (j & <- & Hj). destruct (Hpos j Hj) as [_ Hlt].
      apply Math_round_below. lra.
Qed.

(** ** Degenerate inputs *)

(** An image of height 0 has no row and no gap. *)
Lemma detectGaps_empty_page (imageData : ImageData) (config : DetectionConfig) :
  height imageData = 0%nat -> detectGaps imageData config = [].
Proof.
  intro Hh. unfold detectGaps.
  apply findGaps_uniform with (b := false).
  intros i Hi. rewrite detectWhitespaceRows_length in Hi. lia.
Qed.

(** C2, as amended.  On a page of height 0 and for every [T >= 0],
    [findCutPoints] returns [[0, H]], that is [[0, 0]]: the fallback loop
    exits at its first test, so any positive fuel is enough.  For [T <= 0]
    on a page with at least one gap it returns as well, whatever the fuel:
    a sequence of at least two cuts, from 0 to [H] and strictly increasing,
    which need not be [[0, H]]. *)
Theorem degenerate_inputs (imageData : ImageData) (targetSliceHeight : Q)
    (config : PartialConfig) :
  (height imageData = 0%nat ->
   0 <= targetSliceHeight ->
   forall fuel, (0 < fuel)%nat ->
     findCutPoints fuel imageData targetSliceHeight config
     = Some [0%Z; Z.of_nat (height imageData)])
  /\ (targetSliceHeight <= 0 ->
      detectGaps imageData (mergeConfig config) <> [] ->
      exists cuts,
        (forall fuel, findCutPoints fuel imageData targetSliceHeight config = Some cuts)
        /\ validCuts (Z.of_nat (height imageData)) cuts).
Proof.
  split.
  - intros Hh HT fuel Hfuel.
    rewrite (findCutPoints_no_gaps _ _ _ _ (detectGaps_empty_page _ _ Hh)).
    rewrite Hh. destruct fuel as [|fuel]; [lia|].
    unfold generateEvenCuts. simpl.
    assert (E : Qlt_bool targetSliceHeight
                  (inject_Z 0 - targetSliceHeight * (3 # 10)) = false).
    { apply Qlt_bool_false_iff. change (inject_Z 0) with 0. lra. }
    rewrite E. reflexivity.
  - intros HT Hne. apply findCutPoints_valid_with_gaps; [exact Hne|].
    destruct (detectGaps imageData (mergeConfig config)) as [|g l] eqn:E; [congruence|].
    destruct (detectGaps_center_inside imageData (mergeConfig config) g) as [H0 H1];
      [rewrite E; left; reflexivity|]. lra.
Qed.

Lemma degenerate_inputs_witness :
  findCutPoints 1 (paint 3 []) 350 noOverrides = Some [0; 0]%Z
  /\ exists cuts,
       (forall fuel, findCutPoints fuel (paint 1 twoRuns) (-1) noOverrides = Some cuts)
       /\ validCuts 200 cuts.
Proof.
  split.
  - destruct (degenerate_inputs (paint 3 []) 350 noOverrides) as [Hempty _].
    apply Hempty.
    + reflexivity.
    + discriminate.
    + lia.
  - destruct (degenerate_inputs (paint 1 twoRuns) (-1) noOverrides) as [_ Hgaps].
    apply Hgaps.
    + discriminate.
    + vm_compute. discriminate.
Defined.

(** C2 fails as stated for [T <= 0].  With [T = 0] on a one-row page
    without gaps the fallback loop never exits: no fuel gives a result.
    With [T = -1] on the page [twoRuns], which has a gap, the result has an
    interior cut. *)
Lemma degenerate_target_counterexample :
  (~ exists fuel cuts, findCutPoints fuel blackPixel 0 noOverrides = Some cuts)
  /\ findCutPoints 0 (paint 1 twoRuns) (-1) noOverrides = Some [0; 130; 200]%Z.
Proof.
  split.
  - intros (fuel & cuts & H).
    rewrite findCutPoints_no_gaps in H by reflexivity.
    unfold generateEvenCuts in H.
    rewrite evenCutsLoop_diverges in H; [discriminate|discriminate|reflexivity].
  - vm_compute. reflexivity.
Qed.

(** ** A page shorter than [0.3 * T] *)

(** When the page has a gap and [H <= 0.3 * T], the loop takes no gap and
    the final assignment overwrites the only element of [cutPoints], the
    initial 0: the result is the one-element list [[H]]. *)
Lemma findCutPoints_single_cut (imageData : ImageData) (targetSliceHeight : Q)
    (config : PartialConfig) (fuel : nat) :
  detectGaps imageData (mergeConfig config) <> [] ->
  inject_Z (Z.of_nat (height imageData)) <= targetSliceHeight * (3 # 10) ->
  findCutPoints fuel imageData targetSliceHeight config
  = Some [Z.of_nat (height imageData)].
Proof.
  intros Hne Hshort. rewrite (findCutPoints_gaps _ _ _ _ Hne).
  assert (HT : 0 < targetSliceHeight).
  { destruct (detectGaps imageData (mergeConfig config)) as [|g l] eqn:E; [congruence|].
    destruct (detectGaps_center_inside imageData (mergeConfig config) g) as [H0 H1];
      [rewrite E; left; reflexivity|]. lra. }
  rewrite selectFromGaps_none_taken; [|exact HT|].
  - assert (E : Qlt_bool (targetSliceHeight * (3 # 10))
                  (inject_Z (Z.of_nat (height imageData)) - 0) = false)
      by (apply Qlt_bool_false_iff; lra).
    rewrite E. reflexivity.
  - intros g Hg. destruct (detectGaps_center_inside _ _ _ Hg) as [H0 H1]. lra.
Qed.

(** C1, the failing input.  On [shortPage] (200 rows, one gap centred at
    100) with [targetSliceHeight = 900] and the default configuration,
    [findCutPoints] returns the single cut point [[200]]: the list neither
    starts at 0 nor has two elements, and [analyzePageForSlicing], called
    with a viewport of 900 and scale 2, makes no slice of the page. *)
Theorem short_page_single_cut :
  forall fuel,
    findCutPoints fuel shortPage 900 noOverrides = Some [200%Z]
    /\ ~ validCuts (Z.of_nat (height shortPage)) [200%Z]
    /\ analyzePageForSlicing fuel shortPage 900 2 = Some [].
Proof.
  intro fuel. split; [|split].
  - apply (findCutPoints_single_cut shortPage 900 noOverrides fuel).
    + vm_compute. discriminate.
    + vm_compute. discriminate.
  - intros (Hlen & _). simpl in Hlen. lia.
  - unfold analyzePageForSlicing.
    rewrite (findCutPoints_single_cut shortPage (900 * 2 * (1 # 2)) noOverrides fuel).
    + reflexivity.
    + vm_compute. discriminate.
    + vm_compute. discriminate.
Qed.

(** ** Scenario B *)

(** The rows of an image whose white pixels are given row by row by [f]. *)
Lemma detectWhitespaceRows_banded (imageData : ImageData) (f : nat -> bool) :
  width imageData <> 0%nat ->
  (forall y x, (y < height imageData)%nat -> (x < width imageData)%nat ->
               isWhitePx imageData y x = f y) ->
  detectWhitespaceRows imageData DEFAULT_CONFIG = map f (seq 0 (height imageData)).
Proof.
  intros Hw Hpx. rewrite detectWhitespaceRows_map. apply map_ext_in.
  intros y Hy. apply in_seq in Hy. destruct (f y) eqn:Ef.
  - rewrite isWhitespaceRow_all_white.
    + destruct (width imageData); [congruence|reflexivity].
    + intros x Hx. rewrite Hpx by (assumption || lia). exact Ef.
  - rewrite isWhitespaceRow_no_white.
    + destruct (width imageData); [congruence|reflexivity].
    + intros x Hx. rewrite Hpx by (assumption || lia). exact Ef.
Qed.

(** C5.  On a buffer of 1000 rows, of any positive width, whose pixels are
    white (brightness above 0.9) on the rows of the two bands and not white
    on every other row, [findCutPoints] with [targetSliceHeight = 350] and
    no overrides returns exactly [[0, 300, 700, 1000]]. *)
Theorem scenario_B (imageData : ImageData) (fuel : nat) :
  width imageData <> 0%nat ->
  height imageData = 1000%nat ->
  (forall y x, (y < 1000)%nat -> (x < width imageData)%nat ->
               isWhitePx imageData y x = inBandB y) ->
  findCutPoints fuel imageData 350 noOverrides = Some [0; 300; 700; 1000]%Z.
Proof.
  intros Hw Hh Hpx. unfold findCutPoints.
  change (mergeConfig noOverrides) with DEFAULT_CONFIG.
  rewrite (detectWhitespaceRows_banded imageData inBandB Hw)
    by (rewrite Hh; exact Hpx).
  rewrite Hh. vm_compute. reflexivity.
Qed.

(** Checking the pixels of an image one by one. *)
Lemma isWhitePx_checked (imageData : ImageData) (f : nat -> bool) (h w : nat) :
  forallb (fun y => forallb (fun x => Bool.eqb (isWhitePx imageData y x) (f y))
                      (seq 0 w)) (seq 0 h) = true ->
  forall y x, (y < h)%nat -> (x < w)%nat -> isWhitePx imageData y x = f y.
Proof.
  intros Hall y x Hy Hx. rewrite forallb_forall in Hall.
  assert (Hrow := Hall y ltac:(apply in_seq; lia)).
  rewrite forallb_forall in Hrow.
  apply Bool.eqb_prop. apply Hrow. apply in_seq. lia.
Qed.

Lemma scenario_B_witness :
  findCutPoints 0 pageB 350 noOverrides = Some [0; 300; 700; 1000]%Z.
Proof.
  apply (scenario_B pageB 0).
  - discriminate.
  - vm_compute. reflexivity.
  - apply isWhitePx_checked. vm_compute. reflexivity.
Defined.

(** * Further properties *)



(** X2.  [findCutPoints] receives the gaps from the top of the page down,
    each ending above the row where the next begins, and its sort by
    [centerY] gives the list back unchanged. *)
Theorem gaps_in_page_order (imageData : ImageData) (config : DetectionConfig) :
  StronglySorted gapBefore (detectGaps imageData config)
  /\ StronglySorted (fun a b => centerY a < centerY b) (detectGaps imageData config)
  /\ sortGaps (detectGaps imageData config) = detectGaps imageData config.
Proof.
  split; [apply findGaps_ordered|]. split; [|apply sortGaps_detectGaps].
  apply StronglySorted_weaken with (R := fun a b => centerY a + 2 <= centerY b);
    [|apply detectGaps_spaced].
  intros a b _ _ H. lra.
Qed.

(** The ratio of [analyzeRow] is a fraction of the width. *)
Lemma analyzeRow_Some (imageData : ImageData) (y : nat) (r : Q) :
  analyzeRow imageData y = Some r -> width imageData <> 0%nat /\ 0 <= r /\ r <= 1.
Proof.
  unfold analyzeRow. pose proof (countWhitePx_le imageData y) as Hle.
  destruct (width imageData) as [|w] eqn:Ew; [discriminate|].
  intros [= <-]. split; [discriminate|].
  set (c := countWhitePx imageData y) in *.
  assert (Hw : 0 < inject_Z (Z.of_nat (S w))).
  { change 0 with (inject_Z 0). rewrite <- Zlt_Qlt. lia. }
  split.
  - apply Qle_shift_div_l; [exact Hw|]. rewrite Qmult_0_l.
    change 0 with (inject_Z 0). rewrite <- Zle_Qle. lia.
  - apply Qle_shift_div_r; [exact Hw|]. rewrite Qmult_1_l.
    rewrite <- Zle_Qle. lia.
Qed.

Lemma analyzeRow_None (imageData : ImageData) (y : nat) :
  analyzeRow imageData y = None <-> width imageData = 0%nat.
Proof.
  unfold analyzeRow. destruct (width imageData); split; intro H;
    try reflexivity; discriminate.
Qed.

(** X3.  [analyzeRow] returns [NaN] exactly when the image has width 0, and
    otherwise a ratio between 0 and 1, whatever [data] holds, even when it
    is shorter than [width * height * 4]. *)
Theorem analyzeRow_range (imageData : ImageData) (y : nat) :
  (analyzeRow imageData y = None <-> width imageData = 0%nat)
  /\ (forall r, analyzeRow imageData y = Some r -> 0 <= r /\ r <= 1).
Proof.
  split.
  - apply analyzeRow_None.
  - intros r Hr. apply analyzeRow_Some in Hr. tauto.
Qed.

(** X4.  A [whitespaceThreshold] that is not in (0, 1] switches the
    detector off: at 0 or below every row of a page of positive width
    counts as whitespace, above 1 none does, and either way no run is
    closed.  [findCutPoints] then is [generateEvenCuts] on every page. *)
Theorem threshold_out_of_range (imageData : ImageData) (config : PartialConfig)
    (targetSliceHeight : Q) (fuel : nat) :
  whitespaceThreshold (mergeConfig config) <= 0
  \/ 1 < whitespaceThreshold (mergeConfig config) ->
  detectGaps imageData (mergeConfig config) = []
  /\ findCutPoints fuel imageData targetSliceHeight config
     = generateEvenCuts fuel (Z.of_nat (height imageData)) targetSliceHeight.
Proof.
  intro Hthr.
  assert (Hnil : detectGaps imageData (mergeConfig config) = []).
  { destruct Hthr as [Hlow|Hhigh].
    - apply detectGaps_uniform
        with (b := match width imageData with O => false | _ => true end).
      intros y _. unfold isWhitespaceRow.
      destruct (analyzeRow imageData y) as [r|] eqn:Er.
      + destruct (analyzeRow_Some _ _ _ Er) as (Hw & H0 & _).
        destruct (width imageData); [congruence|].
        apply Qle_bool_iff. lra.
      + apply analyzeRow_None in Er. rewrite Er. reflexivity.
    - apply detectGaps_uniform with (b := false).
      intros y _. unfold isWhitespaceRow.
      destruct (analyzeRow imageData y) as [r|] eqn:Er; [|reflexivity].
      destruct (analyzeRow_Some _ _ _ Er) as (_ & _ & H1).
      apply Qle_bool_false_iff. lra. }
  split; [exact Hnil|]. apply findCutPoints_no_gaps. exact Hnil.
Qed.

Lemma threshold_out_of_range_witness :
  detectGaps pageB (mergeConfig (mkPartial (Some 0) None None None)) = []
  /\ findCutPoints 5 pageB 350 (mkPartial (Some 0) None None None)
     = Some [0; 350; 700; 1000]%Z.
Proof.
  destruct (threshold_out_of_range pageB (mkPartial (Some 0) None None None) 350 5)
    as [Hnil Hcuts].
  - left. discriminate.
  - split; [exact Hnil|]. rewrite Hcuts. reflexivity.
Defined.

(** ** Where the cuts fall *)

Lemma setLast_In (cutPoints : list Z) (height c : Z) :
  In c (setLast cutPoints height) -> In c cutPoints \/ c = height.
Proof.
  unfold setLast. destruct cutPoints as [|a l]; [intros []|].
  intro H. apply in_app_iff in H. destruct H as [H|[<-|[]]]; [|right; reflexivity].
  left. destruct (exists_last (l := a :: l)) as (l' & x & E); [discriminate|].
  rewrite E in *. rewrite removelast_last in H. apply in_app_iff. left. exact H.
Qed.

(** Every cut the loop pushes is the rounded centre of one of its gaps. *)
Lemma fold_selectStep_origin (T : Q) (gaps : list WhitespaceGap) :
  forall cutPoints lastCut c,
    In c (fst (fold_left (selectStep T) gaps (cutPoints, lastCut))) ->
    In c cutPoints \/ exists g, In g gaps /\ c = Math_round (centerY g).
Proof.
  induction gaps as [|gap rest IH]; intros cutPoints lastCut c Hc; simpl in Hc.
  - left. exact Hc.
  - assert (Htaken : forall lc,
              In c (fst (fold_left (selectStep T) rest
                           (cutPoints ++ [Math_round (centerY gap)], lc))) ->
              In c cutPoints \/ exists g, In g (gap :: rest) /\ c = Math_round (centerY g)).
    { intros lc H. apply IH in H. destruct H as [H|(g & Hg & Hcg)].
      - apply in_app_iff in H. destruct H as [H|[<-|[]]]; [left; exact H|].
        right. exists gap. split; [left|]; reflexivity.
      - right. exists g. split; [right; exact Hg|exact Hcg]. }
    remember (selectStep T (cutPoints, lastCut) gap) as st1 eqn:Est.
    unfold selectStep in Est.
    destruct (branchOf T lastCut gap); subst st1; try (apply (Htaken _ Hc)).
    apply IH in Hc. destruct Hc as [H|(g & Hg & Hcg)]; [left; exact H|].
    right. exists g. split; [right; exact Hg|exact Hcg].
Qed.

(** The rounded centre of a run is a row of the run, or the row that ends it. *)
Lemma Math_round_runCenter (s e : nat) :
  (s < e)%nat ->
  (Z.of_nat s < Math_round (runCenter s e) <= Z.of_nat e)%Z
  /\ ((s + 2 <= e)%nat -> (Math_round (runCenter s e) < Z.of_nat e)%Z).
Proof.
  intro Hse.
  pose proof (Math_round_le (runCenter s e)) as Hle.
  pose proof (Math_round_gt (runCenter s e)) as Hgt.
  unfold runCenter in *.
  assert (H1 : (Z.of_nat s + 1 <= Z.of_nat e)%Z) by lia.
  rewrite Zle_Qle, inject_Z_plus in H1. change (inject_Z 1) with 1 in H1.
  unfold Z.sub in *. rewrite inject_Z_plus, inject_Z_opp in *.
  set (qs := inject_Z (Z.of_nat s)) in *. set (qe := inject_Z (Z.of_nat e)) in *.
  assert (Hhalf : (qe + - qs) / 2 == (qe + - qs) * (1 # 2)) by reflexivity.
  set (r := Math_round (qs + (qe + - qs) / 2)) in *.
  rewrite Hhalf in Hle, Hgt.
  assert (Hlo : inject_Z (Z.of_nat s) < inject_Z r) by (fold qs; lra).
  assert (Hhi : inject_Z r < inject_Z (Z.of_nat e + 1)).
  { rewrite inject_Z_plus. change (inject_Z 1) with 1. fold qe. lra. }
  rewrite <- Zlt_Qlt in Hlo, Hhi. split; [lia|].
  intro H2. assert (H3 : (Z.of_nat s + 2 <= Z.of_nat e)%Z) by lia.
  rewrite Zle_Qle, inject_Z_plus in H3. change (inject_Z 2) with 2 in H3. fold qs qe in H3.
  assert (Hhi' : inject_Z r < inject_Z (Z.of_nat e)) by (fold qe; lra).
  rewrite <- Zlt_Qlt in Hhi'. exact Hhi'.
Qed.

(** X5.  On a page with gaps, every cut point that [findCutPoints] returns
    is 0, the page height, or the rounded centre of a gap, and such a cut
    never falls between two rows of content: the row just above it is a
    whitespace row of the gap, and so is the row just below it as soon as
    the gap is at least two rows high. *)
Theorem cuts_fall_in_gaps (imageData : ImageData) (targetSliceHeight : Q)
    (config : PartialConfig) (fuel : nat) (cuts : list Z) (c : Z) :
  detectGaps imageData (mergeConfig config) <> [] ->
  findCutPoints fuel imageData targetSliceHeight config = Some cuts ->
  In c cuts ->
  c = 0%Z \/ c = Z.of_nat (height imageData)
  \/ exists g, In g (detectGaps imageData (mergeConfig config))
               /\ c = Math_round (centerY g)
               /\ (startY g < c <= endY g)%Z
               /\ isWhitespaceRow imageData (mergeConfig config) (Z.to_nat (c - 1)) = true
               /\ ((2 <= gapHeight g)%Z ->
                   (c < endY g)%Z
                   /\ isWhitespaceRow imageData (mergeConfig config) (Z.to_nat c) = true).
Proof.
  intros Hne Hcuts Hc.
  rewrite (findCutPoints_gaps _ _ _ _ Hne) in Hcuts. injection Hcuts as Hcuts. subst cuts.
  unfold selectFromGaps in Hc.
  destruct (fold_left _ _ _) as [cutPoints lastCut] eqn:Efold.
  assert (Horigin : In c cutPoints ->
            c = 0%Z \/ exists g, In g (detectGaps imageData (mergeConfig config))
                                 /\ c = Math_round (centerY g)).
  { intro H. pose proof (fold_selectStep_origin targetSliceHeight
                           (sortGaps (detectGaps imageData (mergeConfig config)))
                           [0%Z] 0 c) as Ho.
    rewrite Efold in Ho. destruct (Ho H) as [[<-|[]]|(g & Hg & Hcg)].
    - left. reflexivity.
    - right. exists g. split; [apply sortGaps_In; exact Hg|exact Hcg]. }
  assert (Hcases : c = 0%Z \/ c = Z.of_nat (height imageData)
                   \/ exists g, In g (detectGaps imageData (mergeConfig config))
                                /\ c = Math_round (centerY g)).
  { destruct (Qlt_bool _ _).
    - apply in_app_iff in Hc. destruct Hc as [Hc|[<-|[]]]; [|tauto].
      destruct (Horigin Hc); tauto.
    - apply setLast_In in Hc. destruct Hc as [Hc | ->]; [|tauto].
      destruct (Horigin Hc); tauto. }
  destruct Hcases as [H|[H|(g & Hg & Hcg)]]; [tauto|tauto|].
  right. right. exists g. split; [exact Hg|]. split; [exact Hcg|].
  unfold detectGaps in Hg. apply findGaps_spec in Hg.
  destruct Hg as (s & e & [(Hr & Hw & _) Hlt] & Hin).
  destruct (closeGap_In _ _ _ _ _ Hin) as (Hs & He & Hh & Hcy & _).
  rewrite detectWhitespaceRows_length in Hr, Hlt.
  destruct (Math_round_runCenter s e ltac:(lia)) as [Hin1 Hin2].
  rewrite <- Hcy, <- Hcg in Hin1, Hin2. rewrite Hs, He, Hh.
  split; [exact Hin1|]. split.
  - rewrite <- detectWhitespaceRows_nth by lia. apply Hw. lia.
  - intro H2. assert (Hc2 : (c < Z.of_nat e)%Z) by (apply Hin2; lia).
    split; [exact Hc2|].
    rewrite <- detectWhitespaceRows_nth by lia. apply Hw. lia.
Qed.

Lemma cuts_fall_in_gaps_witness :
  300%Z = 0%Z \/ 300%Z = Z.of_nat (height pageB)
  \/ exists g, In g (detectGaps pageB (mergeConfig noOverrides))
               /\ 300%Z = Math_round (centerY g)
               /\ (startY g < 300 <= endY g)%Z
               /\ isWhitespaceRow pageB (mergeConfig noOverrides) (Z.to_nat (300 - 1)) = true
               /\ ((2 <= gapHeight g)%Z ->
                   (300 < endY g)%Z
                   /\ isWhitespaceRow pageB (mergeConfig noOverrides) (Z.to_nat 300) = true).
Proof.
  apply (cuts_fall_in_gaps pageB 350 noOverrides 0 [0; 300; 700; 1000]%Z 300%Z).
  - vm_compute. discriminate.
  - vm_compute. reflexivity.
  - right. left. reflexivity.
Defined.

(** ** The slices of [analyzePageForSlicing] *)

Lemma slicesOf_cons2 (a b : Z) (l : list Z) :
  slicesOf (a :: b :: l) = (a, b) :: slicesOf (b :: l).
Proof. reflexivity. Qed.

Lemma slicesOf_length (cuts : list Z) :
  length (slicesOf cuts) = (length cuts - 1)%nat.
Proof.
  induction cuts as [|a [|b l] IH]; try reflexivity.
  rewrite slicesOf_cons2. simpl length in *. rewrite IH. lia.
Qed.

Lemma slicesOf_snoc (l : list Z) (x : Z) :
  l <> [] -> slicesOf (l ++ [x]) = slicesOf l ++ [(last l 0%Z, x)].
Proof.
  induction l as [|a [|b l] IH]; intro Hne; [congruence|reflexivity|].
  change ((a :: b :: l) ++ [x]) with (a :: b :: (l ++ [x])).
  rewrite !slicesOf_cons2.
  change (b :: l ++ [x]) with ((b :: l) ++ [x]). rewrite IH by discriminate.
  reflexivity.
Qed.

Lemma last_cons2 (a b : Z) (l : list Z) :
  last (a :: b :: l) a = last (b :: l) b.
Proof.
  destruct (exists_last (l := b :: l)) as (l' & x & E); [discriminate|].
  rewrite E. change (a :: l' ++ [x]) with ((a :: l') ++ [x]).
  rewrite !last_last. reflexivity.
Qed.

(** The slices of increasing cuts lie side by side, in order. *)
Lemma slicesOf_bounds (a : Z) (l : list Z) :
  StronglySorted Z.lt (a :: l) ->
  forall p, In p (slicesOf (a :: l)) ->
            (a <= fst p < snd p)%Z /\ (snd p <= last (a :: l) a)%Z.
Proof.
  revert a. induction l as [|b l IH]; intros a Hs p Hp; [destruct Hp|].
  rewrite slicesOf_cons2 in Hp. apply StronglySorted_inv in Hs.
  destruct Hs as [Hs Ha]. rewrite Forall_forall in Ha.
  assert (Hab : (a < b)%Z) by (apply Ha; left; reflexivity).
  assert (Hlast : (b <= last (b :: l) b)%Z).
  { destruct l as [|c l]; [simpl; lia|].
    destruct (exists_last (l := c :: l)) as (l' & x & E); [discriminate|].
    rewrite E. change (b :: l' ++ [x]) with ((b :: l') ++ [x]). rewrite last_last.
    apply StronglySorted_inv in Hs. destruct Hs as [_ Hb].
    rewrite Forall_forall in Hb. apply Z.lt_le_incl. apply Hb.
    rewrite E. apply in_app_iff. right. left. reflexivity. }
  assert (Hl : last (a :: b :: l) a = last (b :: l) b) by apply last_cons2.
  rewrite Hl.
  destruct Hp as [<-|Hp]; simpl fst; simpl snd.
  - lia.
  - destruct (IH b Hs p Hp) as [H1 H2]. lia.
Qed.

(** Every row from the first cut to the last lies in one slice, and in one
    only. *)
Lemma slicesOf_partition (a : Z) (l : list Z) :
  StronglySorted Z.lt (a :: l) ->
  forall y, (a <= y < last (a :: l) a)%Z ->
    exists p, In p (slicesOf (a :: l)) /\ (fst p <= y < snd p)%Z
              /\ forall q, In q (slicesOf (a :: l)) -> (fst q <= y < snd q)%Z -> q = p.
Proof.
  revert a. induction l as [|b l IH]; intros a Hs y Hy; [simpl in Hy; lia|].
  assert (Hl : last (a :: b :: l) a = last (b :: l) b) by apply last_cons2.
  rewrite Hl in Hy. rewrite slicesOf_cons2.
  pose proof Hs as Hs0.
  apply StronglySorted_inv in Hs. destruct Hs as [Hs Ha]. rewrite Forall_forall in Ha.
  assert (Hab : (a < b)%Z) by (apply Ha; left; reflexivity).
  destruct (Z_lt_ge_dec y b) as [Hyb|Hyb].
  - exists (a, b). split; [left; reflexivity|]. split; [simpl; lia|].
    intros q [<-|Hq] Hyq; [reflexivity|].
    destruct (slicesOf_bounds b l Hs q Hq) as [H1 _]. lia.
  - destruct (IH b Hs y ltac:(lia)) as (p & Hp & Hyp & Huniq).
    exists p. split; [right; exact Hp|]. split; [exact Hyp|].
    intros q [<-|Hq] Hyq; [simpl in Hyq; lia|]. apply Huniq; assumption.
Qed.

(** X6.  When [findCutPoints] returns cuts that keep the contract (at least
    two, from 0 to [H], strictly increasing), [analyzePageForSlicing]
    returns one slice less than there are cuts, each slice is at least one
    row high, and every row of the page lies in exactly one slice. *)
Theorem slices_tile_the_page (imageData : ImageData) (viewportHeight scale : Q)
    (fuel : nat) (cuts : list Z) :
  findCutPoints fuel imageData (viewportHeight * scale * (1 # 2)) noOverrides
  = Some cuts ->
  validCuts (Z.of_nat (height imageData)) cuts ->
  analyzePageForSlicing fuel imageData viewportHeight scale = Some (slicesOf cuts)
  /\ length (slicesOf cuts) = (length cuts - 1)%nat
  /\ (forall p, In p (slicesOf cuts) -> (0 <= fst p < snd p)%Z)
  /\ (forall y, (0 <= y < Z.of_nat (height imageData))%Z ->
        exists p, In p (slicesOf cuts) /\ (fst p <= y < snd p)%Z
                  /\ forall q, In q (slicesOf cuts) ->
                               (fst q <= y < snd q)%Z -> q = p).
Proof.
  intros Hcuts (Hlen & Hhd & Hlast & Hs).
  split; [unfold analyzePageForSlicing; rewrite Hcuts; reflexivity|].
  split; [apply slicesOf_length|].
  destruct cuts as [|a l]; [discriminate|]. injection Hhd as ->.
  split.
  - intros p Hp. destruct (slicesOf_bounds 0 l Hs p Hp) as [H _]. exact H.
  - intros y Hy. apply slicesOf_partition; [exact Hs|]. rewrite Hlast. exact Hy.
Qed.

Lemma slices_tile_the_page_witness :
  analyzePageForSlicing 0 pageB 350 2 = Some (slicesOf [0; 300; 700; 1000]%Z)
  /\ length (slicesOf [0; 300; 700; 1000]%Z) = 3%nat
  /\ (forall p, In p (slicesOf [0; 300; 700; 1000]%Z) -> (0 <= fst p < snd p)%Z)
  /\ (forall y, (0 <= y < Z.of_nat (height pageB))%Z ->
        exists p, In p (slicesOf [0; 300; 700; 1000]%Z) /\ (fst p <= y < snd p)%Z
                  /\ forall q, In q (slicesOf [0; 300; 700; 1000]%Z) ->
                               (fst q <= y < snd q)%Z -> q = p).
Proof.
  apply (slices_tile_the_page pageB 350 2 0 [0; 300; 700; 1000]%Z).
  - vm_compute. reflexivity.
  - repeat split.
    + simpl. lia.
    + repeat constructor.
Defined.

(** ** Fuel *)

(** More fuel does not change a result. *)
Lemma evenCutsLoop_more_fuel (height : Z) (targetHeight : Q) (fuel : nat) :
  forall fuel' cuts current result,
    evenCutsLoop fuel height targetHeight cuts current = Some result ->
    (fuel <= fuel')%nat ->
    evenCutsLoop fuel' height targetHeight cuts current = Some result.
Proof.
  induction fuel as [|fuel IH]; intros fuel' cuts current result H Hle;
    [discriminate|].
  destruct fuel' as [|fuel']; [lia|]. simpl in *.
  destruct (Qlt_bool current _); [|exact H].
  apply IH; [exact H|lia].
Qed.

Lemma generateEvenCuts_more_fuel (height : Z) (targetHeight : Q)
    (fuel fuel' : nat) (result : list Z) :
  generateEvenCuts fuel height targetHeight = Some result ->
  (fuel <= fuel')%nat ->
  generateEvenCuts fuel' height targetHeight = Some result.
Proof.
  unfold generateEvenCuts. intros H Hle.
  destruct (evenCutsLoop fuel _ _ _ _) as [cuts|] eqn:E; [|discriminate].
  rewrite (evenCutsLoop_more_fuel _ _ _ _ _ _ _ E Hle). exact H.
Qed.

(** X7.  [generateEvenCuts] with an integer target.  For a positive one it
    returns after [evenCutCount + 1] tests of its loop, with 0, the
    multiples of the target that lie more than [0.3 * T] before the end,
    and the height.  For a target that is 0 or negative it returns only if
    the loop condition fails at the first test, with [[0, height]];
    otherwise [current] never reaches the bound and the loop does not
    end. *)
Theorem generateEvenCuts_termination (height t : Z) :
  let targetHeight := inject_Z t in
  ((0 < t)%Z ->
   forall fuel, (evenCutCount height targetHeight < fuel)%nat ->
     generateEvenCuts fuel height targetHeight
     = Some (0%Z :: map (fun j => (Z.of_nat j * t)%Z)
                        (seq 1 (evenCutCount height targetHeight))
             ++ [height]))
  /\ ((t <= 0)%Z ->
      inject_Z height - targetHeight * (3 # 10) <= targetHeight ->
      forall fuel, (0 < fuel)%nat ->
        generateEvenCuts fuel height targetHeight = Some [0%Z; height])
  /\ ((t <= 0)%Z ->
      targetHeight < inject_Z height - targetHeight * (3 # 10) ->
      forall fuel, generateEvenCuts fuel height targetHeight = None).
Proof.
  intro targetHeight. split; [|split].
  - intros Ht fuel Hfuel. apply generateEvenCuts_integer; assumption.
  - intros _ Hout fuel Hfuel. destruct fuel as [|fuel]; [lia|].
    unfold generateEvenCuts. simpl.
    apply Qlt_bool_false_iff in Hout. rewrite Hout. reflexivity.
  - intros Ht Hin fuel. unfold generateEvenCuts.
    rewrite evenCutsLoop_diverges; [reflexivity| |exact Hin].
    unfold targetHeight. change 0 with (inject_Z 0). rewrite <- Zle_Qle. exact Ht.
Qed.

Lemma generateEvenCuts_termination_witness :
  generateEvenCuts 4 1000 (inject_Z 300) = Some [0; 300; 600; 900; 1000]%Z
  /\ generateEvenCuts 1 (-5) (inject_Z (-1)) = Some [0; -5]%Z
  /\ (forall fuel, generateEvenCuts fuel 10 (inject_Z 0) = None).
Proof.
  split; [|split].
  - destruct (generateEvenCuts_termination 1000 300) as (H & _).
    apply H; [reflexivity|vm_compute; lia].
  - destruct (generateEvenCuts_termination (-5) (-1)) as (_ & H & _).
    apply H; [discriminate|discriminate|lia].
  - destruct (generateEvenCuts_termination 10 0) as (_ & _ & H).
    apply H; [discriminate|reflexivity].
Defined.

(** ** The contract of the cut points *)

(** X8.  On a page with at least one gap, [findCutPoints] returns whatever
    the fuel.  When the height is clear of the rounding of [0.3 * T], what
    it returns keeps the contract (at least two cuts, from 0 to [H],
    strictly increasing) exactly when [H > 0.3 * T]; otherwise it is the
    single cut [[H]]. *)
Theorem contract_on_pages_with_gaps (imageData : ImageData) (targetSliceHeight : Q)
    (config : PartialConfig) :
  detectGaps imageData (mergeConfig config) <> [] ->
  clearOfRounding targetSliceHeight (inject_Z (Z.of_nat (height imageData))) ->
  exists cuts,
    (forall fuel, findCutPoints fuel imageData targetSliceHeight config = Some cuts)
    /\ (validCuts (Z.of_nat (height imageData)) cuts
        <-> targetSliceHeight * (3 # 10) < inject_Z (Z.of_nat (height imageData)))
    /\ (inject_Z (Z.of_nat (height imageData)) <= targetSliceHeight * (3 # 10) ->
        cuts = [Z.of_nat (height imageData)]).
Proof.
  intros Hne _.
  destruct (Qlt_le_dec (targetSliceHeight * (3 # 10))
              (inject_Z (Z.of_nat (height imageData)))) as [Htall|Hshort].
  - destruct (findCutPoints_valid_with_gaps imageData targetSliceHeight config Hne Htall)
      as (cuts & Hcuts & Hvalid).
    exists cuts. split; [exact Hcuts|]. split; [tauto|].
    intro H. exfalso. exact (Qlt_not_le _ _ Htall H).
  - exists [Z.of_nat (height imageData)].
    split; [intro fuel; apply findCutPoints_single_cut; assumption|].
    split; [|reflexivity]. split.
    + intros (Hlen & _). simpl in Hlen. lia.
    + intro H. exfalso. exact (Qlt_not_le _ _ H Hshort).
Qed.

Lemma contract_on_pages_with_gaps_witness :
  exists cuts,
    (forall fuel, findCutPoints fuel shortPage 150 noOverrides = Some cuts)
    /\ (validCuts (Z.of_nat (height shortPage)) cuts
        <-> 150 * (3 # 10) < inject_Z (Z.of_nat (height shortPage)))
    /\ (inject_Z (Z.of_nat (height shortPage)) <= 150 * (3 # 10) ->
        cuts = [Z.of_nat (height shortPage)]).
Proof.
  apply (contract_on_pages_with_gaps shortPage 150 noOverrides).
  - vm_compute. discriminate.
  - right. vm_compute. reflexivity.
Defined.

(** X9.  On a page without gaps, of positive height, [findCutPoints] keeps
    the contract for every target of at least [5/3]: with enough fuel for
    the loop it returns at least two cuts, from 0 to [H], strictly
    increasing. *)
Theorem contract_on_pages_without_gaps (imageData : ImageData)
    (targetSliceHeight : Q) (config : PartialConfig) :
  detectGaps imageData (mergeConfig config) = [] ->
  (0 < height imageData)%nat ->
  5 # 3 <= targetSliceHeight ->
  exists cuts,
    (forall fuel,
       (evenCutCount (Z.of_nat (height imageData)) targetSliceHeight < fuel)%nat ->
       findCutPoints fuel imageData targetSliceHeight config = Some cuts)
    /\ validCuts (Z.of_nat (height imageData)) cuts.
Proof.
  intros Hnil HH HT.
  destruct (findCutPoints_valid_fallback imageData targetSliceHeight config Hnil HH HT)
    as (cuts & Hcuts & Hvalid).
  exists cuts. split; assumption.
Qed.

Lemma contract_on_pages_without_gaps_witness :
  exists cuts,
    (forall fuel, (evenCutCount (Z.of_nat (height blackPage)) 3 < fuel)%nat ->
                  findCutPoints fuel blackPage 3 noOverrides = Some cuts)
    /\ validCuts (Z.of_nat (height blackPage)) cuts.
Proof.
  apply (contract_on_pages_without_gaps blackPage 3 noOverrides).
  - reflexivity.
  - simpl. lia.
  - discriminate.
Defined.

Lemma slicesTaller_snoc (d : Q) (l : list Z) (x : Z) :
  l <> [] -> slicesTaller d l -> d < inject_Z (x - last l 0%Z) ->
  slicesTaller d (l ++ [x]).
Proof.
  intros Hne Hl Hx p Hp. rewrite slicesOf_snoc in Hp by exact Hne.
  apply in_app_iff in Hp. destruct Hp as [Hp|[<-|[]]]; [apply Hl; exact Hp|exact Hx].
Qed.

Lemma slicesTaller_app_l (d : Q) (l : list Z) (x : Z) :
  l <> [] -> slicesTaller d (l ++ [x]) -> slicesTaller d l.
Proof.
  intros Hne H p Hp. apply H. rewrite slicesOf_snoc by exact Hne.
  apply in_app_iff. left. exact Hp.
Qed.

(** The loop keeps its cuts more than [0.5 * T - 1] apart, and the last of
    them at most half a row below [lastCut]. *)
Lemma fold_selectStep_spacing (T : Q) (rest : list WhitespaceGap) :
  0 < T ->
  forall cutPoints lastCut,
    cutPoints <> [] ->
    inject_Z (last cutPoints 0%Z) <= lastCut + (1 # 2) ->
    slicesTaller (T * (1 # 2) - 1) cutPoints ->
    let st := fold_left (selectStep T) rest (cutPoints, lastCut) in
    fst st <> []
    /\ inject_Z (last (fst st) 0%Z) <= snd st + (1 # 2)
    /\ slicesTaller (T * (1 # 2) - 1) (fst st).
Proof.
  intro HT. induction rest as [|gap rest IH]; intros cutPoints lastCut Hne Hlast Hsp.
  - simpl. repeat split; assumption.
  - simpl fold_left.
    remember (selectStep T (cutPoints, lastCut) gap) as st1 eqn:Est.
    unfold selectStep in Est.
    pose proof (branchOf_not_Secondary T lastCut gap HT) as Hsec.
    destruct (branchOf T lastCut gap) eqn:Eb; subst st1; [|congruence|].
    + apply IH.
      * destruct cutPoints; discriminate.
      * rewrite last_last. apply Math_round_le.
      * apply slicesTaller_snoc; [exact Hne|exact Hsp|].
        unfold branchOf in Eb.
        destruct (Qle_bool (T * (1 # 2)) (centerY gap - lastCut)) eqn:E;
          [|destruct (_ && _); discriminate].
        apply Qle_bool_iff in E.
        pose proof (Math_round_gt (centerY gap)) as Hgt.
        unfold Z.sub. rewrite inject_Z_plus, inject_Z_opp. lra.
    + apply IH; assumption.
Qed.

(** The cuts of the fallback are more than [T - 1] apart. *)
Lemma evenCuts_spacing (T : Q) (k : nat) :
  0 < T ->
  slicesTaller (T - 1)
    (0%Z :: map (fun j => Math_round (evenPosition T j)) (seq 1 k))
  /\ inject_Z (last (0%Z :: map (fun j => Math_round (evenPosition T j)) (seq 1 k)) 0%Z)
     <= evenPosition T k + (1 # 2).
Proof.
  intro HT. induction k as [|k [IHs IHl]].
  - split; [intros p []|]. unfold evenPosition.
    change (inject_Z (last (0%Z :: map _ (seq 1 0)) 0%Z)) with 0.
    change (inject_Z (Z.of_nat 0)) with 0. lra.
  - rewrite seq_S, map_app. simpl map.
    change (0%Z :: ?l ++ [?x]) with ((0%Z :: l) ++ [x]).
    rewrite last_last. split; [|apply Math_round_le].
    apply slicesTaller_snoc; [discriminate|exact IHs|].
    pose proof (Math_round_gt (evenPosition T (1 + k))) as Hgt.
    unfold Z.sub. rewrite inject_Z_plus, inject_Z_opp.
    assert (Hstep : evenPosition T (1 + k) == evenPosition T k + T).
    { unfold evenPosition. rewrite Nat2Z.inj_add, inject_Z_plus.
      change (inject_Z (Z.of_nat 1)) with 1. ring. }
    change (1 + k)%nat with (S k) in *. lra.
Qed.

(** X10.  For a target of at least [5/2] and a page taller than [0.3 * T],
    no slice is a sliver: whatever [findCutPoints] returns, consecutive
    cut points are more than [0.3 * T - 1/2] rows apart. *)
Theorem no_short_slices (imageData : ImageData) (targetSliceHeight : Q)
    (config : PartialConfig) (fuel : nat) (cuts : list Z) :
  5 # 2 <= targetSliceHeight ->
  targetSliceHeight * (3 # 10) < inject_Z (Z.of_nat (height imageData)) ->
  findCutPoints fuel imageData targetSliceHeight config = Some cuts ->
  forall a b, In (a, b) (slicesOf cuts) ->
              targetSliceHeight * (3 # 10) - (1 # 2) < inject_Z (b - a).
Proof.
  intros HT Htall Hcuts.
  set (H := Z.of_nat (height imageData)) in *.
  assert (HT0 : 0 < targetSliceHeight) by lra.
  assert (Hgoal : slicesTaller (targetSliceHeight * (3 # 10) - (1 # 2)) cuts);
    [|intros a b Hab; exact (Hgoal (a, b) Hab)].
  destruct (detectGaps imageData (mergeConfig config)) as [|g0 rest] eqn:Egaps.
  - (* the fallback *)
    rewrite (findCutPoints_no_gaps _ _ _ _ Egaps) in Hcuts. fold H in Hcuts.
    set (k := evenCutCount H targetSliceHeight).
    apply generateEvenCuts_more_fuel with (fuel' := (fuel + S k)%nat) in Hcuts; [|lia].
    rewrite generateEvenCuts_positive in Hcuts by (assumption || (fold k; lia)).
    fold k in Hcuts. injection Hcuts as Hcuts. subst cuts.
    destruct (evenCuts_spacing targetSliceHeight k HT0) as [Hsp Hlast].
    change (0%Z :: ?l ++ [H]) with ((0%Z :: l) ++ [H]).
    apply slicesTaller_snoc; [discriminate| |].
    + intros p Hp. specialize (Hsp p Hp). lra.
    + unfold Z.sub. rewrite inject_Z_plus, inject_Z_opp.
      destruct k as [|k'] eqn:Ek.
      * simpl. change (inject_Z 0) with 0. lra.
      * pose proof (evenCutCount_inside H targetSliceHeight (S k') HT0) as Hin.
        fold k in Hin. rewrite Ek in Hin. specialize (Hin ltac:(lia)). lra.
  - (* the selection *)
    assert (Hne : detectGaps imageData (mergeConfig config) <> [])
      by (rewrite Egaps; discriminate).
    clear Egaps g0 rest.
    rewrite (findCutPoints_gaps _ _ _ _ Hne) in Hcuts.
    injection Hcuts as Hcuts. subst cuts. fold H.
    unfold selectFromGaps. rewrite sortGaps_detectGaps.
    destruct (detectGaps_spaced imageData (mergeConfig config)) as [Hspaced Hinside].
    rewrite Forall_forall in Hinside. fold H in Hinside.
    pose proof (fold_selectStep_spacing targetSliceHeight
                  (detectGaps imageData (mergeConfig config)) HT0 [0%Z] 0
                  ltac:(discriminate) ltac:(simpl; discriminate)
                  ltac:(intros p [])) as (Hne' & Hlast & Hsp).
    destruct (fold_selectStep_cuts targetSliceHeight H
                (detectGaps imageData (mergeConfig config)) [0%Z] 0)
      as [(_ & _ & Hlt & _) _].
    + apply StronglySorted_weaken with (R := fun a b => centerY a + 2 <= centerY b);
        [|exact Hspaced].
      intros a b _ _ Hab. apply Math_round_lt. lra.
    + intros g Hg. apply Math_round_below. destruct (Hinside g Hg). lra.
    + repeat split.
      * constructor; constructor.
      * intros c [<-|[]]. change 0 with (inject_Z 0) in Htall.
        assert (Hq : inject_Z 0 < inject_Z H) by (change (inject_Z 0) with 0; lra).
        rewrite <- Zlt_Qlt in Hq. exact Hq.
      * intros c g [<-|[]] Hg. apply Math_round_pos. destruct (Hinside g Hg). assumption.
    + left. split; reflexivity.
    + destruct (fold_left _ _ _) as [cutPoints lastCut]. simpl in *.
      assert (Hsp' : slicesTaller (targetSliceHeight * (3 # 10) - (1 # 2)) cutPoints)
        by (intros p Hp; specialize (Hsp p Hp); lra).
      destruct (Qlt_bool _ _) eqn:E.
      * apply Qlt_bool_iff in E. apply slicesTaller_snoc; [exact Hne'|exact Hsp'|].
        unfold Z.sub. rewrite inject_Z_plus, inject_Z_opp. lra.
      * destruct (exists_last Hne') as (l & x & ->).
        unfold setLast. rewrite removelast_last.
        destruct l as [|a l]; [intros p []|].
        change ((a :: l) ++ [x]) with (a :: (l ++ [x])).
        cbv beta iota.
        apply slicesTaller_snoc; [discriminate| |].
        -- apply slicesTaller_app_l with (x := x); [discriminate|exact Hsp'].
        -- assert (Hx : (x < H)%Z) by (apply Hlt; apply in_app_iff; right; left; reflexivity).
           assert (Hprev := Hsp (last (a :: l) 0%Z, x)).
           rewrite slicesOf_snoc in Hprev by discriminate.
           specialize (Hprev ltac:(apply in_app_iff; right; left; reflexivity)).
           cbn [fst snd] in Hprev.
           rewrite Zlt_Qlt in Hx.
           unfold Z.sub in *. rewrite inject_Z_plus, inject_Z_opp in *. lra.
Qed.

(** ** The loops of the page slicer *)

Lemma sliceStep_eq (documentId : String.string) (pageIdx : nat)
    (page : PageRenderResult.t) (pageText : option PageTextContent.t)
    (allSlices : list SliceInfo.t) (effects : list Effect) (g : nat)
    (e : nat * (Z * Z)) :
  sliceStep documentId pageIdx page pageText (allSlices, effects, g) e
  = (allSlices ++ [sliceInfoAt documentId pageIdx page pageText (g, e)],
     effects ++ [SaveSlice (storedSliceOf
                              (sliceInfoAt documentId pageIdx page pageText (g, e)))],
     S g).
Proof. destruct e as [sliceIdx [startY endY]]. reflexivity. Qed.

Lemma fold_sliceStep (documentId : String.string) (pageIdx : nat)
    (page : PageRenderResult.t) (pageText : option PageTextContent.t)
    (l : list (nat * (Z * Z))) :
  forall allSlices effects g,
    fold_left (sliceStep documentId pageIdx page pageText) l (allSlices, effects, g)
    = (allSlices
       ++ map (sliceInfoAt documentId pageIdx page pageText)
              (combine (seq g (length l)) l),
       effects
       ++ map (fun e => SaveSlice (storedSliceOf
                          (sliceInfoAt documentId pageIdx page pageText e)))
              (combine (seq g (length l)) l),
       (g + length l)%nat).
Proof.
  induction l as [|[sliceIdx [startY endY]] l IH]; intros allSlices effects g.
  - simpl. rewrite !app_nil_r, Nat.add_0_r. reflexivity.
  - cbn [fold_left]. rewrite sliceStep_eq, IH.
    simpl length. simpl seq. simpl combine. simpl map.
    rewrite <- !app_assoc. simpl app.
    replace (S g + length l)%nat with (g + S (length l))%nat by lia.
    reflexivity.
Qed.

Lemma savedSlices_app (a b : list Effect) :
  savedSlices (a ++ b) = savedSlices a ++ savedSlices b.
Proof. unfold savedSlices. apply flat_map_app. Qed.

Lemma savedSlices_saves {A : Type} (f : A -> StoredSlice.t) (l : list A) :
  savedSlices (map (fun e => SaveSlice (f e)) l) = map f l.
Proof.
  induction l as [|e l IH]; [reflexivity|].
  change (savedSlices (map (fun e => SaveSlice (f e)) (e :: l)))
    with (f e :: savedSlices (map (fun e => SaveSlice (f e)) l)).
  rewrite IH. reflexivity.
Qed.

(** The loop over the pages returns when the analysis of every page does,
    and then it has pushed the slices of the pages in order, saved each of
    them as it was pushed, and counted them. *)
Lemma pagesLoop_spec (fuel : nat) (documentId : String.string) (totalPages : nat)
    (textContents : list PageTextContent.t) (viewportHeight : Q)
    (pages : list PageRenderResult.t) :
  forall pageIdx allSlices effects g allSlices' effects' g',
    pagesLoop fuel documentId totalPages textContents viewportHeight pages pageIdx
      (allSlices, effects, g) = Some (allSlices', effects', g') ->
    exists boundsList,
      Forall2 (fun page bounds =>
                 analyzePageForSlicing fuel (PageRenderResult.imageData page)
                   viewportHeight 2 = Some bounds) pages boundsList
      /\ allSlices' = allSlices
                      ++ slicesFrom documentId textContents pageIdx g
                           (combine pages boundsList)
      /\ savedSlices effects'
         = savedSlices effects
           ++ map storedSliceOf
                (slicesFrom documentId textContents pageIdx g
                   (combine pages boundsList))
      /\ g' = (g + length (slicesFrom documentId textContents pageIdx g
                             (combine pages boundsList)))%nat.
Proof.
  induction pages as [|page rest IH];
    intros pageIdx allSlices effects g allSlices' effects' g' Hloop.
  - simpl in Hloop. injection Hloop as <- <- <-. exists [].
    split; [constructor|]. simpl. rewrite !app_nil_r, Nat.add_0_r. repeat split.
  - simpl in Hloop.
    destruct (analyzePageForSlicing fuel (PageRenderResult.imageData page)
                viewportHeight 2) as [bounds|] eqn:Eb; [|discriminate].
    rewrite fold_sliceStep in Hloop.
    apply IH in Hloop. destruct Hloop as (boundsList & Hall & Hs & Hsaved & Hg).
    exists (bounds :: boundsList). split; [constructor; assumption|].
    unfold indexed in *. rewrite length_combine, length_seq, Nat.min_id in *.
    simpl combine. simpl slicesFrom. unfold pageSlices, indexed.
    set (these := map (sliceInfoAt documentId pageIdx page (nth_error textContents pageIdx))
                    (combine (seq g (length bounds))
                       (combine (seq 0 (length bounds)) bounds))) in *.
    set (others := slicesFrom documentId textContents (S pageIdx) (g + length bounds)
                     (combine rest boundsList)) in *.
    split; [rewrite Hs, app_assoc; reflexivity|]. split.
    + rewrite Hsaved, !savedSlices_app, savedSlices_saves.
      change (savedSlices [Progress _]) with (@nil StoredSlice.t).
      rewrite app_nil_r, map_app, <- app_assoc. unfold these.
      rewrite map_map. reflexivity.
    + rewrite Hg, length_app. unfold these.
      rewrite length_map, !length_combine, !length_seq, !Nat.min_id. lia.
Qed.

(** ** Slice identifiers *)

Lemma decimal_inj (n m : nat) : decimal n = decimal m -> n = m.
Proof.
  unfold decimal. intro H.
  assert (E : Some (Nat.to_uint n) = Some (Nat.to_uint m)).
  { rewrite <- !DecimalString.NilEmpty.usu. rewrite H. reflexivity. }
  injection E as E.
  rewrite <- (DecimalNat.Unsigned.of_to n), <- (DecimalNat.Unsigned.of_to m), E.
  reflexivity.
Qed.

Lemma decimal_noHyphen (n : nat) : noHyphen (decimal n).
Proof.
  unfold decimal. generalize (Nat.to_uint n) as d.
  induction d; simpl; try exact I; (split; [discriminate|assumption]).
Qed.

Lemma append_inj_l (a b c : String.string) :
  String.append a b = String.append a c -> b = c.
Proof.
  induction a as [|ch a IH]; simpl; intro H; [exact H|].
  injection H as H. apply IH. exact H.
Qed.

(** Two strings that agree up to and after their first hyphen agree. *)
Lemma split_at_hyphen (u u' r r' : String.string) :
  noHyphen u -> noHyphen u' ->
  String.append u (String.String "-"%char r)
  = String.append u' (String.String "-"%char r') ->
  u = u' /\ r = r'.
Proof.
  revert u'. induction u as [|c u IH]; intros [|c' u'] Hu Hu' H; simpl in *.
  - injection H as H. split; [reflexivity|exact H].
  - injection H as Hc _. destruct Hu' as [Hc' _]. congruence.
  - injection H as Hc _. destruct Hu as [Hc' _]. congruence.
  - injection H as Hc H. destruct Hu as [_ Hu]. destruct Hu' as [_ Hu'].
    destruct (IH u' Hu Hu' H) as [-> ->]. subst c'. split; reflexivity.
Qed.

(** For one document, the identifier tells the page number and the index
    of the slice. *)
Lemma sliceIdOf_inj (documentId : String.string) (p s p' s' : nat) :
  sliceIdOf documentId p s = sliceIdOf documentId p' s' -> p = p' /\ s = s'.
Proof.
  unfold sliceIdOf. intro H. apply append_inj_l in H.
  apply (append_inj_l "-p"%string) in H.
  change (String.append "-s" ?r) with (String.String "-"%char (String.String "s"%char r)) in H.
  apply split_at_hyphen in H; try apply decimal_noHyphen.
  destruct H as [Hp Hs]. injection Hs as Hs.
  split; apply decimal_inj; assumption.
Qed.

(** ** The slices of one page and of all pages *)

Lemma In_indexed_from {A : Type} (l : list A) :
  forall g k gi j (a : A),
    In (gi, (j, a)) (combine (seq g (length l)) (combine (seq k (length l)) l))
    <-> exists i, nth_error l i = Some a /\ gi = (g + i)%nat /\ j = (k + i)%nat.
Proof.
  induction l as [|x l IH]; intros g k gi j a; simpl.
  - split; [intros []|]. intros ([|i] & H & _); discriminate.
  - rewrite IH. split.
    + intros [H|(i & Hi & -> & ->)].
      * injection H as <- <- <-. exists 0%nat. repeat split; lia.
      * exists (S i). repeat split; try lia. exact Hi.
    + intros ([|i] & Hi & -> & ->).
      * left. simpl in Hi. injection Hi as ->. rewrite !Nat.add_0_r. reflexivity.
      * right. exists i. repeat split; try lia. exact Hi.
Qed.

Lemma In_pageSlices (documentId : String.string)
    (textContents : list PageTextContent.t) (pageIdx g : nat)
    (page : PageRenderResult.t) (bounds : list (Z * Z)) (s : SliceInfo.t) :
  In s (pageSlices documentId textContents pageIdx g page bounds)
  <-> exists j b, nth_error bounds j = Some b
                  /\ s = sliceInfoAt documentId pageIdx page
                           (nth_error textContents pageIdx) ((g + j)%nat, (j, b)).
Proof.
  unfold pageSlices, indexed. rewrite in_map_iff. split.
  - intros ([gi [j b]] & <- & Hin). apply In_indexed_from in Hin.
    destruct Hin as (i & Hi & -> & ->). exists i, b. split; [exact Hi|reflexivity].
  - intros (j & b & Hj & ->). exists ((g + j)%nat, (j, b)). split; [reflexivity|].
    apply In_indexed_from. exists j. repeat split. exact Hj.
Qed.

Lemma pageSlices_length (documentId : String.string)
    (textContents : list PageTextContent.t) (pageIdx g : nat)
    (page : PageRenderResult.t) (bounds : list (Z * Z)) :
  length (pageSlices documentId textContents pageIdx g page bounds) = length bounds.
Proof.
  unfold pageSlices, indexed.
  rewrite length_map, !length_combine, !length_seq, !Nat.min_id. reflexivity.
Qed.

Lemma pageSlices_globalIndex (documentId : String.string)
    (textContents : list PageTextContent.t) (pageIdx : nat)
    (page : PageRenderResult.t) (bounds : list (Z * Z)) :
  forall g,
    map SliceInfo.globalIndex (pageSlices documentId textContents pageIdx g page bounds)
    = seq g (length bounds).
Proof.
  unfold pageSlices, indexed. generalize 0%nat as k.
  induction bounds as [|[a b] bounds IH]; intros k g; [reflexivity|].
  simpl. rewrite IH. reflexivity.
Qed.

Lemma slicesFrom_globalIndex (documentId : String.string)
    (textContents : list PageTextContent.t)
    (pages : list (PageRenderResult.t * list (Z * Z))) :
  forall pageIdx g,
    map SliceInfo.globalIndex (slicesFrom documentId textContents pageIdx g pages)
    = seq g (length (slicesFrom documentId textContents pageIdx g pages)).
Proof.
  induction pages as [|[page bounds] rest IH]; intros pageIdx g; [reflexivity|].
  simpl slicesFrom. rewrite map_app, length_app, seq_app, IH.
  rewrite pageSlices_globalIndex, pageSlices_length. reflexivity.
Qed.

(** Where a slice of [slicesFrom] comes from. *)
Lemma In_slicesFrom (documentId : String.string)
    (textContents : list PageTextContent.t)
    (pages : list (PageRenderResult.t * list (Z * Z))) (s : SliceInfo.t) :
  forall pageIdx g,
    In s (slicesFrom documentId textContents pageIdx g pages) ->
    exists k page bounds j b gi,
      nth_error pages k = Some (page, bounds)
      /\ nth_error bounds j = Some b
      /\ s = sliceInfoAt documentId (pageIdx + k) page
               (nth_error textContents (pageIdx + k)) (gi, (j, b)).
Proof.
  induction pages as [|[page bounds] rest IH]; intros pageIdx g; [intros []|].
  simpl slicesFrom. rewrite in_app_iff, In_pageSlices.
  intros [(j & b & Hj & ->)|Hin].
  - exists 0%nat, page, bounds, j, b, (g + j)%nat.
    rewrite Nat.add_0_r. repeat split. exact Hj.
  - apply IH in Hin. destruct Hin as (k & page' & bounds' & j & b & gi & Hk & Hj & ->).
    exists (S k), page', bounds', j, b, gi.
    replace (pageIdx + S k)%nat with (S pageIdx + k)%nat by lia.
    repeat split; assumption.
Qed.

(** Every pair of bounds of every page gives a slice. *)
Lemma slicesFrom_contains (documentId : String.string)
    (textContents : list PageTextContent.t)
    (pages : list (PageRenderResult.t * list (Z * Z))) :
  forall pageIdx g k page bounds j b,
    nth_error pages k = Some (page, bounds) ->
    nth_error bounds j = Some b ->
    exists gi,
      In (sliceInfoAt documentId (pageIdx + k) page
            (nth_error textContents (pageIdx + k)) (gi, (j, b)))
         (slicesFrom documentId textContents pageIdx g pages).
Proof.
  induction pages as [|[page0 bounds0] rest IH];
    intros pageIdx g k page bounds j b Hk Hj; [destruct k; discriminate|].
  simpl slicesFrom. destruct k as [|k].
  - simpl in Hk. injection Hk as -> ->. exists (g + j)%nat.
    apply in_app_iff. left. apply In_pageSlices. exists j, b.
    rewrite Nat.add_0_r. split; [exact Hj|reflexivity].
  - simpl in Hk.
    destruct (IH (S pageIdx) (g + length bounds0)%nat k page bounds j b Hk Hj)
      as (gi & Hin).
    exists gi. apply in_app_iff. right.
    replace (pageIdx + S k)%nat with (S pageIdx + k)%nat by lia. exact Hin.
Qed.

(** ** [processDocumentSlices] as a whole *)

Lemma pagesLoop_effects (fuel : nat) (documentId : String.string) (totalPages : nat)
    (textContents : list PageTextContent.t) (viewportHeight : Q)
    (pages : list PageRenderResult.t) :
  forall pageIdx allSlices effects g allSlices' effects' g',
    pagesLoop fuel documentId totalPages textContents viewportHeight pages pageIdx
      (allSlices, effects, g) = Some (allSlices', effects', g') ->
    exists more, effects' = effects ++ more.
Proof.
  induction pages as [|page rest IH];
    intros pageIdx allSlices effects g allSlices' effects' g' Hloop.
  - simpl in Hloop. injection Hloop as <- <- <-. exists []. rewrite app_nil_r. reflexivity.
  - simpl in Hloop.
    destruct (analyzePageForSlicing fuel _ viewportHeight 2) as [bounds|]; [|discriminate].
    rewrite fold_sliceStep in Hloop. apply IH in Hloop. destruct Hloop as (more & ->).
    rewrite <- !app_assoc. eexists. reflexivity.
Qed.

Lemma processDocumentSlices_spec (fuel : nat) (documentId : String.string)
    (renderedPages : list PageRenderResult.t)
    (textContents : list PageTextContent.t) (viewportHeight : Q)
    (slices : list SliceInfo.t) (effects : list Effect) :
  processDocumentSlices fuel documentId renderedPages textContents viewportHeight
  = Some (slices, effects) ->
  exists boundsList more,
    Forall2 (fun page bounds =>
               analyzePageForSlicing fuel (PageRenderResult.imageData page)
                 viewportHeight 2 = Some bounds) renderedPages boundsList
    /\ slices = slicesFrom documentId textContents 0 0 (combine renderedPages boundsList)
    /\ savedSlices effects = map storedSliceOf slices
    /\ effects
       = ClearSlices documentId :: more
         ++ [ Progress {| ProcessingProgress.phase := complete;
                          ProcessingProgress.currentPage := length renderedPages;
                          ProcessingProgress.totalPages := length renderedPages;
                          ProcessingProgress.currentSlice := length slices;
                          ProcessingProgress.totalSlices := length slices |} ].
Proof.
  unfold processDocumentSlices. intro H.
  destruct (pagesLoop _ _ _ _ _ _ _ _) as [[[allSlices effects0] g]|] eqn:Eloop;
    [|discriminate].
  injection H as <- <-.
  destruct (pagesLoop_spec _ _ _ _ _ _ _ _ _ _ _ _ _ Eloop)
    as (boundsList & Hall & Hs & Hsaved & Hg).
  destruct (pagesLoop_effects _ _ _ _ _ _ _ _ _ _ _ _ _ Eloop) as (more & ->).
  simpl in Hs, Hg. exists boundsList, more. split; [exact Hall|]. split; [exact Hs|].
  split.
  - rewrite savedSlices_app. change (savedSlices [Progress _]) with (@nil StoredSlice.t).
    rewrite app_nil_r, Hsaved, Hs. reflexivity.
  - rewrite Hg, Hs. reflexivity.
Qed.

(** X11.  The bookkeeping of a run of [processDocumentSlices] that returns.
    Its first effect is to clear the slices of the document and its last to
    report completion, with the number of pages as current and total page
    and the number of slices as current and total slice; in between it
    saves exactly the slices it returns, in the same order; the slice at
    position [i] has [globalIndex] [i], and every slice carries the
    document's identifier and the identifier
    [<documentId>-p<pageNumber>-s<sliceIndex>]. *)
Theorem processDocumentSlices_bookkeeping (fuel : nat) (documentId : String.string)
    (renderedPages : list PageRenderResult.t)
    (textContents : list PageTextContent.t) (viewportHeight : Q)
    (slices : list SliceInfo.t) (effects : list Effect) :
  processDocumentSlices fuel documentId renderedPages textContents viewportHeight
  = Some (slices, effects) ->
  map SliceInfo.globalIndex slices = seq 0 (length slices)
  /\ savedSlices effects = map storedSliceOf slices
  /\ hd_error effects = Some (ClearSlices documentId)
  /\ last effects (ClearSlices documentId)
     = Progress {| ProcessingProgress.phase := complete;
                   ProcessingProgress.currentPage := length renderedPages;
                   ProcessingProgress.totalPages := length renderedPages;
                   ProcessingProgress.currentSlice := length slices;
                   ProcessingProgress.totalSlices := length slices |}
  /\ Forall (fun s => SliceInfo.documentId s = documentId
                      /\ SliceInfo.id s
                         = sliceIdOf documentId (SliceInfo.pageNumber s)
                             (SliceInfo.sliceIndex s)) slices.
Proof.
  intro E.
  destruct (processDocumentSlices_spec _ _ _ _ _ _ _ E)
    as (boundsList & more & _ & Hs & Hsaved & Heff).
  split; [rewrite Hs; apply slicesFrom_globalIndex|].
  split; [exact Hsaved|]. split; [rewrite Heff; reflexivity|]. split.
  - rewrite Heff. change (ClearSlices documentId :: more ++ ?l)
      with ((ClearSlices documentId :: more) ++ l). apply last_last.
  - apply Forall_forall. intros s Hin. rewrite Hs in Hin.
    apply In_slicesFrom in Hin.
    destruct Hin as (k & page & bounds & j & [a b] & gi & _ & _ & ->).
    split; reflexivity.
Qed.

Lemma sliceBefore_iff (a b : StoredSlice.t) :
  sliceBefore a b = true <-> storedLt a b.
Proof.
  unfold sliceBefore, storedLt.
  destruct (Nat.eqb_spec (StoredSlice.pageNumber a) (StoredSlice.pageNumber b)) as [E|E].
  - rewrite Nat.ltb_lt. lia.
  - rewrite Nat.ltb_lt. lia.
Qed.

Lemma storedLe_trans (a b c : StoredSlice.t) :
  storedLe a b -> storedLe b c -> storedLe a c.
Proof. unfold storedLe, storedLt. lia. Qed.

Lemma storedLt_le (a b : StoredSlice.t) : storedLt a b -> storedLe a b.
Proof. unfold storedLe, storedLt. lia. Qed.

Lemma insertSlice_perm (s : StoredSlice.t) (l : list StoredSlice.t) :
  Permutation (insertSlice s l) (s :: l).
Proof.
  induction l as [|h t IH]; simpl; [reflexivity|].
  destruct (sliceBefore h s); [|reflexivity].
  rewrite IH. apply perm_swap.
Qed.

Lemma sortSlices_perm (l : list StoredSlice.t) : Permutation (sortSlices l) l.
Proof.
  induction l as [|s t IH]; simpl; [reflexivity|].
  rewrite insertSlice_perm. constructor. exact IH.
Qed.

Lemma insertSlice_sorted (s : StoredSlice.t) (l : list StoredSlice.t) :
  StronglySorted storedLe l -> StronglySorted storedLe (insertSlice s l).
Proof.
  induction 1 as [|h t Ht IH Hh]; simpl.
  - repeat constructor.
  - destruct (sliceBefore h s) eqn:E.
    + constructor; [exact IH|].
      apply sliceBefore_iff in E.
      rewrite Forall_forall in *. intros x Hx.
      apply (Permutation_in _ (insertSlice_perm s t)) in Hx.
      destruct Hx as [<-|Hx]; [apply storedLt_le; exact E|apply Hh; exact Hx].
    + assert (Hsh : storedLe s h).
      { unfold storedLe. rewrite <- sliceBefore_iff. congruence. }
      constructor; [constructor; assumption|].
      constructor; [exact Hsh|].
      rewrite Forall_forall in *. intros x Hx.
      apply storedLe_trans with h; [exact Hsh|apply Hh; exact Hx].
Qed.

Lemma sortSlices_sorted (l : list StoredSlice.t) :
  StronglySorted storedLe (sortSlices l).
Proof.
  induction l as [|s t IH]; simpl; [constructor|].
  apply insertSlice_sorted. exact IH.
Qed.

(** A list in strict order is the only sorted arrangement of its elements. *)
Lemma sorted_unique (l : list StoredSlice.t) :
  StronglySorted storedLt l ->
  forall l', StronglySorted storedLe l' -> Permutation l' l -> l' = l.
Proof.
  induction 1 as [|a l Hl IH Ha]; intros l' Hs' Hp.
  - apply Permutation_nil. symmetry. exact Hp.
  - destruct l' as [|b l'].
    { apply Permutation_nil_cons in Hp. destruct Hp. }
    apply StronglySorted_inv in Hs'. destruct Hs' as [Hs' Hb].
    rewrite Forall_forall in Ha, Hb.
    assert (b = a).
    { assert (Hbin : In b (a :: l)) by (apply (Permutation_in _ Hp); left; reflexivity).
      destruct Hbin as [<-|Hbin]; [reflexivity|].
      assert (Hain : In a (b :: l'))
        by (apply (Permutation_in _ (Permutation_sym Hp)); left; reflexivity).
      destruct Hain as [->|Hain]; [reflexivity|].
      exfalso. apply (Hb a Hain). apply Ha. exact Hbin. }
    subst b. f_equal. apply IH; [exact Hs'|].
    apply Permutation_cons_inv with a. exact Hp.
Qed.

(** X12.  [loadSlicesFromStorage] returns the stored slices, all of them
    and no other, by page number and then by slice index, the slice at
    position [i] with [globalIndex] [i], and with no size and no text. *)
Theorem loadSlicesFromStorage_ordered (documentId : String.string)
    (storedSlices : list StoredSlice.t) :
  let loaded := loadSlicesFromStorage documentId storedSlices in
  Permutation (map storedSliceOf loaded) storedSlices
  /\ StronglySorted storedLe (map storedSliceOf loaded)
  /\ map SliceInfo.globalIndex loaded = seq 0 (length storedSlices)
  /\ Forall (fun s => SliceInfo.width s = 0%Z /\ SliceInfo.height s = 0%Z
                      /\ SliceInfo.textItems s = []) loaded.
Proof.
  unfold loadSlicesFromStorage, indexed.
  assert (Hstored : forall (l : list StoredSlice.t) k,
            map storedSliceOf
              (map (fun '(globalIndex, slice) =>
                      {| SliceInfo.id := StoredSlice.id slice;
                         SliceInfo.documentId := StoredSlice.documentId slice;
                         SliceInfo.pageNumber := StoredSlice.pageNumber slice;
                         SliceInfo.sliceIndex := StoredSlice.sliceIndex slice;
                         SliceInfo.globalIndex := globalIndex;
                         SliceInfo.imageUrl := StoredSlice.imageData slice;
                         SliceInfo.startY := StoredSlice.startY slice;
                         SliceInfo.endY := StoredSlice.endY slice;
                         SliceInfo.overlapHeight := StoredSlice.overlapHeight slice;
                         SliceInfo.width := 0;
                         SliceInfo.height := 0;
                         SliceInfo.textItems := [] |})
                   (combine (seq k (length l)) l)) = l).
  { induction l as [|[] l IH]; intro k; [reflexivity|].
    simpl. f_equal. apply IH. }
  cbv zeta. rewrite Hstored.
  split; [apply sortSlices_perm|]. split; [apply sortSlices_sorted|]. split.
  - rewrite <- (Permutation_length (sortSlices_perm storedSlices)).
    generalize (sortSlices storedSlices) as l. generalize 0%nat as k.
    intros k l. revert k. induction l as [|s l IH]; intro k; [reflexivity|].
    simpl. rewrite IH. reflexivity.
  - apply Forall_forall. intros s Hs. apply in_map_iff in Hs.
    destruct Hs as ([gi st] & <- & _). repeat split.
Qed.

(** ** Saving and loading again *)

Lemma StronglySorted_app {A : Type} (R : A -> A -> Prop) (l1 l2 : list A) :
  StronglySorted R l1 -> StronglySorted R l2 ->
  (forall a b, In a l1 -> In b l2 -> R a b) ->
  StronglySorted R (l1 ++ l2).
Proof.
  induction 1 as [|a l1 Hl1 IH Ha]; intros H2 Hcross; simpl; [exact H2|].
  constructor.
  - apply IH; [exact H2|]. intros x y Hx Hy. apply Hcross; [right|]; assumption.
  - apply Forall_app. split; [exact Ha|].
    apply Forall_forall. intros y Hy. apply Hcross; [left; reflexivity|exact Hy].
Qed.

(** The slices of one page are in the order of their indices. *)
Lemma pageSlices_sorted (documentId : String.string)
    (textContents : list PageTextContent.t) (pageIdx g : nat)
    (page : PageRenderResult.t) (bounds : list (Z * Z)) :
  StronglySorted storedLt
    (map storedSliceOf (pageSlices documentId textContents pageIdx g page bounds)).
Proof.
  unfold pageSlices, indexed. generalize 0%nat as k. revert g.
  induction bounds as [|[a b] bounds IH]; intros g k; simpl; [constructor|].
  constructor; [apply IH|].
  apply Forall_forall. intros s Hs. apply in_map_iff in Hs.
  destruct Hs as (si & <- & Hsi). apply in_map_iff in Hsi.
  destruct Hsi as ([gi [j [a' b']]] & <- & Hin).
  apply In_indexed_from in Hin. destruct Hin as (i & _ & _ & ->).
  right. simpl. split; [reflexivity|lia].
Qed.

(** With the pages in the order of their numbers, the slices are in the
    order of [loadSlicesFromStorage]'s sort, strictly. *)
Lemma slicesFrom_sorted (documentId : String.string)
    (textContents : list PageTextContent.t)
    (pages : list (PageRenderResult.t * list (Z * Z))) :
  StronglySorted lt (map (fun p => PageRenderResult.pageNumber (fst p)) pages) ->
  forall pageIdx g,
    StronglySorted storedLt
      (map storedSliceOf (slicesFrom documentId textContents pageIdx g pages)).
Proof.
  induction pages as [|[page bounds] rest IH]; intros Hs pageIdx g; simpl;
    [constructor|].
  simpl in Hs. apply StronglySorted_inv in Hs. destruct Hs as [Hs Hpage].
  rewrite map_app. apply StronglySorted_app.
  - apply pageSlices_sorted.
  - apply IH. exact Hs.
  - intros x y Hx Hy. apply in_map_iff in Hx, Hy.
    destruct Hx as (sx & <- & Hx). destruct Hy as (sy & <- & Hy).
    apply In_pageSlices in Hx. destruct Hx as (j & [a b] & _ & ->).
    apply In_slicesFrom in Hy.
    destruct Hy as (k & page' & bounds' & j' & [a' b'] & gi & Hk & _ & ->).
    left. simpl. rewrite Forall_forall in Hpage. apply Hpage.
    apply in_map_iff. exists (page', bounds'). split; [reflexivity|].
    eapply nth_error_In. exact Hk.
Qed.

Lemma map_fst_combine {A B : Type} (f : A -> nat) (l : list A) (l' : list B) :
  length l = length l' ->
  map (fun p => f (fst p)) (combine l l') = map f l.
Proof.
  revert l'. induction l as [|a l IH]; intros [|b l'] H; simpl in *; try lia;
    [reflexivity|].
  f_equal. apply IH. lia.
Qed.

(** What [loadSlicesFromStorage] makes of the records of slices that are in
    order and numbered from [k]. *)
Lemma reload_in_order (slices : list SliceInfo.t) :
  forall k,
    map SliceInfo.globalIndex slices = seq k (length slices) ->
    map (fun '(globalIndex, slice) =>
           {| SliceInfo.id := StoredSlice.id slice;
              SliceInfo.documentId := StoredSlice.documentId slice;
              SliceInfo.pageNumber := StoredSlice.pageNumber slice;
              SliceInfo.sliceIndex := StoredSlice.sliceIndex slice;
              SliceInfo.globalIndex := globalIndex;
              SliceInfo.imageUrl := StoredSlice.imageData slice;
              SliceInfo.startY := StoredSlice.startY slice;
              SliceInfo.endY := StoredSlice.endY slice;
              SliceInfo.overlapHeight := StoredSlice.overlapHeight slice;
              SliceInfo.width := 0;
              SliceInfo.height := 0;
              SliceInfo.textItems := [] |})
        (combine (seq k (length (map storedSliceOf slices))) (map storedSliceOf slices))
    = map withoutSizeAndText slices.
Proof.
  induction slices as [|s slices IH]; intros k Hg; [reflexivity|].
  simpl in Hg. injection Hg as Hk Hg. simpl.
  rewrite length_map in IH. rewrite length_map. rewrite (IH (S k) Hg).
  f_equal. unfold withoutSizeAndText. rewrite Hk. reflexivity.
Qed.

Lemma slice_ids_distinct (fuel : nat) (documentId : String.string)
    (renderedPages : list PageRenderResult.t)
    (textContents : list PageTextContent.t) (viewportHeight : Q)
    (slices : list SliceInfo.t) (effects : list Effect) :
  processDocumentSlices fuel documentId renderedPages textContents viewportHeight
  = Some (slices, effects) ->
  StronglySorted lt (map PageRenderResult.pageNumber renderedPages) ->
  NoDup (map SliceInfo.id slices).
Proof.
  intros Hproc Hpages.
  destruct (processDocumentSlices_spec _ _ _ _ _ _ _ Hproc)
    as (boundsList & more & Hall & Hs & Hsaved & _).
  assert (Hsorted : StronglySorted storedLt (map storedSliceOf slices)).
  { rewrite Hs. apply slicesFrom_sorted.
    rewrite map_fst_combine; [exact Hpages|].
    exact (Forall2_length Hall). }
  assert (Hids : forall s, In s slices ->
            SliceInfo.id s = sliceIdOf documentId (SliceInfo.pageNumber s)
                               (SliceInfo.sliceIndex s)).
  { intros s Hin. rewrite Hs in Hin. apply In_slicesFrom in Hin.
    destruct Hin as (k & page & bounds & j & [a b] & gi & _ & _ & ->). reflexivity. }
  clear Hs Hsaved Hproc. induction slices as [|s slices IH]; [constructor|].
  simpl in Hsorted. apply StronglySorted_inv in Hsorted.
  destruct Hsorted as [Hsorted Hs]. simpl. constructor.
  + intro Hin. apply in_map_iff in Hin. destruct Hin as (s' & Hid & Hs').
    rewrite (Hids s (or_introl eq_refl)), (Hids s' (or_intror Hs')) in Hid.
    apply sliceIdOf_inj in Hid. destruct Hid as [Hp Hi].
    rewrite Forall_forall in Hs.
    assert (Hlt : storedLt (storedSliceOf s) (storedSliceOf s'))
      by (apply Hs; apply in_map; exact Hs').
    unfold storedLt in Hlt. simpl in Hlt. lia.
  + apply IH; [exact Hsorted|]. intros s' Hs'. apply Hids. right. exact Hs'.
Qed.

Lemma load_saved_slices (fuel : nat) (documentId : String.string)
    (renderedPages : list PageRenderResult.t)
    (textContents : list PageTextContent.t) (viewportHeight : Q)
    (slices : list SliceInfo.t) (effects : list Effect) :
  processDocumentSlices fuel documentId renderedPages textContents viewportHeight
  = Some (slices, effects) ->
  StronglySorted lt (map PageRenderResult.pageNumber renderedPages) ->
  forall storedSlices anyId,
    Permutation storedSlices (savedSlices effects) ->
    loadSlicesFromStorage anyId storedSlices = map withoutSizeAndText slices.
Proof.
  intros Hproc Hpages.
  destruct (processDocumentSlices_spec _ _ _ _ _ _ _ Hproc)
    as (boundsList & more & Hall & Hs & Hsaved & _).
  assert (Hsorted : StronglySorted storedLt (map storedSliceOf slices)).
  { rewrite Hs. apply slicesFrom_sorted.
    rewrite map_fst_combine; [exact Hpages|].
    exact (Forall2_length Hall). }
  intros storedSlices anyId Hperm. unfold loadSlicesFromStorage, indexed.
  rewrite Hsaved in Hperm.
  rewrite (sorted_unique _ Hsorted (sortSlices storedSlices)).
  + apply reload_in_order. rewrite Hs. apply slicesFrom_globalIndex.
  + apply sortSlices_sorted.
  + rewrite sortSlices_perm. exact Hperm.
Qed.

(** X13.  Saving and loading again.  When the pages are given in the order
    of their page numbers, the records that [processDocumentSlices] saves,
    handed to [loadSlicesFromStorage] in any order, come back as the slices
    that [processDocumentSlices] returned, in the same order and with the
    same [globalIndex], identifier, bounds, overlap and image; only the
    size of the image and the text are gone.  The identifiers of the
    slices are all different, so that no [saveSlice] overwrote another. *)
Theorem save_then_load (fuel : nat) (documentId : String.string)
    (renderedPages : list PageRenderResult.t)
    (textContents : list PageTextContent.t) (viewportHeight : Q)
    (slices : list SliceInfo.t) (effects : list Effect) :
  processDocumentSlices fuel documentId renderedPages textContents viewportHeight
  = Some (slices, effects) ->
  StronglySorted lt (map PageRenderResult.pageNumber renderedPages) ->
  NoDup (map SliceInfo.id slices)
  /\ forall storedSlices anyId,
       Permutation storedSlices (savedSlices effects) ->
       loadSlicesFromStorage anyId storedSlices = map withoutSizeAndText slices.
Proof.
  intros Hproc Hpages. split.
  - exact (slice_ids_distinct _ _ _ _ _ _ _ Hproc Hpages).
  - exact (load_saved_slices _ _ _ _ _ _ _ Hproc Hpages).
Qed.

(** ** Text items *)

Lemma overlapsSlice_iff (startY endY : Q) (item : TextItem.t) :
  overlapsSlice startY endY item = true
  <-> TextItem.y item < endY /\ startY < TextItem.y item + TextItem.height item.
Proof.
  unfold overlapsSlice. rewrite andb_true_iff, !Qlt_bool_iff. reflexivity.
Qed.


(** ** Text and slices together *)

(** A rational position on the page lies in one of the slices. *)
Lemma slicesOf_cover_Q (H : Z) (cuts : list Z) (q : Q) :
  validCuts H cuts -> 0 <= q -> q < inject_Z H ->
  exists a b, In (a, b) (slicesOf cuts) /\ (0 <= a)%Z
              /\ inject_Z a <= q /\ q < inject_Z b.
Proof.
  intros (Hlen & Hhd & Hlast & Hs) Hq0 HqH.
  destruct cuts as [|c l]; [discriminate|]. injection Hhd as ->.
  assert (Hrow : (0 <= Qfloor q < H)%Z).
  { split.
    - change 0%Z with (Qfloor 0). apply Qfloor_resp_le. exact Hq0.
    - rewrite Zlt_Qlt. apply Qle_lt_trans with q; [apply Qfloor_le|exact HqH]. }
  destruct (slicesOf_partition 0 l Hs (Qfloor q)) as ([a b] & Hin & Hab & _).
  { rewrite Hlast. exact Hrow. }
  simpl in Hab. exists a, b. split; [exact Hin|].
  destruct (slicesOf_bounds 0 l Hs (a, b) Hin) as [Ha _]. simpl in Ha.
  split; [lia|]. split.
  - apply Qle_trans with (inject_Z (Qfloor q)); [|apply Qfloor_le].
    rewrite <- Zle_Qle. lia.
  - apply Qlt_le_trans with (inject_Z (Qfloor q + 1)); [apply Qlt_floor|].
    rewrite <- Zle_Qle. lia.
Qed.

(** X15.  No text is lost in the slicing.  When the cuts of a page keep
    the contract, every text item of that page that has a positive height
    and reaches into the page is among the text items of at least one
    slice of the page, moved up by the row at which the image of that
    slice begins. *)
Theorem text_items_are_kept (fuel : nat) (documentId : String.string)
    (renderedPages : list PageRenderResult.t)
    (textContents : list PageTextContent.t) (viewportHeight : Q)
    (slices : list SliceInfo.t) (effects : list Effect)
    (k : nat) (page : PageRenderResult.t) (pageText : PageTextContent.t)
    (cuts : list Z) (item : TextItem.t) :
  processDocumentSlices fuel documentId renderedPages textContents viewportHeight
  = Some (slices, effects) ->
  nth_error renderedPages k = Some page ->
  nth_error textContents k = Some pageText ->
  findCutPoints fuel (PageRenderResult.imageData page)
    (viewportHeight * 2 * (1 # 2)) noOverrides = Some cuts ->
  validCuts (Z.of_nat (height (PageRenderResult.imageData page))) cuts ->
  In item (PageTextContent.items pageText) ->
  0 < TextItem.height item ->
  TextItem.y item < inject_Z (Z.of_nat (height (PageRenderResult.imageData page))) ->
  0 < TextItem.y item + TextItem.height item ->
  exists s,
    In s slices
    /\ SliceInfo.pageNumber s = PageRenderResult.pageNumber page
    /\ In (shiftItem
             (inject_Z (Z.max 0 (SliceInfo.startY s - SliceInfo.overlapHeight s)))
             item)
          (SliceInfo.textItems s).
Proof.
  intros Hproc Hpage Htext Hcuts Hvalid Hitem Hpos Hbelow Habove.
  destruct (processDocumentSlices_spec _ _ _ _ _ _ _ Hproc)
    as (boundsList & more & Hall & Hs & _ & _).
  (* the bounds of the page are the slices of its cuts *)
  assert (Hbounds : nth_error (combine renderedPages boundsList) k
                    = Some (page, slicesOf cuts)).
  { clear Hs Htext Hproc. revert k Hpage. induction Hall as [|p b ps bs Hp Hrest IH];
      intros [|k] Hk; try discriminate; simpl in *.
    - injection Hk as ->. unfold analyzePageForSlicing in Hp.
      rewrite Hcuts in Hp. injection Hp as <-. reflexivity.
    - apply IH. exact Hk. }
  (* the slice that holds the top of the item, or the top of the page *)
  set (H := Z.of_nat (height (PageRenderResult.imageData page))) in *.
  set (q := Qmax 0 (TextItem.y item)).
  assert (Hq0 : 0 <= q) by apply Q.le_max_l.
  assert (Hqy : TextItem.y item <= q) by apply Q.le_max_r.
  assert (HqH : q < inject_Z H).
  { unfold q. apply Q.max_lub_lt; [|exact Hbelow].
    destruct (Qlt_le_dec 0 (inject_Z H)) as [?|Hle]; [assumption|].
    destruct Hvalid as (Hlen & Hhd & Hlast & Hsort).
    destruct cuts as [|c [|c' l]]; simpl in Hlen; try lia.
    injection Hhd as ->.
    destruct (slicesOf_bounds 0 (c' :: l) Hsort (0%Z, c') (or_introl eq_refl)) as [H1 H2].
    cbn [fst snd] in H1, H2. rewrite Hlast in H2.
    change 0 with (inject_Z 0) in Hle. rewrite <- Zle_Qle in Hle. lia. }
  destruct (slicesOf_cover_Q H cuts q Hvalid Hq0 HqH) as (a & b & Hin & Ha0 & Haq & Hqb).
  destruct (In_nth_error _ _ Hin) as (j & Hj).
  destruct (slicesFrom_contains documentId textContents
              (combine renderedPages boundsList) 0 0 k page (slicesOf cuts) j (a, b)
              Hbounds Hj) as (gi & Hslice).
  rewrite <- Hs in Hslice. simpl Nat.add in Hslice. rewrite Htext in Hslice.
  eexists. split; [exact Hslice|]. split; [reflexivity|].
  simpl. apply in_map. apply filter_In. split; [exact Hitem|].
  apply overlapsSlice_iff. split; [lra|].
  assert (Hov : (0 <= overlapOf k j)%Z)
    by (unfold overlapOf, OVERLAP_HEIGHT; destruct (_ && _); lia).
  destruct (Qlt_le_dec (TextItem.y item) 0) as [Hneg|Hnonneg].
  - (* the item begins above the page: the slice is the first one *)
    assert (Hq : q == 0).
    { unfold q. apply Q.max_l. lra. }
    assert (Ha : a = 0%Z).
    { rewrite Hq in Haq. change 0 with (inject_Z 0) in Haq.
      rewrite <- Zle_Qle in Haq. lia. }
    subst a. rewrite Z.max_l by lia. exact Habove.
  - assert (Hq : q == TextItem.y item).
    { unfold q. apply Q.max_r. exact Hnonneg. }
    assert (Hadj : inject_Z (Z.max 0 (a - overlapOf k j)) <= inject_Z a)
      by (rewrite <- Zle_Qle; lia).
    lra.
Qed.

(** ** The images of the slices *)

(** X16.  Every slice that [processDocumentSlices] returns has an overlap
    of 0 or 60; its image is as wide as the canvas of its page and holds
    the rows of the page from [max(0, startY - overlapHeight)] to [endY].
    So the rows that the image repeats from above the cut are
    [min(overlapHeight, startY)], which is none for a slice that begins at
    the top of its page even when its [overlapHeight] is 60.  An overlap of
    0 is recorded for the first slice of the first page only. *)
Theorem slice_images (fuel : nat) (documentId : String.string)
    (renderedPages : list PageRenderResult.t)
    (textContents : list PageTextContent.t) (viewportHeight : Q)
    (slices : list SliceInfo.t) (effects : list Effect) (s : SliceInfo.t) :
  processDocumentSlices fuel documentId renderedPages textContents viewportHeight
  = Some (slices, effects) ->
  In s slices ->
  (SliceInfo.overlapHeight s = 0%Z \/ SliceInfo.overlapHeight s = 60%Z)
  /\ SliceInfo.height s
     = (SliceInfo.endY s - Z.max 0 (SliceInfo.startY s - SliceInfo.overlapHeight s))%Z
  /\ SliceInfo.imageUrl s
     = Canvas.mk (SliceInfo.width s) (SliceInfo.height s)
         (Canvas.top (SliceInfo.imageUrl s))
  /\ (exists page,
        In page renderedPages
        /\ PageRenderResult.pageNumber page = SliceInfo.pageNumber s
        /\ SliceInfo.width s = Canvas.width (PageRenderResult.canvas page)
        /\ Canvas.top (SliceInfo.imageUrl s)
           = (Canvas.top (PageRenderResult.canvas page)
              + Z.max 0 (SliceInfo.startY s - SliceInfo.overlapHeight s))%Z)
  /\ ((0 <= SliceInfo.startY s)%Z ->
      SliceInfo.height s
      = (SliceInfo.endY s - SliceInfo.startY s
         + Z.min (SliceInfo.overlapHeight s) (SliceInfo.startY s))%Z)
  /\ (SliceInfo.overlapHeight s = 0%Z ->
      SliceInfo.sliceIndex s = 0%nat
      /\ exists page, hd_error renderedPages = Some page
                      /\ PageRenderResult.pageNumber page = SliceInfo.pageNumber s).
Proof.
  intros Hproc Hin.
  destruct (processDocumentSlices_spec _ _ _ _ _ _ _ Hproc)
    as (boundsList & more & Hall & Hs & _ & _).
  rewrite Hs in Hin. apply In_slicesFrom in Hin.
  destruct Hin as (k & page & bounds & j & [a b] & gi & Hk & _ & ->).
  assert (Hpage : nth_error renderedPages k = Some page).
  { clear Hs Hproc. revert k Hk. induction Hall as [|p bs ps bss _ _ IH];
      intros [|k] Hk; try discriminate; simpl in *.
    - injection Hk as -> _. reflexivity.
    - apply IH. exact Hk. }
  simpl. unfold overlapOf, OVERLAP_HEIGHT.
  destruct (Nat.eqb_spec j 0) as [Hj|Hj]; destruct (Nat.eqb_spec k 0) as [Hk0|Hk0];
    simpl; (split; [lia|]); (split; [reflexivity|]); (split; [reflexivity|]);
    (split; [exists page; split; [eapply nth_error_In; exact Hpage|repeat split]|]);
    (split; [lia|]); try (intro; discriminate).
  intros _. split; [exact Hj|]. exists page. subst k.
  destruct renderedPages; [discriminate|]. simpl in Hpage. injection Hpage as ->.
  split; reflexivity.
Qed.

Lemma progressEvents_app (a b : list Effect) :
  progressEvents (a ++ b) = progressEvents a ++ progressEvents b.
Proof. unfold progressEvents. apply flat_map_app. Qed.

Lemma progressEvents_saves {A : Type} (f : A -> StoredSlice.t) (l : list A) :
  progressEvents (map (fun e => SaveSlice (f e)) l) = [].
Proof. induction l as [|e l IH]; [reflexivity|exact IH]. Qed.

(** The loop over the pages announces each page once, in order. *)
Lemma pagesLoop_progress (fuel : nat) (documentId : String.string) (totalPages : nat)
    (textContents : list PageTextContent.t) (viewportHeight : Q)
    (pages : list PageRenderResult.t) :
  forall pageIdx allSlices effects g allSlices' effects' g',
    pagesLoop fuel documentId totalPages textContents viewportHeight pages pageIdx
      (allSlices, effects, g) = Some (allSlices', effects', g') ->
    exists events,
      progressEvents effects' = progressEvents effects ++ events
      /\ map ProcessingProgress.currentPage events = seq (pageIdx + 1) (length pages)
      /\ Forall (fun p => ProcessingProgress.totalPages p = totalPages
                          /\ ProcessingProgress.phase p = slicing) events.
Proof.
  induction pages as [|page rest IH];
    intros pageIdx allSlices effects g allSlices' effects' g' Hloop.
  - simpl in Hloop. injection Hloop as <- <- <-. exists [].
    rewrite app_nil_r. repeat split; constructor.
  - simpl in Hloop.
    destruct (analyzePageForSlicing fuel _ viewportHeight 2) as [bounds|]; [|discriminate].
    rewrite fold_sliceStep in Hloop. apply IH in Hloop.
    destruct Hloop as (events & Hev & Hpages & Hall).
    rewrite !progressEvents_app, progressEvents_saves, app_nil_r in Hev.
    rewrite <- app_assoc in Hev. eexists. split; [exact Hev|]. split.
    + simpl. rewrite Hpages. reflexivity.
    + constructor; [split; reflexivity|exact Hall].
Qed.

Lemma seq_sorted (k : nat) : forall a, StronglySorted le (seq a k).
Proof.
  induction k as [|k IH]; intro a; simpl; [constructor|].
  constructor; [apply IH|].
  apply Forall_forall. intros x Hx. apply in_seq in Hx. lia.
Qed.

Lemma inject_nat_nonzero (n : nat) :
  (0 < n)%nat -> ~ inject_Z (Z.of_nat n) == 0.
Proof.
  intros Hpos H.
  assert (Hq : 0 < inject_Z (Z.of_nat n)).
  { change 0 with (inject_Z 0). rewrite <- Zlt_Qlt. lia. }
  rewrite H in Hq. discriminate.
Qed.

Lemma getProgress_of (current total : nat) (p : ProcessingProgress.t) :
  ProcessingProgress.currentPage p = current ->
  ProcessingProgress.totalPages p = total ->
  (0 < total)%nat ->
  getProgress p == inject_Z (Z.of_nat current) * (100 / inject_Z (Z.of_nat total)).
Proof.
  intros Hc Ht Hpos. unfold getProgress. rewrite Hc, Ht.
  destruct (Nat.eqb_spec total 0) as [?|_]; [lia|].
  field. apply inject_nat_nonzero. exact Hpos.
Qed.

(** X17.  While [processDocumentSlices] runs, the progress it reports goes
    page by page: the events name the pages 1, 2, ..., [n] in turn and then
    [n] again on completion, all of them out of [n] pages.  The bar of
    [ProcessingOverlay] therefore never goes back and never leaves the
    range from 0 to 100; it ends at 100, or at 0 for a document without
    pages. *)
Theorem progress_is_monotone (fuel : nat) (documentId : String.string)
    (renderedPages : list PageRenderResult.t)
    (textContents : list PageTextContent.t) (viewportHeight : Q)
    (slices : list SliceInfo.t) (effects : list Effect) :
  processDocumentSlices fuel documentId renderedPages textContents viewportHeight
  = Some (slices, effects) ->
  let n := length renderedPages in
  let events := progressEvents effects in
  map ProcessingProgress.currentPage events = seq 1 n ++ [n]
  /\ Forall (fun p => ProcessingProgress.totalPages p = n) events
  /\ StronglySorted Qle (map getProgress events)
  /\ Forall (fun p => 0 <= getProgress p /\ getProgress p <= 100) events
  /\ getProgress (last events (ProcessingProgress.mk complete 0 0 0 0))
     == (if (n =? 0)%nat then 0 else 100).
Proof.
  intros Hproc n events. unfold processDocumentSlices in Hproc.
  destruct (pagesLoop _ _ _ _ _ _ _ _) as [[[allSlices effects0] g]|] eqn:Eloop;
    [|discriminate].
  injection Hproc as _ <-.
  destruct (pagesLoop_progress _ _ _ _ _ _ _ _ _ _ _ _ _ Eloop)
    as (evs & Hev & Hpages & Hall).
  simpl in Hev, Hpages. fold n in Hpages, Hall.
  set (done := {| ProcessingProgress.phase := complete;
                  ProcessingProgress.currentPage := n;
                  ProcessingProgress.totalPages := n;
                  ProcessingProgress.currentSlice := g;
                  ProcessingProgress.totalSlices := g |}).
  assert (Hevents : events = evs ++ [done]).
  { unfold events. rewrite progressEvents_app, Hev. reflexivity. }
  rewrite Hevents. clear Hevents Hev Eloop events.
  assert (Htotal : Forall (fun p => ProcessingProgress.totalPages p = n) (evs ++ [done])).
  { apply Forall_app. split.
    - eapply Forall_impl; [|exact Hall]. intros p [H _]. exact H.
    - constructor; [reflexivity|constructor]. }
  assert (Hcurrent : map ProcessingProgress.currentPage (evs ++ [done]) = seq 1 n ++ [n])
    by (rewrite map_app, Hpages; reflexivity).
  split; [exact Hcurrent|]. split; [exact Htotal|].
  destruct (Nat.eq_dec n 0) as [Hn|Hn].
  - (* no page: one event, and the guard of [getProgress] *)
    rewrite Hn in Hpages. destruct evs; [|discriminate]. simpl app.
    assert (Hdone : getProgress done = 0).
    { unfold getProgress, done. simpl.
      destruct (Nat.eqb_spec n 0); [reflexivity|contradiction]. }
    split; [repeat constructor|]. split.
    + constructor; [rewrite Hdone; split; discriminate|constructor].
    + simpl last. rewrite Hdone.
      destruct (Nat.eqb_spec n 0); [reflexivity|contradiction].
  - assert (Hpos : (0 < n)%nat) by lia.
    assert (Hunit : 0 < 100 / inject_Z (Z.of_nat n)).
    { apply Qlt_shift_div_l; [|reflexivity].
      change 0 with (inject_Z 0). rewrite <- Zlt_Qlt. lia. }
    assert (Hvalue : forall p, In p (evs ++ [done]) ->
              getProgress p
              == inject_Z (Z.of_nat (ProcessingProgress.currentPage p))
                 * (100 / inject_Z (Z.of_nat n))).
    { intros p Hp. rewrite Forall_forall in Htotal.
      apply getProgress_of; [reflexivity|apply Htotal; exact Hp|exact Hpos]. }
    assert (Hfull : inject_Z (Z.of_nat n) * (100 / inject_Z (Z.of_nat n)) == 100).
    { field. apply inject_nat_nonzero. exact Hpos. }
    assert (Hrange : forall p, In p (evs ++ [done]) ->
              (1 <= ProcessingProgress.currentPage p <= n)%nat).
    { intros p Hp. apply (in_map ProcessingProgress.currentPage) in Hp.
      rewrite Hcurrent in Hp. apply in_app_iff in Hp.
      destruct Hp as [Hp|[<-|[]]]; [apply in_seq in Hp; lia|lia]. }
    split; [|split].
    + (* never back *)
      assert (Hmono : StronglySorted le
                        (map ProcessingProgress.currentPage (evs ++ [done]))).
      { rewrite Hcurrent.
        apply StronglySorted_app.
        - apply seq_sorted.
        - repeat constructor.
        - intros a b Ha [<-|[]]. apply in_seq in Ha. lia. }
      revert Hmono Hvalue. generalize (evs ++ [done]) as l.
      induction l as [|p l IHl]; intros Hmono Hvalue; simpl; [constructor|].
      simpl in Hmono. apply StronglySorted_inv in Hmono. destruct Hmono as [Hmono Hp].
      constructor.
      * apply IHl; [exact Hmono|]. intros q Hq. apply Hvalue. right. exact Hq.
      * apply Forall_forall. intros v Hv. apply in_map_iff in Hv.
        destruct Hv as (q & <- & Hq).
        rewrite (Hvalue p (or_introl eq_refl)), (Hvalue q (or_intror Hq)).
        rewrite Forall_forall in Hp.
        assert (Hle : (ProcessingProgress.currentPage p
                       <= ProcessingProgress.currentPage q)%nat)
          by (apply Hp; apply in_map; exact Hq).
        apply Qmult_le_compat_r; [|apply Qlt_le_weak; exact Hunit].
        rewrite <- Zle_Qle. lia.
    + apply Forall_forall. intros p Hp. rewrite (Hvalue p Hp).
      destruct (Hrange p Hp) as [H1 H2]. split.
      * apply Qmult_le_0_compat; [|apply Qlt_le_weak; exact Hunit].
        change 0 with (inject_Z 0). rewrite <- Zle_Qle. lia.
      * apply Qle_trans with (inject_Z (Z.of_nat n) * (100 / inject_Z (Z.of_nat n)));
          [|rewrite Hfull; apply Qle_refl].
        apply Qmult_le_compat_r; [|apply Qlt_le_weak; exact Hunit].
        rewrite <- Zle_Qle. lia.
    + rewrite last_last.
      rewrite (Hvalue done) by (apply in_app_iff; right; left; reflexivity).
      destruct (Nat.eqb_spec n 0) as [?|_]; [lia|]. exact Hfull.
Qed.




(** *** Lemmas *)

Lemma decimalZ_inj (a b : Z) : decimalZ a = decimalZ b -> a = b.
Proof.
  unfold decimalZ. intro H.
  assert (E : Some (Z.to_int a) = Some (Z.to_int b)).
  { rewrite <- !DecimalString.NilEmpty.isi. rewrite H. reflexivity. }
  injection E as E.
  rewrite <- (DecimalZ.of_to a), <- (DecimalZ.of_to b), E. reflexivity.
Qed.

Lemma pageHeading_inj (p q : Z) : pageHeading p = pageHeading q -> p = q.
Proof.
  unfold pageHeading. simpl. intro H. injection H as H.
  apply decimalZ_inj. exact H.
Qed.

Lemma highlightBefore_false (a b : HighlightData.t) :
  highlightBefore b a = false <-> highlightLe a b.
Proof.
  unfold highlightBefore, highlightLe.
  destruct (Z.eqb_spec (HighlightData.pageNumber b) (HighlightData.pageNumber a));
    simpl; rewrite Z.ltb_ge; lia.
Qed.

Lemma highlightBefore_true (a b : HighlightData.t) :
  highlightBefore a b = true -> highlightLe a b.
Proof.
  unfold highlightBefore, highlightLe.
  destruct (Z.eqb_spec (HighlightData.pageNumber a) (HighlightData.pageNumber b));
    simpl; rewrite Z.ltb_lt; lia.
Qed.

Lemma highlightLe_trans (a b c : HighlightData.t) :
  highlightLe a b -> highlightLe b c -> highlightLe a c.
Proof. unfold highlightLe. lia. Qed.

Lemma insertHighlight_perm (h : HighlightData.t) (l : list HighlightData.t) :
  Permutation (insertHighlight h l) (h :: l).
Proof.
  induction l as [|h' t IH]; simpl; [reflexivity|].
  destruct (highlightBefore h' h); [|reflexivity].
  rewrite IH. apply perm_swap.
Qed.

Lemma sortHighlights_perm (l : list HighlightData.t) :
  Permutation (sortHighlights l) l.
Proof.
  induction l as [|h t IH]; simpl; [reflexivity|].
  rewrite insertHighlight_perm. constructor. exact IH.
Qed.

Lemma insertHighlight_sorted (h : HighlightData.t) (l : list HighlightData.t) :
  StronglySorted highlightLe l -> StronglySorted highlightLe (insertHighlight h l).
Proof.
  induction 1 as [|h' t Ht IH Hh]; simpl.
  - repeat constructor.
  - destruct (highlightBefore h' h) eqn:E.
    + constructor; [exact IH|].
      apply highlightBefore_true in E.
      rewrite Forall_forall in *. intros x Hx.
      apply (Permutation_in _ (insertHighlight_perm h t)) in Hx.
      destruct Hx as [<-|Hx]; [exact E|apply Hh; exact Hx].
    + apply highlightBefore_false in E.
      constructor; [constructor; assumption|].
      constructor; [exact E|].
      rewrite Forall_forall in *. intros x Hx.
      apply highlightLe_trans with h'; [exact E|apply Hh; exact Hx].
Qed.

Lemma sortHighlights_sorted (l : list HighlightData.t) :
  StronglySorted highlightLe (sortHighlights l).
Proof.
  induction l as [|h t IH]; simpl; [constructor|].
  apply insertHighlight_sorted. exact IH.
Qed.

(** The number of lines of [lines] that are the heading of page [p]. *)
Lemma count_heading_step (p : Z) (lines : list String.string) (cur : Z)
    (h : ExportedHighlight.t) :
  count_occ String.string_dec (fst (markdownStep (lines, cur) h)) (pageHeading p)
  = (count_occ String.string_dec lines (pageHeading p)
     + if (negb (ExportedHighlight.page h =? cur) && (ExportedHighlight.page h =? p))%Z
       then 1 else 0)%nat
  /\ snd (markdownStep (lines, cur) h) = ExportedHighlight.page h.
Proof.
  unfold markdownStep.
  destruct (Z.eqb_spec (ExportedHighlight.page h) cur) as [E|E]; cbn [negb andb fst snd].
  - split; [|symmetry; exact E].
    rewrite count_occ_app. cbn [count_occ].
    destruct (String.string_dec _ (pageHeading p)) as [D|_]; [discriminate D|].
    destruct (String.string_dec _ (pageHeading p)) as [D|_]; [discriminate D|].
    lia.
  - split; [|reflexivity].
    rewrite !count_occ_app. cbn [count_occ].
    destruct (String.string_dec (String.append "> " _) (pageHeading p)) as [D|_];
      [discriminate D|].
    destruct (String.string_dec String.EmptyString (pageHeading p)) as [D|_];
      [discriminate D|].
    destruct (String.string_dec _ (pageHeading p)) as [D|D].
    + apply pageHeading_inj in D. rewrite D, Z.eqb_refl. lia.
    + destruct (Z.eqb_spec (ExportedHighlight.page h) p) as [Hq|_];
        [exfalso; apply D; rewrite Hq; reflexivity|lia].
Qed.

Lemma count_heading_fold (p : Z) (hs : list ExportedHighlight.t) :
  StronglySorted (fun a b => (ExportedHighlight.page a <= ExportedHighlight.page b)%Z) hs ->
  forall lines cur,
    Forall (fun h => (cur <= ExportedHighlight.page h)%Z) hs ->
    count_occ String.string_dec (fst (fold_left markdownStep hs (lines, cur)))
      (pageHeading p)
    = (count_occ String.string_dec lines (pageHeading p)
       + if (existsb (Z.eqb p) (map ExportedHighlight.page hs) && negb (p =? cur))%Z
         then 1 else 0)%nat.
Proof.
  induction 1 as [|h t Ht IH Hh]; intros lines cur Hcur.
  - cbn. lia.
  - cbn [fold_left map existsb].
    destruct (count_heading_step p lines cur h) as [Hc Hs].
    destruct (markdownStep (lines, cur) h) as [lines' cur'] eqn:Est.
    cbn [fst snd] in Hc, Hs. subst cur'.
    rewrite IH by exact Hh. rewrite Hc.
    apply Forall_inv in Hcur as Hc0.
    assert (Hin : existsb (Z.eqb p) (map ExportedHighlight.page t) = true ->
                  (ExportedHighlight.page h <= p)%Z).
    { rewrite existsb_exists. intros (q & Hq & Hpq).
      apply Z.eqb_eq in Hpq. subst q. apply in_map_iff in Hq.
      destruct Hq as (x & <- & Hx). rewrite Forall_forall in Hh. apply Hh, Hx. }
    destruct (existsb (Z.eqb p) (map ExportedHighlight.page t)).
    + specialize (Hin eq_refl).
      destruct (Z.eqb_spec (ExportedHighlight.page h) cur);
        destruct (Z.eqb_spec (ExportedHighlight.page h) p);
        destruct (Z.eqb_spec p (ExportedHighlight.page h));
        destruct (Z.eqb_spec p cur); cbn; lia.
    + destruct (Z.eqb_spec (ExportedHighlight.page h) cur);
        destruct (Z.eqb_spec (ExportedHighlight.page h) p);
        destruct (Z.eqb_spec p (ExportedHighlight.page h));
        destruct (Z.eqb_spec p cur); cbn; lia.
Qed.

Lemma quotes_fold (hs : list ExportedHighlight.t) (lines : list String.string) (cur : Z) :
  filter isQuoteLine (fst (fold_left markdownStep hs (lines, cur)))
  = filter isQuoteLine lines
    ++ map (fun h => String.append "> " (ExportedHighlight.text h)) hs.
Proof.
  revert lines cur. induction hs as [|h t IH]; intros lines cur.
  - cbn. rewrite app_nil_r. reflexivity.
  - cbn [fold_left map].
    destruct (markdownStep (lines, cur) h) as [lines' cur'] eqn:Est.
    rewrite IH. unfold markdownStep in Est.
    destruct (negb (ExportedHighlight.page h =? cur)%Z);
      injection Est as <- _; rewrite !filter_app; cbn;
      rewrite <- ?app_assoc; cbn; rewrite ?app_nil_r; reflexivity.
Qed.

Lemma exportedOf_pages (toISOString : Z -> String.string) (l : list HighlightData.t) :
  map ExportedHighlight.page (exportedOf toISOString l) = map HighlightData.pageNumber l.
Proof. unfold exportedOf. rewrite map_map. reflexivity. Qed.

Lemma exportedOf_sorted (toISOString : Z -> String.string) (l : list HighlightData.t) :
  StronglySorted highlightLe l ->
  StronglySorted (fun a b => (ExportedHighlight.page a <= ExportedHighlight.page b)%Z)
    (exportedOf toISOString l).
Proof.
  induction 1 as [|h t Ht IH Hh]; cbn; constructor; [exact IH|].
  rewrite Forall_forall in *. intros x Hx. apply in_map_iff in Hx.
  destruct Hx as (y & <- & Hy). cbn. specialize (Hh y Hy).
  unfold highlightLe in Hh. lia.
Qed.

(** X19.  The Markdown export.  [exportHighlights] sorts the highlights by
    page and then by slice, losing and adding none, before it formats
    them.  When no page number is negative, the lines that
    [formatAsMarkdown] joins hold the heading [## Page p] exactly once for
    every page [p] that has a highlight and not at all for any other page,
    in whatever order the highlights were stored; the lines that begin with
    [>] are the quoted texts of the highlights, one for each, in sorted
    order.  (The count is of the lines pushed: a text that itself holds a
    line break is not looked into.) *)
Theorem markdown_export_headings (toISOString : Z -> String.string)
    (today documentName : String.string)
    (formatAsJSON : String.string -> list ExportedHighlight.t -> String.string)
    (highlights : list HighlightData.t) :
  Forall (fun h => (0 <= HighlightData.pageNumber h)%Z) highlights ->
  let sorted := sortHighlights highlights in
  let lines := markdownLines today documentName (exportedOf toISOString sorted) in
  exportHighlights toISOString today formatAsJSON highlights documentName markdown
  = joinLines lines
  /\ Permutation sorted highlights
  /\ StronglySorted highlightLe sorted
  /\ (forall p : Z,
        count_occ String.string_dec lines (pageHeading p)
        = if existsb (Z.eqb p) (map HighlightData.pageNumber highlights)
          then 1%nat else 0%nat)
  /\ filter isQuoteLine lines
     = map (fun h => String.append "> " (HighlightData.text h)) sorted.
Proof.
  intros Hpages sorted lines.
  split; [reflexivity|].
  split; [apply sortHighlights_perm|].
  split; [apply sortHighlights_sorted|].
  split.
  - intro p. unfold lines, markdownLines.
    rewrite count_heading_fold.
    + rewrite exportedOf_pages.
      assert (Hex : existsb (Z.eqb p) (map HighlightData.pageNumber sorted)
                    = existsb (Z.eqb p) (map HighlightData.pageNumber highlights)).
      { apply eq_true_iff_eq. rewrite !existsb_exists.
        split; intros (q & Hq & Hpq); exists q; (split; [|exact Hpq]);
          apply in_map_iff in Hq; destruct Hq as (x & <- & Hx);
          apply in_map; [apply (Permutation_in _ (sortHighlights_perm highlights))
                        |apply (Permutation_in _ (Permutation_sym (sortHighlights_perm highlights)))];
          exact Hx. }
      rewrite Hex.
      destruct (existsb (Z.eqb p) (map HighlightData.pageNumber highlights)) eqn:E.
      * apply existsb_exists in E. destruct E as (q & Hq & Hpq).
        apply Z.eqb_eq in Hpq. subst q. apply in_map_iff in Hq.
        destruct Hq as (x & <- & Hx). rewrite Forall_forall in Hpages.
        specialize (Hpages x Hx).
        destruct (Z.eqb_spec (HighlightData.pageNumber x) (-1)); [lia|].
        cbn. reflexivity.
      * cbn. reflexivity.
    + apply exportedOf_sorted, sortHighlights_sorted.
    + apply Forall_forall. intros x Hx. unfold exportedOf in Hx.
      apply in_map_iff in Hx. destruct Hx as (y & <- & Hy). cbn.
      apply (Permutation_in _ (sortHighlights_perm highlights)) in Hy.
      rewrite Forall_forall in Hpages. specialize (Hpages y Hy). lia.
  - unfold lines, markdownLines. rewrite quotes_fold. cbn [filter markdownHeader].
    unfold exportedOf. rewrite map_map. cbn. reflexivity.
Qed.

(** ** Object stores *)

Section ObjectStore.
Context {V : Type} (keyOf : V -> String.string).

Lemma In_deleteRecord (key : String.string) (store : list V) (r : V) :
  In r (deleteRecord keyOf key store) <-> In r store /\ keyOf r <> key.
Proof.
  unfold deleteRecord. rewrite filter_In, negb_true_iff, String.eqb_neq. tauto.
Qed.

Lemma insertRecord_perm (v : V) (store : list V) :
  Permutation (insertRecord keyOf v store) (v :: store).
Proof.
  induction store as [|r rest IH]; simpl; [reflexivity|].
  destruct (String.ltb (keyOf v) (keyOf r)); [reflexivity|].
  rewrite IH. apply perm_swap.
Qed.

Lemma In_putRecord (v : V) (store : list V) (r : V) :
  In r (putRecord keyOf v store) <-> r = v \/ (In r store /\ keyOf r <> keyOf v).
Proof.
  unfold putRecord. split.
  - intro H. apply (Permutation_in _ (insertRecord_perm _ _)) in H.
    destruct H as [<-|H]; [left; reflexivity|right; apply In_deleteRecord; exact H].
  - intro H. apply (Permutation_in _ (Permutation_sym (insertRecord_perm _ _))).
    destruct H as [->|H]; [left; reflexivity|right; apply In_deleteRecord; exact H].
Qed.

Lemma getRecord_None (key : String.string) (store : list V) :
  getRecord keyOf key store = None <-> forall r, In r store -> keyOf r <> key.
Proof.
  unfold getRecord. split.
  - intros H r Hr E. apply (find_none _ _ H) in Hr.
    apply String.eqb_neq in Hr. contradiction.
  - intro H. destruct (find _ store) as [r|] eqn:E; [|reflexivity].
    apply find_some in E. destruct E as [Hr E]. apply String.eqb_eq in E.
    exfalso. exact (H r Hr E).
Qed.

Lemma getRecord_key (key : String.string) (store : list V) (r : V) :
  getRecord keyOf key store = Some r -> In r store /\ keyOf r = key.
Proof.
  unfold getRecord. intro H. apply find_some in H.
  rewrite String.eqb_eq in H. exact H.
Qed.

Lemma getRecord_delete_same (key : String.string) (store : list V) :
  getRecord keyOf key (deleteRecord keyOf key store) = None.
Proof.
  apply getRecord_None. intros r Hr. apply In_deleteRecord in Hr. tauto.
Qed.

Lemma getRecord_delete_other (key key' : String.string) (store : list V) :
  key <> key' ->
  getRecord keyOf key' (deleteRecord keyOf key store) = getRecord keyOf key' store.
Proof.
  intro Hne. unfold getRecord, deleteRecord.
  induction store as [|r rest IH]; simpl; [reflexivity|].
  destruct (String.eqb_spec (keyOf r) key) as [E|E]; simpl.
  - destruct (String.eqb_spec (keyOf r) key'); [congruence|exact IH].
  - destruct (String.eqb (keyOf r) key'); [reflexivity|exact IH].
Qed.

Lemma getRecord_insert_other (v : V) (key' : String.string) (store : list V) :
  keyOf v <> key' ->
  getRecord keyOf key' (insertRecord keyOf v store) = getRecord keyOf key' store.
Proof.
  intro Hne. unfold getRecord.
  induction store as [|r rest IH]; simpl.
  - destruct (String.eqb_spec (keyOf v) key'); [contradiction|reflexivity].
  - destruct (String.ltb (keyOf v) (keyOf r)); simpl.
    + destruct (String.eqb_spec (keyOf v) key'); [contradiction|reflexivity].
    + destruct (String.eqb (keyOf r) key'); [reflexivity|exact IH].
Qed.

Lemma getRecord_insert_same (v : V) (store : list V) :
  getRecord keyOf (keyOf v) store = None ->
  getRecord keyOf (keyOf v) (insertRecord keyOf v store) = Some v.
Proof.
  unfold getRecord. induction store as [|r rest IH]; simpl; intro H.
  - rewrite String.eqb_refl. reflexivity.
  - destruct (String.eqb (keyOf r) (keyOf v)) eqn:E; [discriminate|].
    destruct (String.ltb (keyOf v) (keyOf r)); simpl.
    + rewrite String.eqb_refl. reflexivity.
    + rewrite E. apply IH. exact H.
Qed.

Lemma getRecord_put_same (v : V) (store : list V) :
  getRecord keyOf (keyOf v) (putRecord keyOf v store) = Some v.
Proof. apply getRecord_insert_same, getRecord_delete_same. Qed.

Lemma getRecord_put_other (v : V) (key' : String.string) (store : list V) :
  keyOf v <> key' ->
  getRecord keyOf key' (putRecord keyOf v store) = getRecord keyOf key' store.
Proof.
  intro Hne. unfold putRecord.
  rewrite getRecord_insert_other by exact Hne.
  apply getRecord_delete_other. exact Hne.
Qed.

(** Deleting the keys of the records [l], one after the other. *)
Lemma In_fold_delete (l : list V) :
  forall (store : list V) (r : V),
    In r (fold_left (fun s x => deleteRecord keyOf (keyOf x) s) l store)
    <-> In r store /\ ~ In (keyOf r) (map keyOf l).
Proof.
  induction l as [|x l IH]; intros store r; simpl; [tauto|].
  rewrite IH, In_deleteRecord. intuition congruence.
Qed.

Lemma fold_delete_filter (l : list V) :
  forall store : list V,
    fold_left (fun s x => deleteRecord keyOf (keyOf x) s) l store
    = filter (fun r => negb (existsb (String.eqb (keyOf r)) (map keyOf l))) store.
Proof.
  induction l as [|x l IH]; intro store; simpl.
  - symmetry. apply forallb_filter_id. apply forallb_forall. reflexivity.
  - rewrite IH. unfold deleteRecord.
    induction store as [|r rest IHs]; simpl; [reflexivity|].
    destruct (String.eqb (keyOf r) (keyOf x)); simpl; [exact IHs|].
    destruct (existsb _ _); simpl; [exact IHs|]. f_equal. exact IHs.
Qed.

Lemma NoDup_keys_eq (store : list V) (a b : V) :
  NoDup (map keyOf store) -> In a store -> In b store -> keyOf a = keyOf b -> a = b.
Proof.
  induction store as [|r rest IH]; simpl; intros Hnd Ha Hb E; [contradiction|].
  apply NoDup_cons_iff in Hnd. destruct Hnd as [Hr Hnd].
  destruct Ha as [->|Ha], Hb as [->|Hb].
  - reflexivity.
  - exfalso. apply Hr. rewrite E. apply in_map. exact Hb.
  - exfalso. apply Hr. rewrite <- E. apply in_map. exact Ha.
  - apply IH; assumption.
Qed.

Lemma NoDup_keys_filter (f : V -> bool) (store : list V) :
  NoDup (map keyOf store) -> NoDup (map keyOf (filter f store)).
Proof.
  induction store as [|r rest IH]; simpl; intro H; [constructor|].
  apply NoDup_cons_iff in H. destruct H as [Hr H].
  destruct (f r); simpl; [|apply IH; exact H].
  constructor; [|apply IH; exact H].
  intro Hin. apply Hr. apply in_map_iff in Hin. destruct Hin as (x & <- & Hx).
  apply in_map. apply filter_In in Hx. tauto.
Qed.

Lemma NoDup_keys_put (v : V) (store : list V) :
  NoDup (map keyOf store) -> NoDup (map keyOf (putRecord keyOf v store)).
Proof.
  intro H. unfold putRecord.
  apply (Permutation_NoDup
           (Permutation_sym (Permutation_map keyOf (insertRecord_perm v _)))).
  simpl. constructor; [|apply NoDup_keys_filter; exact H].
  intro Hin. apply in_map_iff in Hin. destruct Hin as (x & E & Hx).
  apply In_deleteRecord in Hx. tauto.
Qed.

End ObjectStore.


(** ** [deleteDocument], [saveProgress] *)

Lemma fold_deleteSliceOf (l : list StoredSlice.t) (db : DB.t) :
  fold_left Storage.deleteSliceOf l db
  = {| DB.documents := DB.documents db;
       DB.slices := fold_left (fun s x => deleteRecord StoredSlice.id (StoredSlice.id x) s)
                      l (DB.slices db);
       DB.progress := DB.progress db;
       DB.highlights := DB.highlights db |}.
Proof.
  revert db. induction l as [|x l IH]; intro db; simpl.
  - destruct db; reflexivity.
  - rewrite IH. reflexivity.
Qed.

Lemma fold_deleteHighlight (l : list HighlightRecord.t) (db : DB.t) :
  fold_left (fun db highlight => Storage.deleteHighlight (HighlightRecord.id highlight) db)
    l db
  = {| DB.documents := DB.documents db;
       DB.slices := DB.slices db;
       DB.progress := DB.progress db;
       DB.highlights :=
         fold_left (fun s x => deleteRecord HighlightRecord.id (HighlightRecord.id x) s)
           l (DB.highlights db) |}.
Proof.
  revert db. induction l as [|x l IH]; intro db; simpl.
  - destruct db; reflexivity.
  - rewrite IH. reflexivity.
Qed.

(** Deleting the records of one value of an index leaves none of them, and,
    with one record per key, leaves the records of every other value. *)
Lemma index_cleared {V : Type} (keyOf indexOf : V -> String.string)
    (key : String.string) (store : list V) :
  getAllFromIndex indexOf key
    (fold_left (fun s x => deleteRecord keyOf (keyOf x) s)
       (getAllFromIndex indexOf key store) store) = [].
Proof.
  destruct (getAllFromIndex _ _ (fold_left _ _ _)) as [|r l] eqn:E; [reflexivity|].
  exfalso. assert (Hr : In r (r :: l)) by (left; reflexivity).
  rewrite <- E in Hr. unfold getAllFromIndex in Hr. apply filter_In in Hr.
  destruct Hr as [Hr Hk]. apply In_fold_delete in Hr. destruct Hr as [Hr Hnot].
  apply Hnot. apply in_map. apply filter_In. split; assumption.
Qed.

Lemma filter_absorb {A : Type} (g h : A -> bool) (l : list A) :
  (forall a, In a l -> g a = true -> h a = true) ->
  filter g (filter h l) = filter g l.
Proof.
  induction l as [|a l IH]; intro H; simpl; [reflexivity|].
  assert (IH' : filter g (filter h l) = filter g l).
  { apply IH. intros x Hx. apply H. right. exact Hx. }
  specialize (H a (or_introl eq_refl)).
  destruct (h a) eqn:Eh; simpl.
  - rewrite IH'. reflexivity.
  - destruct (g a); [specialize (H eq_refl); discriminate|exact IH'].
Qed.

Lemma index_kept {V : Type} (keyOf indexOf : V -> String.string)
    (key other : String.string) (store : list V) :
  NoDup (map keyOf store) -> other <> key ->
  getAllFromIndex indexOf other
    (fold_left (fun s x => deleteRecord keyOf (keyOf x) s)
       (getAllFromIndex indexOf key store) store)
  = getAllFromIndex indexOf other store.
Proof.
  intros Hnd Hne. rewrite fold_delete_filter. unfold getAllFromIndex.
  apply filter_absorb. intros r Hr Hother.
  apply String.eqb_eq in Hother. apply negb_true_iff.
  destruct (existsb _ _) eqn:Ex; [|reflexivity]. exfalso.
  apply existsb_exists in Ex. destruct Ex as (k & Hk & Ek).
  apply String.eqb_eq in Ek. subst k.
  apply in_map_iff in Hk. destruct Hk as (x & Ex & Hx).
  apply filter_In in Hx. destruct Hx as [Hx Hix]. apply String.eqb_eq in Hix.
  assert (x = r) by (apply (NoDup_keys_eq keyOf store); assumption).
  subst x. congruence.
Qed.

(** X20.  [deleteDocument] cascades and is confined.  On a database with
    one record per key, after [deleteDocument id] the document [id], its
    progress, and every slice and highlight indexed under [id] are gone,
    while the document, the slices, the progress and the highlights of
    every other document are as before; the database still has one record
    per key. *)
Theorem deleteDocument_cascade (id : String.string) (db : DB.t) :
  wellFormed db ->
  let db' := Storage.deleteDocument id db in
  Storage.getDocument id db' = None
  /\ Storage.getSlicesForDocument id db' = []
  /\ Storage.getProgress id db' = None
  /\ Storage.getHighlightsForDocument id db' = []
  /\ (forall other, other <> id ->
        Storage.getDocument other db' = Storage.getDocument other db
        /\ Storage.getSlicesForDocument other db' = Storage.getSlicesForDocument other db
        /\ Storage.getProgress other db' = Storage.getProgress other db
        /\ Storage.getHighlightsForDocument other db'
           = Storage.getHighlightsForDocument other db)
  /\ wellFormed db'.
Proof.
  intros (Hd & Hs & Hp & Hh) db'. unfold db', Storage.deleteDocument.
  rewrite fold_deleteHighlight. cbn [DB.documents DB.slices DB.progress DB.highlights].
  rewrite fold_deleteSliceOf. cbn [DB.documents DB.slices DB.progress DB.highlights].
  unfold Storage.getDocument, Storage.getSlicesForDocument, Storage.getProgress,
    Storage.getHighlightsForDocument.
  cbn [DB.documents DB.slices DB.progress DB.highlights].
  split; [apply getRecord_delete_same|].
  split; [apply index_cleared|].
  split; [apply getRecord_delete_same|].
  split; [apply index_cleared|].
  split.
  - intros other Hne.
    split; [apply getRecord_delete_other; congruence|].
    split; [apply index_kept; assumption|].
    split; [apply getRecord_delete_other; congruence|].
    apply index_kept; assumption.
  - unfold wellFormed. cbn [DB.documents DB.slices DB.progress DB.highlights].
    rewrite !fold_delete_filter.
    repeat split; apply NoDup_keys_filter; assumption.
Qed.

(** X21.  [saveProgress] records the position it is given, stamped with
    the first reading of the clock, and stamps [lastReadAt] of the
    document with the second, changing nothing else of it; when the
    document is not in the database it creates none.  The progress and the
    document of every other identifier, the slices and the highlights are
    untouched. *)
Theorem saveProgress_effect (now1 now2 : Z) (documentId : String.string)
    (currentSliceIndex totalSlices : nat) (db : DB.t) :
  let db' := Storage.saveProgress now1 now2 documentId currentSliceIndex totalSlices db in
  Storage.getProgress documentId db'
  = Some {| ProgressRecord.documentId := documentId;
            ProgressRecord.currentSliceIndex := currentSliceIndex;
            ProgressRecord.totalSlices := totalSlices;
            ProgressRecord.lastUpdated := now1 |}
  /\ Storage.getDocument documentId db'
     = option_map (fun doc =>
                     {| DocumentRecord.id := DocumentRecord.id doc;
                        DocumentRecord.name := DocumentRecord.name doc;
                        DocumentRecord.data := DocumentRecord.data doc;
                        DocumentRecord.pageCount := DocumentRecord.pageCount doc;
                        DocumentRecord.createdAt := DocumentRecord.createdAt doc;
                        DocumentRecord.lastReadAt := now2 |})
         (Storage.getDocument documentId db)
  /\ (Storage.getDocument documentId db = None -> DB.documents db' = DB.documents db)
  /\ (forall other, other <> documentId ->
        Storage.getProgress other db' = Storage.getProgress other db
        /\ Storage.getDocument other db' = Storage.getDocument other db)
  /\ DB.slices db' = DB.slices db
  /\ DB.highlights db' = DB.highlights db.
Proof.
  intro db'. unfold db', Storage.saveProgress, Storage.getProgress, Storage.getDocument.
  cbn [DB.documents DB.slices DB.progress DB.highlights].
  set (rec := {| ProgressRecord.documentId := documentId;
                 ProgressRecord.currentSliceIndex := currentSliceIndex;
                 ProgressRecord.totalSlices := totalSlices;
                 ProgressRecord.lastUpdated := now1 |}).
  assert (Hsame : getRecord ProgressRecord.documentId documentId
                    (putRecord ProgressRecord.documentId rec (DB.progress db)) = Some rec)
    by (apply (getRecord_put_same ProgressRecord.documentId rec)).
  assert (Hother : forall other, other <> documentId ->
            getRecord ProgressRecord.documentId other
              (putRecord ProgressRecord.documentId rec (DB.progress db))
            = getRecord ProgressRecord.documentId other (DB.progress db)).
  { intros other Hne. apply getRecord_put_other. cbn. congruence. }
  destruct (getRecord DocumentRecord.id documentId (DB.documents db)) as [doc|] eqn:Edoc;
    cbn [DB.documents DB.slices DB.progress DB.highlights option_map].
  - apply getRecord_key in Edoc. destruct Edoc as [_ Eid].
    split; [exact Hsame|]. split.
    + set (doc' := {| DocumentRecord.id := DocumentRecord.id doc;
                      DocumentRecord.lastReadAt := now2 |}).
      replace documentId with (DocumentRecord.id doc') at 1 by exact Eid.
      apply getRecord_put_same.
    + split; [discriminate|]. split; [|split; reflexivity].
      intros other Hne. split; [apply Hother; exact Hne|].
      apply getRecord_put_other. cbn. congruence.
  - split; [exact Hsame|]. split; [exact Edoc|]. split; [reflexivity|].
    split; [|split; reflexivity].
    intros other Hne. split; [apply Hother; exact Hne|reflexivity].
Qed.

(** ** Slicing a document into the database *)








Lemma demo_cuts :
  findCutPoints 0 shortPage (150 * 2 * (1 # 2)) noOverrides = Some [0; 100; 200]%Z.
Proof. vm_compute. reflexivity. Qed.

Lemma demo_analysis (n : nat) :
  analyzePageForSlicing 0 (PageRenderResult.imageData (demoPage n)) 150 2
  = Some [(0, 100); (100, 200)]%Z.
Proof.
  unfold analyzePageForSlicing. cbn [PageRenderResult.imageData demoPage].
  rewrite demo_cuts. reflexivity.
Qed.

Lemma demo_run :
  processDocumentSlices 0 "doc"%string demoPages demoTexts 150
  = Some (demoSlices, demoEffects).
Proof.
  unfold demoSlices, demoEffects, processDocumentSlices, demoPages.
  cbn [pagesLoop]. rewrite !demo_analysis. reflexivity.
Qed.

Lemma no_short_slices_witness :
  Forall (fun p => 150 * 2 * (1 # 2) * (3 # 10) - (1 # 2) < inject_Z (snd p - fst p))
         (slicesOf [0; 100; 200]%Z).
Proof.
  apply Forall_forall. intros [a b] Hab.
  apply (no_short_slices shortPage (150 * 2 * (1 # 2)) noOverrides 0 [0; 100; 200]%Z).
  - discriminate.
  - reflexivity.
  - exact demo_cuts.
  - exact Hab.
Defined.

Lemma processDocumentSlices_bookkeeping_witness :
  map SliceInfo.globalIndex demoSlices = seq 0 (length demoSlices)
  /\ savedSlices demoEffects = map storedSliceOf demoSlices
  /\ hd_error demoEffects = Some (ClearSlices "doc"%string)
  /\ last demoEffects (ClearSlices "doc"%string)
     = Progress {| ProcessingProgress.phase := complete;
                   ProcessingProgress.currentPage := length demoPages;
                   ProcessingProgress.totalPages := length demoPages;
                   ProcessingProgress.currentSlice := length demoSlices;
                   ProcessingProgress.totalSlices := length demoSlices |}
  /\ Forall (fun s => SliceInfo.documentId s = "doc"%string
                      /\ SliceInfo.id s
                         = sliceIdOf "doc"%string (SliceInfo.pageNumber s)
                             (SliceInfo.sliceIndex s)) demoSlices.
Proof.
  apply (processDocumentSlices_bookkeeping 0 "doc"%string demoPages demoTexts 150).
  exact demo_run.
Defined.

Lemma save_then_load_witness :
  NoDup (map SliceInfo.id demoSlices)
  /\ forall storedSlices anyId,
       Permutation storedSlices (savedSlices demoEffects) ->
       loadSlicesFromStorage anyId storedSlices = map withoutSizeAndText demoSlices.
Proof.
  apply (save_then_load 0 "doc"%string demoPages demoTexts 150 demoSlices demoEffects).
  - exact demo_run.
  - repeat constructor.
Defined.

Lemma text_items_are_kept_witness :
  exists s,
    In s demoSlices
    /\ SliceInfo.pageNumber s = PageRenderResult.pageNumber (demoPage 1)
    /\ In (shiftItem
             (inject_Z (Z.max 0 (SliceInfo.startY s - SliceInfo.overlapHeight s)))
             demoItem)
          (SliceInfo.textItems s).
Proof.
  apply (text_items_are_kept 0 "doc"%string demoPages demoTexts 150 demoSlices demoEffects
           0 (demoPage 1) (demoText 1) [0; 100; 200]%Z demoItem).
  - exact demo_run.
  - reflexivity.
  - reflexivity.
  - exact demo_cuts.
  - repeat split.
    + simpl. lia.
    + repeat constructor.
  - left. reflexivity.
  - reflexivity.
  - reflexivity.
  - reflexivity.
Defined.

Lemma slice_images_witness :
  Forall (fun s =>
            (SliceInfo.overlapHeight s = 0%Z \/ SliceInfo.overlapHeight s = 60%Z)
            /\ SliceInfo.height s
               = (SliceInfo.endY s
                  - Z.max 0 (SliceInfo.startY s - SliceInfo.overlapHeight s))%Z)
         demoSlices.
Proof.
  apply Forall_forall. intros s Hs.
  destruct (slice_images 0 "doc"%string demoPages demoTexts 150 demoSlices demoEffects s)
    as (Hoverlap & Hheight & _).
  - exact demo_run.
  - exact Hs.
  - split; [exact Hoverlap|exact Hheight].
Defined.

Lemma progress_is_monotone_witness :
  map ProcessingProgress.currentPage (progressEvents demoEffects)
  = seq 1 (length demoPages) ++ [length demoPages]
  /\ StronglySorted Qle (map getProgress (progressEvents demoEffects)).
Proof.
  destruct (progress_is_monotone 0 "doc"%string demoPages demoTexts 150
              demoSlices demoEffects) as (Hpages & _ & Hsorted & _).
  - exact demo_run.
  - split; [exact Hpages|exact Hsorted].
Defined.

Lemma markdown_export_headings_witness :
  let lines :=
    markdownLines "today"%string "a.pdf"%string
      (exportedOf (fun _ => "date"%string) (sortHighlights demoHighlights)) in
  count_occ String.string_dec lines (pageHeading 2) = 1%nat
  /\ filter isQuoteLine lines = ["> first"%string; "> third"%string; "> fourth"%string].
Proof.
  intro lines.
  destruct (markdown_export_headings (fun _ => "date"%string) "today"%string "a.pdf"%string
              (fun _ _ => String.EmptyString) demoHighlights)
    as (_ & _ & _ & Hcount & Hquotes).
  - repeat constructor; discriminate.
  - split; [exact (Hcount 2%Z)|exact Hquotes].
Defined.

Lemma deleteDocument_cascade_witness :
  Storage.getSlicesForDocument "doc"%string (Storage.deleteDocument "doc"%string demoDB) = []
  /\ Storage.getSlicesForDocument "other"%string (Storage.deleteDocument "doc"%string demoDB)
     = Storage.getSlicesForDocument "other"%string demoDB.
Proof.
  destruct (deleteDocument_cascade "doc"%string demoDB) as (_ & Hgone & _ & _ & Hkept & _).
  - repeat split; repeat constructor; simpl; intuition discriminate.
  - split; [exact Hgone|].
    destruct (Hkept "other"%string) as (_ & Hslices & _); [discriminate|exact Hslices].
Defined.

